(** * Retrieval-quality pipeline of enterprise_rag

    A shallow embedding of the three components the repository's
    retrieval pipeline is made of, and the properties checked on them:

    - [TextSplitter]  (api/services/text_splitter.py): the chunker;
    - [LLMService.calculate_confidence] (api/services/llm_service.py)
      and the filtering / citation part of [medical_chat]
      (api/routers/medical.py): the retrieval scorer;
    - [EvaluationService] (api/services/evaluation_service.py): the
      evaluation engine with its optional AI-assisted audit.

    Conventions of the embedding.
    - A Python [str] is the list of its Unicode code points ([list N]);
      [len] is [length].
    - A Python [float] is idealised as an exact rational ([Qc]): the
      arithmetic of the scorer and of the metrics is modelled without
      IEEE-754 rounding error.
    - A Python exception is a value: a computation that may raise returns
      [option] (one possible exception) or a sum [exn + A]. *)

From Stdlib Require Import QArith Qcanon Qround Lia Lra Psatz.
From stdpp Require Import base numbers list gmap strings.

Local Open Scope nat_scope.

(** ** Python strings *)

Module Py.

Abbreviation str := (list N).

(** Code points named in the sources. *)
Definition NL : N := 10.   (* '\n' *)
Definition CR : N := 13.   (* '\r' *)
Definition TAB : N := 9.   (* '\t' *)
Definition SP : N := 32.   (* ' '  *)

(** UTF-8 decoding of a literal of this file into code points; it is only
    used to write the sources' string literals readably. *)
Fixpoint bytes_of (s : string) : list N :=
  match s with
  | EmptyString => []
  | String a s' => Ascii.N_of_ascii a :: bytes_of s'
  end.

Fixpoint utf8_go (need : nat) (acc : N) (bs : list N) : list N :=
  match bs with
  | [] => []
  | b :: bs' =>
      match need with
      | S n =>
          let acc' := (acc * 64 + b mod 64)%N in
          match n with
          | O => acc' :: utf8_go 0 0%N bs'
          | S _ => utf8_go n acc' bs'
          end
      | O =>
          if (b <? 128)%N then b :: utf8_go 0 0%N bs'
          else if (b <? 224)%N then utf8_go 1 (b mod 32)%N bs'
          else if (b <? 240)%N then utf8_go 2 (b mod 16)%N bs'
          else utf8_go 3 (b mod 8)%N bs'
      end
  end.

Definition utf8 (s : string) : list N := utf8_go 0 0%N (bytes_of s).

Definition mem (c : N) (l : list N) : bool := existsb (N.eqb c) l.

(** [str.isspace] on one character, which is also the class [\s] of [re]
    for [str] patterns (both are Py_UNICODE_ISSPACE). *)
Definition whitespace : list N :=
  [9; 10; 11; 12; 13; 28; 29; 30; 31; 32; 133; 160; 5760;
   8192; 8193; 8194; 8195; 8196; 8197; 8198; 8199; 8200; 8201; 8202;
   8232; 8233; 8239; 8287; 12288]%N.

Definition isspace (c : N) : bool := mem c whitespace.

(** The class [\d] of [re] for [str] patterns: Unicode category Nd. *)
Definition decimal_ranges : list (N * N) :=
  [(48, 57); (1632, 1641); (1776, 1785); (1984, 1993); (2406, 2415);
   (2534, 2543); (2662, 2671); (2790, 2799); (2918, 2927); (3046, 3055);
   (3174, 3183); (3302, 3311); (3430, 3439); (3558, 3567); (3664, 3673);
   (3792, 3801); (3872, 3881); (4160, 4169); (4240, 4249); (6112, 6121);
   (6160, 6169); (6470, 6479); (6608, 6617); (6784, 6793); (6800, 6809);
   (6992, 7001); (7088, 7097); (7232, 7241); (7248, 7257); (42528, 42537);
   (43216, 43225); (43264, 43273); (43472, 43481); (43504, 43513);
   (43600, 43609); (44016, 44025); (65296, 65305); (66720, 66729);
   (68912, 68921); (69734, 69743); (69872, 69881); (69942, 69951);
   (70096, 70105); (70384, 70393); (70736, 70745); (70864, 70873);
   (71248, 71257); (71360, 71369); (71472, 71481); (71904, 71913);
   (72016, 72025); (72784, 72793); (73040, 73049); (73120, 73129);
   (92768, 92777); (92864, 92873); (93008, 93017); (120782, 120831);
   (123200, 123209); (123632, 123641); (125264, 125273);
   (130032, 130041)]%N.

Definition isdigit (c : N) : bool :=
  existsb (fun r => (fst r <=? c)%N && (c <=? snd r)%N) decimal_ranges.

Definition isupper_ascii (c : N) : bool := (65 <=? c)%N && (c <=? 90)%N.
Definition islower_ascii (c : N) : bool := (97 <=? c)%N && (c <=? 122)%N.

(** Truth value of a string: [if s] / [if not s]. *)
Definition nonempty (s : list N) : bool :=
  match s with [] => false | _ :: _ => true end.

(** [str.strip()] with no argument. *)
Fixpoint lstrip (s : list N) : list N :=
  match s with
  | [] => []
  | c :: s' => if isspace c then lstrip s' else s
  end.

Fixpoint rstrip (s : list N) : list N :=
  match s with
  | [] => []
  | c :: s' =>
      match rstrip s' with
      | [] => if isspace c then [] else [c]
      | r => c :: r
      end
  end.

Definition strip (s : list N) : list N := rstrip (lstrip s).

(** Length of the longest prefix whose characters all satisfy [p]: what a
    greedy [p+] or [p*] of a pattern consumes. *)
Fixpoint span (p : N -> bool) (s : list N) : nat :=
  match s with
  | [] => 0
  | c :: s' => if p c then S (span p s') else 0
  end.

(** [range(start, stop, step)] for a positive step. *)
Definition py_range (start stop step : nat) : list nat :=
  map (fun k => start + k * step) (seq 0 ((stop - start + step - 1) / step)).

(** A raised exception, an instance of [Exception]: its class and its
    message, [str(e)]. *)
Record exn := Exn { exn_class : string; exn_message : str }.

Definition IndexError : exn :=
  Exn "IndexError" (utf8 "list index out of range").

(** [str(n)] for a natural number; [fuel] bounds the number of digits. *)
Fixpoint digits (fuel n : nat) (acc : list N) : list N :=
  match fuel with
  | O => acc
  | S fuel' =>
      let acc' := N.of_nat (48 + n mod 10) :: acc in
      if n <? 10 then acc' else digits fuel' (n / 10) acc'
  end.

Definition str_of_nat (n : nat) : list N := digits (S n) n [].

End Py.

Import Py.

(** ** The chunker: api/services/text_splitter.py *)

Module TextSplitter.

(** The two fields of [TextSplitter.__init__] the algorithm reads
    ([separator] is stored and never used). Sizes are natural numbers: the
    configuration surface has no negative size. *)
Record t := mk { chunk_size : nat; chunk_overlap : nat }.

(** [get_text_splitter()]: the instance the application uses. *)
Definition get_text_splitter : t := mk 500 50.

(** *** The regular expressions, each as the function it denotes

    Every pattern of the file is used through [re.sub], [re.split] or
    [re.match] on one fixed pattern; each is embedded as the scanning
    function that pattern denotes under Python's leftmost, greedy,
    backtracking semantics. *)

(** [re.sub(r'[ \t]+', ' ', text)]: [inrun] tells that the previous
    character belonged to the run being replaced. *)
Fixpoint sub_blanks (inrun : bool) (s : str) : str :=
  match s with
  | [] => []
  | c :: s' =>
      if (c =? SP)%N || (c =? TAB)%N
      then (if inrun then sub_blanks true s' else SP :: sub_blanks true s')
      else c :: sub_blanks false s'
  end.

(** [re.sub(r'\n{3,}', '\n\n', text)]: [k] counts the newlines of the
    current run already written; a run keeps its first two newlines, which
    leaves runs of one or two untouched and turns longer ones into two. *)
Fixpoint sub_newlines (k : nat) (s : str) : str :=
  match s with
  | [] => []
  | c :: s' =>
      if (c =? NL)%N
      then (if k <? 2 then NL :: sub_newlines (S k) s' else sub_newlines k s')
      else c :: sub_newlines 0 s'
  end.

(** [text.replace('\r', '')] *)
Definition remove_cr (s : str) : str :=
  List.filter (fun c => negb (c =? CR)%N) s.

(** Index of the last newline of [s]. *)
Fixpoint last_newline (s : str) : option nat :=
  match s with
  | [] => None
  | c :: s' =>
      match last_newline s' with
      | Some k => Some (S k)
      | None => if (c =? NL)%N then Some 0 else None
      end
  end.

(** Length of the match of [r'\n\s*\d+\s*\n'] at the head of [s], if
    there is one. After the newline, [\s*] takes the whole whitespace run
    (a shorter choice would leave a whitespace character in front of [\d+]),
    [\d+] takes the whole digit run (a shorter choice would leave a digit in
    front of [\s*\n]); the last [\s*] is then backtracked from the whole
    following whitespace run to the longest prefix that a newline follows,
    so the match ends with the last newline of that run. *)
Definition match_page_number (s : str) : option nat :=
  match s with
  | [] => None
  | c :: r =>
      if (c =? NL)%N then
        let w1 := span isspace r in
        let r1 := drop w1 r in
        let d := span isdigit r1 in
        if d =? 0 then None
        else
          let r2 := drop d r1 in
          match last_newline (take (span isspace r2) r2) with
          | Some k => Some (1 + w1 + d + S k)
          | None => None
          end
      else None
  end.

(** [re.sub(r'\n\s*\d+\s*\n', '\n', text)]: matches are replaced from
    left to right and do not overlap; [skip] is the number of characters of
    the current match still to be passed over. *)
Fixpoint sub_page_numbers (skip : nat) (s : str) : str :=
  match s with
  | [] => []
  | c :: s' =>
      match skip with
      | S k => sub_page_numbers k s'
      | O =>
          match match_page_number (c :: s') with
          | Some n => NL :: sub_page_numbers (n - 1) s'
          | None => c :: sub_page_numbers 0 s'
          end
      end
  end.

Definition _preprocess_text (text : str) : str :=
  let text := sub_blanks false text in
  let text := sub_newlines 0 text in
  let text := remove_cr text in
  let text := sub_page_numbers 0 text in
  strip text.

Definition starts_with_newline (s : str) : bool :=
  match s with
  | c :: _ => (c =? NL)%N
  | [] => false
  end.

Definition cons_head (c : N) (pieces : list str) : list str :=
  match pieces with
  | p :: rest => (c :: p) :: rest
  | [] => [[c]]
  end.

(** [re.split(r'\n{2,}', text)]: a separator is a whole run of two or more
    newlines; [insep] tells that the scan is inside a separator. The result
    always has a last piece, possibly empty. *)
Fixpoint split_paragraphs (insep : bool) (s : str) : list str :=
  match s with
  | [] => [[]]
  | c :: s' =>
      if insep && (c =? NL)%N then split_paragraphs true s'
      else if (c =? NL)%N && starts_with_newline s'
      then [] :: split_paragraphs true s'
      else cons_head c (split_paragraphs false s')
  end.

(** The class [[。！？\n]] *)
Definition is_terminator (c : N) : bool := mem c [12290; 65281; 65311; 10]%N.

(** [re.split(r'([。！？\n])', paragraph)]: with the capturing group the
    result alternates text and terminator,
    [[t0; sep1; t1; ...; sepn; tn]]. *)
Fixpoint split_sentences (s : str) : list str :=
  match s with
  | [] => [[]]
  | c :: s' =>
      if is_terminator c then [] :: [c] :: split_sentences s'
      else cons_head c (split_sentences s')
  end.

(** The class [[一二三四五六七八九十]] *)
Definition is_cn_numeral (c : N) : bool :=
  mem c [19968; 20108; 19977; 22235; 20116; 20845; 19971; 20843; 20061;
         21313]%N.

(** [re.match(r'^第[一二三四五六七八九十\d]+[章节篇]', t)] *)
Definition match_chapter (t : str) : bool :=
  match t with
  | c :: r =>
      (c =? 31532)%N &&
      (let n := span (fun x => is_cn_numeral x || isdigit x) r in
       (0 <? n) &&
       match drop n r with
       | e :: _ => mem e [31456; 33410; 31687]%N
       | [] => false
       end)
  | [] => false
  end.

(** [re.match(r'^[一二三四五六七八九十]+、', t)] *)
Definition match_cn_ordinal (t : str) : bool :=
  let n := span is_cn_numeral t in
  (0 <? n) &&
  match drop n t with
  | e :: _ => (e =? 12289)%N
  | [] => false
  end.

(** [re.match(r'^\d+[\.\.]', t)] *)
Definition match_ordinal (t : str) : bool :=
  let n := span isdigit t in
  (0 <? n) &&
  match drop n t with
  | e :: _ => (e =? 46)%N
  | [] => false
  end.

(** [re.match(r'^[A-Z][A-Z\s]+$', t)]: every character after the first is
    in the class, a final newline included, so [$] is reached at the end. *)
Definition match_uppercase (t : str) : bool :=
  match t with
  | c :: r =>
      isupper_ascii c && nonempty r &&
      forallb (fun x => isupper_ascii x || isspace x) r
  | [] => false
  end.

(** [re.match(r'^【.+】$', t)]: [$] stands at the end of [t] or in front of
    a newline that ends [t]; [.] is any character but a newline. *)
Definition match_bracket_title (t : str) : bool :=
  match t with
  | c :: r =>
      (c =? 12304)%N &&
      (let closes (body : str) :=
         match rev body with
         | e :: m =>
             (e =? 12305)%N && nonempty m &&
             negb (existsb (fun x => (x =? NL)%N) m)
         | [] => false
         end in
       closes r ||
       match rev r with
       | e :: m => (e =? NL)%N && closes (rev m)
       | [] => false
       end)
  | [] => false
  end.

Definition _is_heading (text : str) : bool :=
  let t := strip text in
  match_chapter t || match_cn_ordinal t || match_ordinal t ||
  match_uppercase t || match_bracket_title t.

(** One or more whitespace characters at the head: [\s+]. *)
Definition then_spaces (s : str) : bool := 0 <? span isspace s.

(** [re.match(r'^\s*[•·\-]\s+', t)] *)
Definition match_bullet (t : str) : bool :=
  match drop (span isspace t) t with
  | c :: r => mem c [8226; 183; 45]%N && then_spaces r
  | [] => false
  end.

Definition is_dot_or_paren (c : N) : bool := (c =? 46)%N || (c =? 41)%N.

(** [re.match(r'^\s*\d+[\.\)]\s+', t)] *)
Definition match_numbered (t : str) : bool :=
  let r := drop (span isspace t) t in
  let n := span isdigit r in
  (0 <? n) &&
  match drop n r with
  | c :: r' => is_dot_or_paren c && then_spaces r'
  | [] => false
  end.

(** [re.match(r'^\s*[a-z][\.\)]\s+', t)] *)
Definition match_lettered (t : str) : bool :=
  match drop (span isspace t) t with
  | a :: c :: r => islower_ascii a && is_dot_or_paren c && then_spaces r
  | _ => false
  end.

Definition _is_list_item (text : str) : bool :=
  let t := strip text in
  match_bullet t || match_numbered t || match_lettered t.

(** *** The methods *)

Definition flush (current : str) : list str :=
  if nonempty current then [current] else [].

(** The loop of [_merge_short_paragraphs]; the list it returns is what the
    loop appends to [merged], followed by the last buffer. *)
Fixpoint merge_loop (min_length : nat) (current_paragraph : str)
    (rest : list str) : list str :=
  match rest with
  | [] => flush current_paragraph
  | p :: rest' =>
      let next_paragraph := strip p in
      if (length current_paragraph <? min_length)
         && negb (_is_heading next_paragraph)
         && negb (_is_list_item next_paragraph)
      then merge_loop min_length
             (current_paragraph ++ SP :: next_paragraph) rest'
      else flush current_paragraph ++ merge_loop min_length next_paragraph rest'
  end.

Definition _merge_short_paragraphs (paragraphs : list str)
    (min_length : nat) : list str :=
  match paragraphs with
  | [] => []
  | p0 :: rest => merge_loop min_length (strip p0) rest
  end.

(** [text[i:i + max_length]] *)
Definition slice (text : str) (i max_length : nat) : str :=
  take max_length (drop i text).

(** [_force_split]: [range(0, len(text), max_length)] raises [ValueError]
    when [max_length] is zero, which is the [None] here. *)
Definition _force_split (text : str) (max_length : nat) : option (list str) :=
  if max_length =? 0 then None
  else Some (List.filter nonempty
               (map (fun i => slice text i max_length)
                    (py_range 0 (length text) max_length))).

Definition last_chars (overlap : nat) (chunk : str) : str :=
  if overlap <? length chunk then drop (length chunk - overlap) chunk
  else chunk.

(** The loop of [_add_overlap]: [prev] is [chunks[i - 1]], the chunk as it
    was before any overlap was added. *)
Fixpoint overlap_loop (overlap : nat) (prev : str) (chunks : list str)
    : list str :=
  match chunks with
  | [] => []
  | c :: cs => (last_chars overlap prev ++ SP :: c) :: overlap_loop overlap c cs
  end.

Definition _add_overlap (chunks : list str) (overlap : nat) : list str :=
  if (overlap <=? 0) || (length chunks <=? 1) then chunks
  else
    match chunks with
    | [] => []
    | c0 :: cs => c0 :: overlap_loop overlap c0 cs
    end.

(** The first loop of [_split_long_paragraph]: for every even [i] below
    [len(sentences) - 1], the text and the terminator after it. Both
    indices are below [len(sentences)] there. *)
Definition combine_sentences (sentences : list str) : list str :=
  map (fun i =>
         if i + 1 <? length sentences
         then strip (nth i sentences [] ++ nth (i + 1) sentences [])
         else strip (nth i sentences []))
      (py_range 0 (length sentences - 1) 2).

(** The second loop of [_split_long_paragraph]: the chunks appended from
    the sentences still to be read, followed by the last running chunk. *)
Fixpoint pack_sentences (size : nat) (current_chunk : str)
    (sentences : list str) : option (list str) :=
  match sentences with
  | [] => Some (if nonempty current_chunk then [strip current_chunk] else [])
  | sentence :: rest =>
      if negb (nonempty sentence) then pack_sentences size current_chunk rest
      else if length current_chunk + length sentence <=? size
      then pack_sentences size (current_chunk ++ sentence) rest
      else
        let flushed :=
          if nonempty current_chunk then [strip current_chunk] else [] in
        if size <? length sentence then
          sub_chunks ← _force_split sentence size;
          later ← pack_sentences size [] rest;
          Some (flushed ++ sub_chunks ++ later)
        else
          later ← pack_sentences size sentence rest;
          Some (flushed ++ later)
  end.

Definition _split_long_paragraph (self : t) (paragraph : str)
    : option (list str) :=
  let sentences := split_sentences paragraph in
  let combined_sentences := combine_sentences sentences in
  chunks ← pack_sentences (chunk_size self) [] combined_sentences;
  Some (if 0 <? chunk_overlap self
        then _add_overlap chunks (chunk_overlap self)
        else chunks).

(** The loop of [split_text] over the merged paragraphs. *)
Fixpoint chunk_paragraphs (self : t) (merged_paragraphs : list str)
    : option (list str) :=
  match merged_paragraphs with
  | [] => Some []
  | paragraph :: rest =>
      here ← (if length paragraph <=? chunk_size self
              then Some [strip paragraph]
              else _split_long_paragraph self paragraph);
      later ← chunk_paragraphs self rest;
      Some (here ++ later)
  end.

Definition keep_chunk (chunk : str) : bool :=
  nonempty chunk && (20 <? length (strip chunk)).

Definition split_text (self : t) (text : str) : option (list str) :=
  if negb (nonempty text) then Some []
  else
    let cleaned_text := _preprocess_text text in
    let paragraphs := split_paragraphs false cleaned_text in
    let merged_paragraphs := _merge_short_paragraphs paragraphs 50 in
    final_chunks ← chunk_paragraphs self merged_paragraphs;
    Some (List.filter keep_chunk final_chunks).

End TextSplitter.

(** ** Python numbers *)

Module PyNum.

Local Open Scope Qc_scope.

(** [max(a, b)] and [min(a, b)] of two numbers: the first argument is
    returned unless the second is strictly greater (smaller). *)
Definition py_max (a b : Qc) : Qc := if decide (a < b) then b else a.
Definition py_min (a b : Qc) : Qc := if decide (b < a) then b else a.

(** [min(l)] of a non-empty list; [None] is the [ValueError] for an empty
    one. *)
Definition py_min_list (l : list Qc) : option Qc :=
  match l with
  | [] => None
  | d :: ds => Some (fold_left py_min ds d)
  end.

(** The integer nearest to [x], ties going to the even one. *)
Definition round_half_even (x : Qc) : Z :=
  let f := Qfloor x in
  let r := x - Qc_of_Z f in
  if decide (r < Q2Qc (1 # 2)) then f
  else if decide (Q2Qc (1 # 2) < r) then (f + 1)%Z
  else if Z.even f then f else (f + 1)%Z.

(** [round(x, ndigits)] on the exact value of [x]. *)
Definition py_round (x : Qc) (ndigits : nat) : Qc :=
  Qc_of_Z (round_half_even (x * Qc_of_Z (10 ^ Z.of_nat ndigits)))
  / Qc_of_Z (10 ^ Z.of_nat ndigits).

Definition of_nat (n : nat) : Qc := Qc_of_Z (Z.of_nat n).

End PyNum.

(** ** The confidence of an answer: api/services/llm_service.py *)

Module LLMService.

Import Py PyNum.
Local Open Scope Qc_scope.

Definition calculate_confidence (query : str) (context_docs : list str)
    (distances : list Qc) : Qc :=
  match py_min_list distances with
  | None => 0
  | Some min_distance =>
      let similarity := py_max 0 (1 - min_distance / 2) in
      let high_quality_matches :=
        length (List.filter (fun d => bool_decide (d < Q2Qc (1 # 2))) distances) in
      let similarity :=
        if (2 <=? high_quality_matches)%nat
        then py_min 1 (similarity + Q2Qc (1 # 10))
        else similarity in
      py_round similarity 2
  end.

End LLMService.

(** ** The metrics: api/services/evaluation_service.py *)

Module Metrics.

Import Py PyNum.
Local Open Scope Qc_scope.

(** [set(retrieved_docs) & set(ground_truth_docs)] *)
Definition relevant_set (retrieved_docs ground_truth_docs : list str)
    : gset (list N) :=
  list_to_set retrieved_docs ∩ list_to_set ground_truth_docs.

Definition is_nil {A} (l : list A) : bool :=
  match l with [] => true | _ :: _ => false end.

Definition calculate_metrics (retrieved_docs ground_truth_docs : list str)
    : Qc * Qc * Qc :=
  if is_nil retrieved_docs then (0, 0, 0)
  else if is_nil ground_truth_docs then (0, 0, 0)
  else
    let relevant_retrieved := relevant_set retrieved_docs ground_truth_docs in
    let relevant_count := size relevant_retrieved in
    let precision :=
      if is_nil retrieved_docs then 0
      else of_nat relevant_count / of_nat (length retrieved_docs) in
    let recall :=
      if is_nil ground_truth_docs then 0
      else of_nat relevant_count / of_nat (length ground_truth_docs) in
    let f1_score :=
      if decide (precision + recall = 0) then 0
      else 2 * (precision * recall) / (precision + recall) in
    (precision, recall, f1_score).

End Metrics.

(** ** The scorer: the route [/chat] of api/routers/medical.py *)

Module Medical.

Import Py PyNum.
Local Open Scope Qc_scope.

Record PatientProfile := {
  age : nat;
  gender : str;
  medical_history : option (list str);
  current_medications : option (list str) }.

Record ChatOptions := {
  max_results : nat;
  include_references : bool;
  evidence_level : option str;
  department : option str }.

Record ChatRequest := {
  query : str;
  patient_profile : option PatientProfile;
  options : option ChatOptions }.

Record Reference := {
  title : str;
  author : str;
  ref_department : str;
  ref_evidence_level : str;
  url : option str }.

Record ChatResponse := {
  answer : str;
  references : list Reference;
  confidence : Qc;
  similar_queries : list str }.

Record HTTPException := { status_code : nat; detail : str }.

(** The metadata of a hit: a dictionary with string values. *)
Abbreviation metadata := (gmap string (list N)).

(** What [chroma_service.search] returns: one list per query under each
    key. *)
Record QueryResult := {
  ids : list (list str);
  documents : list (list str);
  metadatas : list (list metadata);
  distances : list (list Qc) }.

(** Truth value of a list. *)
Definition nonempty_list {A} (l : list A) : bool :=
  match l with [] => false | _ :: _ => true end.

(** [l[0]] *)
Definition index0 {A} (l : list A) : exn + A :=
  match l with
  | x :: _ => inr x
  | [] => inl IndexError
  end.

(** [zip(documents, metadatas, distances)] *)
Fixpoint zip3 {A B C} (a : list A) (b : list B) (c : list C)
    : list (A * B * C) :=
  match a, b, c with
  | x :: a', y :: b', z :: c' => (x, y, z) :: zip3 a' b' c'
  | _, _, _ => []
  end.

(** [needle in haystack] for strings *)
Fixpoint starts_with (needle haystack : str) : bool :=
  match needle, haystack with
  | [], _ => true
  | _ :: _, [] => false
  | a :: needle', b :: haystack' => (a =? b)%N && starts_with needle' haystack'
  end.

Fixpoint contains (needle haystack : str) : bool :=
  starts_with needle haystack ||
  match haystack with
  | [] => false
  | _ :: haystack' => contains needle haystack'
  end.

Definition _generate_similar_queries (query : str) (context_docs : list str)
    : list str :=
  let similar_queries :=
    if contains (utf8 "饮食") query then
      if contains (utf8 "高血压") query
      then [utf8 "高血压吃什么"; utf8 "高血压饮食禁忌"; utf8 "高血压日常饮食"]
      else if contains (utf8 "糖尿病") query
      then [utf8 "糖尿病吃什么"; utf8 "糖尿病饮食指南"; utf8 "糖尿病饮食禁忌"]
      else []
    else if contains (utf8 "症状") query || contains (utf8 "预防") query then
      if contains (utf8 "冠心病") query
      then [utf8 "冠心病早期表现"; utf8 "冠心病怎么预防"; utf8 "冠心病注意事项"]
      else if contains (utf8 "高血压") query
      then [utf8 "高血压早期症状"; utf8 "高血压并发症"; utf8 "高血压日常护理"]
      else []
    else [] in
  take 5 similar_queries.

(** [meta.get('id', '')] *)
Definition doc_id_of (meta : metadata) : str := default [] (meta !! "id").

Definition reference_of (meta : metadata) : Reference :=
  {| title := utf8 "文档 " ++ doc_id_of meta;
     author := utf8 "医疗知识库";
     ref_department := default (utf8 "未知") (meta !! "department");
     ref_evidence_level := utf8 "A";
     url := None |}.

(** One turn of the loop that builds the references: the state is
    [(references, unique_docs)]. *)
Definition reference_step (st : list Reference * gset (list N))
    (meta : metadata) : list Reference * gset (list N) :=
  let '(references, unique_docs) := st in
  let doc_id := doc_id_of meta in
  if nonempty doc_id && bool_decide (doc_id ∉ unique_docs)
  then (references ++ [reference_of meta], {[doc_id]} ∪ unique_docs)
  else st.

Definition build_references (filtered_metas : list metadata)
    : list Reference :=
  (fold_left reference_step filtered_metas ([], ∅)).1.

Definition no_documents_response : ChatResponse :=
  {| answer := utf8 "抱歉，在当前知识库中没有找到相关的医疗建议。建议您咨询专业医生或提供更具体的问题。";
     references := [];
     confidence := 0;
     similar_queries := [] |}.

Definition no_match_response : ChatResponse :=
  {| answer := utf8 "抱歉，没有找到足够相关的医疗建议。建议您尝试其他关键词或咨询专业医生。";
     references := [];
     confidence := 0;
     similar_queries := [] |}.

(** The [where] condition of the search: the department of the options,
    when there is one. *)
Definition where_of (request : ChatRequest) : option metadata :=
  match options request with
  | Some o =>
      match department o with
      | Some d => if nonempty d then Some {[ "department" := d ]} else None
      | None => None
      end
  | None => None
  end.

(** [request.options.max_results if request.options else 5], the number of
    results asked of the search and the bound of the references. *)
Definition top_k_of (request : ChatRequest) : nat :=
  match options request with
  | Some o => max_results o
  | None => 5%nat
  end.

Section Chat.

(** [settings.SIMILARITY_THRESHOLD] *)
Variable SIMILARITY_THRESHOLD : Qc.

(** The collaborators of the route: the vector search
    [chroma_service.search(query, n_results, where)], the encoder
    [encode_single] and the answer generator
    [llm_service.generate_answer(query, context_docs, patient_profile)],
    a text generator the pipeline treats as opaque. *)
Variable search : str -> nat -> option metadata -> exn + option QueryResult.
Variable embedding : Type.
Variable encode_single : str -> exn + embedding.
Variable generate_answer : str -> list str -> option PatientProfile -> str.

(** The test of the filtering loop: [1.0 - dist >= threshold]. *)
Definition passes (dist : Qc) : bool :=
  bool_decide (SIMILARITY_THRESHOLD ≤ 1 - dist).

(** One turn of the filtering loop: the state is
    [(filtered_docs, filtered_metas, filtered_dists)]. *)
Definition filter_step (st : list str * list metadata * list Qc)
    (hit : str * metadata * Qc) : list str * list metadata * list Qc :=
  let '(filtered_docs, filtered_metas, filtered_dists) := st in
  let '(doc, meta, dist) := hit in
  if passes dist
  then (filtered_docs ++ [doc], filtered_metas ++ [meta],
        filtered_dists ++ [dist])
  else st.

Definition filter_hits (hits : list (str * metadata * Qc))
    : list str * list metadata * list Qc :=
  fold_left filter_step hits ([], [], []).

(** What can raise while [rag_details] is built: the encoder, then the
    indexing of [results['ids'][0]], [metadatas] and [distances] by every
    index of [documents]. The dictionary itself is only attached to the
    response as a private attribute. *)
Definition rag_details (results : QueryResult) (request : ChatRequest)
    (documents : list str) (metadatas : list metadata) (distances : list Qc)
    : exn + unit :=
  match encode_single (query request) with
  | inl e => inl e
  | inr _ =>
      if negb (nonempty_list documents) then inr ()
      else
        match index0 (ids results) with
        | inl e => inl e
        | inr ids0 =>
            if (length ids0 <? length documents)%nat
               || (length distances <? length documents)%nat
               || (length metadatas <? length documents)%nat
            then inl IndexError
            else inr ()
        end
  end.

(** The body of the [try] block of [medical_chat]. *)
Definition chat_body (request : ChatRequest) : exn + ChatResponse :=
  let where_ := where_of request in
  let top_k := top_k_of request in
  match search (query request) top_k where_ with
  | inl e => inl e
  | inr None => inr no_documents_response
  | inr (Some results) =>
      match documents results with
      | [] => inr no_documents_response
      | [] :: _ => inr no_documents_response
      | documents0 :: _ =>
          match index0 (metadatas results), index0 (distances results) with
          | inl e, _ => inl e
          | _, inl e => inl e
          | inr metadatas0, inr distances0 =>
              let '(filtered_docs, filtered_metas, filtered_dists) :=
                filter_hits (zip3 documents0 metadatas0 distances0) in
              if negb (nonempty_list filtered_docs) then inr no_match_response
              else
                match rag_details results request documents0 metadatas0
                        distances0 with
                | inl e => inl e
                | inr _ =>
                    let answer :=
                      generate_answer (query request) filtered_docs
                        (patient_profile request) in
                    let references := build_references filtered_metas in
                    let confidence :=
                      LLMService.calculate_confidence (query request)
                        filtered_docs filtered_dists in
                    let similar_queries :=
                      _generate_similar_queries (query request) filtered_docs in
                    inr {| answer := answer;
                           references := take top_k references;
                           confidence := confidence;
                           similar_queries := similar_queries |}
                end
          end
      end
  end.

(** [medical_chat]: anything raised in the body becomes an
    [HTTPException] with status 500. *)
Definition medical_chat (request : ChatRequest)
    : HTTPException + ChatResponse :=
  match chat_body request with
  | inr response => inr response
  | inl e =>
      inl {| status_code := 500;
             detail := utf8 "问答失败: " ++ exn_message e |}
  end.

End Chat.

End Medical.

(** ** The search and emergency routes: api/routers/medical.py *)

Module MedicalSearch.

Import Py PyNum Medical.
Local Open Scope Qc_scope.

(** An item of ["results"]. *)
Record SearchHit := {
  hit_id : str;
  hit_content : str;
  hit_metadata : metadata;
  hit_similarity : Qc }.

(** The dictionary that [medical_search] returns. *)
Record SearchResponse := {
  search_query : str;
  search_total : nat;
  search_results : list SearchHit }.

(** [{"category": category} if category else None] *)
Definition where_of_category (category : option str) : option metadata :=
  match category with
  | Some c => if nonempty c then Some {[ "category" := c ]} else None
  | None => None
  end.

(** The loop over [enumerate(zip(...))]: [i] is the index of the turn and
    [formatted_results] the list built so far. [results['ids'][0][i]] is
    read in every turn. *)
Fixpoint format_loop (results : QueryResult) (i : nat)
    (hits : list (str * metadata * Qc)) (formatted_results : list SearchHit)
    : exn + list SearchHit :=
  match hits with
  | [] => inr formatted_results
  | (doc, meta, dist) :: rest =>
      let similarity := py_round (1 - dist) 4 in
      match index0 (ids results) with
      | inl e => inl e
      | inr ids0 =>
          match ids0 !! i with
          | None => inl IndexError
          | Some id =>
              format_loop results (S i) rest
                (formatted_results
                 ++ [{| hit_id := id; hit_content := doc;
                        hit_metadata := meta;
                        hit_similarity := similarity |}])
          end
      end
  end.

(** The item of ["results"] for an id and a hit of the search. *)
Definition result_item (id : str) (hit : str * metadata * Qc) : SearchHit :=
  {| hit_id := id; hit_content := hit.1.1; hit_metadata := hit.1.2;
     hit_similarity := py_round (1 - hit.2) 4 |}.

Section Search.

Variable search : str -> nat -> option metadata -> exn + option QueryResult.

(** The body of the [try] block of [medical_search]. *)
Definition search_body (query : str) (category : option str) (top_k : nat)
    : exn + SearchResponse :=
  let where_ := where_of_category category in
  match search query top_k where_ with
  | inl e => inl e
  | inr results =>
      let formatted_results :=
        match results with
        | Some results =>
            match documents results with
            | (_ :: _) as documents0 :: _ =>
                match index0 (metadatas results),
                      index0 (distances results) with
                | inl e, _ => inl e
                | _, inl e => inl e
                | inr metadatas0, inr distances0 =>
                    format_loop results 0
                      (zip3 documents0 metadatas0 distances0) []
                end
            | _ => inr []
            end
        | None => inr []
        end in
      match formatted_results with
      | inl e => inl e
      | inr formatted_results =>
          inr {| search_query := query;
                 search_total := length formatted_results;
                 search_results := formatted_results |}
      end
  end.

Definition medical_search (query : str) (category : option str) (top_k : nat)
    : HTTPException + SearchResponse :=
  match search_body query category top_k with
  | inr response => inr response
  | inl e =>
      inl {| status_code := 500;
             detail := utf8 "检索失败: " ++ exn_message e |}
  end.

End Search.

Definition emergency_keywords : list str :=
  [utf8 "胸痛"; utf8 "呼吸困难"; utf8 "意识模糊"; utf8 "严重出血"].

(** [check_emergency]: the pair of ["is_emergency"] and ["message"]. *)
Definition check_emergency (symptoms : str) : bool * str :=
  let is_emergency :=
    existsb (fun keyword => contains keyword symptoms) emergency_keywords in
  (is_emergency,
   if is_emergency then utf8 "建议立即就医！" else utf8 "非紧急情况").

End MedicalSearch.

(** ** The answer generator: api/services/llm_service.py *)

Module Answer.

Import Py.

(** [sep.join(parts)] *)
Fixpoint join (sep : str) (parts : list str) : str :=
  match parts with
  | [] => []
  | [p] => p
  | p :: rest => p ++ sep ++ join sep rest
  end.

(** [x in l] for a list of strings *)
Definition in_list (x : str) (l : list str) : bool :=
  existsb (fun y => bool_decide (y = x)) l.

Definition contains := Medical.contains.

(** [self.prompt_template.format(context=context, query=query)] *)
Definition prompt_template_format (context query : str) : str :=
  utf8 "你是一个专业的医疗助手。请基于以下参考文档回答用户的问题。" ++ [NL; NL]
  ++ utf8 "参考文档：" ++ [NL]
  ++ context ++ [NL; NL]
  ++ utf8 "用户问题：" ++ query ++ [NL; NL]
  ++ utf8 "请根据参考文档提供准确、专业的医疗建议。如果文档中没有相关信息，请诚实告知用户。" ++ [NL]
  ++ utf8 "答案应该：" ++ [NL]
  ++ utf8 "1. 结构清晰，易于理解" ++ [NL]
  ++ utf8 "2. 基于提供的参考文档" ++ [NL]
  ++ utf8 "3. 适当使用分级列表或要点" ++ [NL]
  ++ utf8 "4. 包含具体的数值或建议" ++ [NL].

(** The entries [f"- {doc}"] for the documents that satisfy [keep]. *)
Definition dashed (keep : str -> bool) (context_docs : list str) : list str :=
  map (fun doc => utf8 "- " ++ doc) (List.filter keep context_docs).

(** The loop of the summary over [enumerate(context_docs[:5], 1)]:
    [merged_content] holds the stripped documents already listed. *)
Fixpoint summary_loop (i : nat) (merged_content : list str)
    (docs : list str) : list str :=
  match docs with
  | [] => []
  | doc :: rest =>
      let doc := strip doc in
      if nonempty doc && negb (in_list doc merged_content)
      then
        let shown :=
          if 200 <? length doc then take 200 doc ++ utf8 "..." else doc in
        (str_of_nat i ++ utf8 ". " ++ shown)
        :: summary_loop (S i) (merged_content ++ [doc]) rest
      else summary_loop (S i) merged_content rest
  end.

Definition apology : str :=
  utf8 "抱歉，在当前知识库中没有找到相关的医疗建议。建议您咨询专业医生。".

Definition disclaimer : str :=
  [NL; NL] ++ utf8 "**温馨提示**：以上内容仅供参考，具体治疗方案请以医生面诊为准。".

(** The parts appended by the keyword rules, before the summary. *)
Definition rule_parts (query : str) (context_docs : list str) : list str :=
  let all_context := join [SP] context_docs in
  let inq (w : string) := contains (utf8 w) query in
  let inc (w : string) := contains (utf8 w) all_context in
  let part (b : bool) (s : string) := if b then [utf8 s] else [] in
  if inq "高血压" && inq "饮食" then
    part (inc "盐") "1. **限制钠盐摄入**：每日盐摄入量应控制在5g以下"
    ++ part (inc "钾") "2. **增加钾摄入**：多吃香蕉、土豆、菠菜等富含钾的食物"
    ++ part (inc "脂肪" || inc "油")
         "3. **控制脂肪**：减少饱和脂肪酸，选择橄榄油等不饱和脂肪"
  else if inq "糖尿病" && inq "饮食" then
    part (inc "糖" || inc "碳水化合物")
      "1. **控制碳水化合物摄入**：选择低升糖指数(GI)食物"
    ++ part (inc "纤维") "2. **增加膳食纤维**：多吃蔬菜、全谷物"
  else if inq "冠心病" || inq "心脏" then
    (if inq "结构" || inq "腔室" || inq "心房" || inq "心室" then
       utf8 "**心脏结构**："
       :: dashed (fun doc =>
                    contains (utf8 "心脏") doc
                    && (contains (utf8 "腔室") doc || contains (utf8 "心房") doc
                        || contains (utf8 "心室") doc))
            context_docs
     else if inq "功能" || inq "泵血" || inq "心动周期" then
       utf8 "**心脏功能**："
       :: dashed (fun doc =>
                    contains (utf8 "心脏") doc
                    && (contains (utf8 "功能") doc || contains (utf8 "泵") doc
                        || contains (utf8 "收缩") doc
                        || contains (utf8 "舒张") doc
                        || contains (utf8 "心动周期") doc))
            context_docs
     else part (inc "症状" || inc "胸痛")
            "**早期症状**：胸痛、胸闷、呼吸困难、心悸")
    ++ part (inc "预防" && (negb (inq "预防") || negb (inq "症状")))
         "**预防措施**：控制血压、血脂、血糖，戒烟限酒"
  else [].

Definition _generate_rule_based_answer (query : str)
    (context_docs : list str) : str :=
  let answer_parts := rule_parts query context_docs in
  let answer_parts :=
    if negb (Medical.nonempty_list answer_parts)
       && Medical.nonempty_list context_docs
    then answer_parts
         ++ utf8 "根据相关文档：" :: summary_loop 1 [] (take 5 context_docs)
    else answer_parts in
  let answer_parts :=
    if negb (Medical.nonempty_list answer_parts)
    then answer_parts ++ [apology]
    else answer_parts in
  let answer_parts := answer_parts ++ [disclaimer] in
  join [NL; NL] answer_parts.

(** [f"[文档 {i+1}]\n{doc}"] for [enumerate(context_docs)], from index [i]. *)
Fixpoint numbered_docs (i : nat) (docs : list str) : list str :=
  match docs with
  | [] => []
  | doc :: rest =>
      (utf8 "[文档 " ++ str_of_nat (i + 1) ++ utf8 "]" ++ [NL] ++ doc)
      :: numbered_docs (S i) rest
  end.

(** The text added to the context for a patient; the dictionary that
    [medical_chat] passes always has its four keys. *)
Definition patient_info (p : Medical.PatientProfile) : str :=
  [NL; NL] ++ utf8 "患者信息：年龄" ++ str_of_nat (Medical.age p) ++ utf8 "岁，"
  ++ Medical.gender p
  ++ match Medical.medical_history p with
     | Some (h :: hs) => utf8 "，既往史：" ++ join (utf8 ", ") (h :: hs)
     | _ => []
     end
  ++ match Medical.current_medications p with
     | Some (m :: ms) => utf8 "，当前用药：" ++ join (utf8 ", ") (m :: ms)
     | _ => []
     end.

(** The prompt that [generate_answer] builds and does not use. *)
Definition build_prompt (query : str) (context_docs : list str)
    (patient_profile : option Medical.PatientProfile) : str :=
  let context := join [NL; NL] (numbered_docs 0 context_docs) in
  let context :=
    match patient_profile with
    | Some p => context ++ patient_info p
    | None => context
    end in
  prompt_template_format context query.

Definition generate_answer (query : str) (context_docs : list str)
    (patient_profile : option Medical.PatientProfile) : str :=
  let prompt := build_prompt query context_docs patient_profile in
  let answer := _generate_rule_based_answer query context_docs in
  answer.

End Answer.

(** ** The evaluation engine: api/services/evaluation_service.py *)

Module Evaluation.

Import Py PyNum.

(** A JSON value, as [json.loads] builds it; an object is the list of the
    items of the dictionary. The fields [ai_rating], [ai_comment] and
    [ai_relevance_labels] hold such values. *)
Inductive json :=
| JNull
| JBool (b : bool)
| JNumber (q : Qc)
| JString (s : list N)
| JArray (items : list json)
| JObject (members : list (list N * json)).

(** What a call of the text generator returns: a string, or a value of
    another type, given with the [TypeError] that [re.search] raises on
    it. *)
Inductive pyvalue :=
| VStr (s : list N)
| VOther (type_error : exn).

(** An attribute of an object, seen from a call with one argument: a method
    that takes it, or anything else, given with the exception that the call
    raises. *)
Inductive attribute :=
| Method1 (call : list N -> exn + pyvalue)
| Other (on_call : exn).

Record pyobject := {
  class_name : string;
  attributes : gmap string attribute }.

Definition TypeError (message : string) : exn :=
  Exn "TypeError" (utf8 message).

(** [obj.name(arg)] *)
Definition call_method (obj : pyobject) (name : string) (arg : str)
    : exn + pyvalue :=
  match attributes obj !! name with
  | None =>
      inl (Exn "AttributeError"
             (utf8 "'" ++ utf8 (class_name obj)
              ++ utf8 "' object has no attribute '" ++ utf8 name ++ utf8 "'"))
  | Some (Method1 call) => call arg
  | Some (Other e) => inl e
  end.

(** An instance of [LLMService] of api/services/llm_service.py: the
    attribute set in [__init__] and the three methods of the class. None
    takes exactly one argument. *)
Definition LLMService_instance : pyobject :=
  {| class_name := "LLMService";
     attributes :=
       {[ "prompt_template" := Other (TypeError "'str' object is not callable");
          "generate_answer" :=
            Other (TypeError "LLMService.generate_answer() missing 1 required positional argument: 'context_docs'");
          "_generate_rule_based_answer" :=
            Other (TypeError "LLMService._generate_rule_based_answer() missing 1 required positional argument: 'context_docs'");
          "calculate_confidence" :=
            Other (TypeError "LLMService.calculate_confidence() missing 2 required positional arguments: 'context_docs' and 'distances'") ]} |}.

Record EvaluationService := { llm_service : option pyobject }.

Record EvaluationResult := {
  query : str;
  retrieved_docs : list str;
  ground_truth_docs : list str;
  relevant_retrieved : gset (list N);
  missed_docs : gset (list N);
  precision : Qc;
  recall : Qc;
  f1_score : Qc;
  ai_rating : option json;
  ai_comment : option json;
  ai_relevance_labels : option json }.

Definition QUOTE : list N := [34%N].

(** The lines [f"\n[文档 {i}] {doc}\n"] for [enumerate(docs, i)]. *)
Fixpoint enumerate_docs (i : nat) (docs : list str) : str :=
  match docs with
  | [] => []
  | doc :: rest =>
      [NL] ++ utf8 "[文档 " ++ str_of_nat i ++ utf8 "] " ++ doc ++ [NL]
      ++ enumerate_docs (S i) rest
  end.

Definition _build_evaluation_prompt (query : str)
    (retrieved_docs ground_truth_docs : list str) : str :=
  utf8 "你是一个专业的信息检索评估专家。请评估以下检索结果的质量。" ++ [NL; NL]
  ++ utf8 "**查询问题：**" ++ [NL]
  ++ query ++ [NL; NL]
  ++ utf8 "**检索到的文档（" ++ str_of_nat (length retrieved_docs)
  ++ utf8 " 个）：**" ++ [NL]
  ++ enumerate_docs 1 retrieved_docs
  ++ [NL] ++ utf8 "**真实相关文档（" ++ str_of_nat (length ground_truth_docs)
  ++ utf8 " 个）：**" ++ [NL]
  ++ enumerate_docs 1 ground_truth_docs
  ++ [NL] ++ utf8 "请从以下几个维度进行评估：" ++ [NL; NL]
  ++ utf8 "1. **相关性标注**：对于每个检索到的文档，判断它是否与查询相关（true/false）" ++ [NL]
  ++ utf8 "2. **总体评分**：根据检索质量给出评分（优秀/良好/中等/较差/很差）" ++ [NL]
  ++ utf8 "3. **详细评论**：说明评分理由，指出优点和不足" ++ [NL; NL]
  ++ utf8 "请按以下 JSON 格式输出（只返回 JSON，不要其他内容）：" ++ [NL]
  ++ utf8 "{" ++ [NL]
  ++ utf8 "  " ++ QUOTE ++ utf8 "relevance_labels" ++ QUOTE ++ utf8 ": {" ++ [NL]
  ++ utf8 "    " ++ QUOTE ++ utf8 "文档 1" ++ QUOTE ++ utf8 ": true," ++ [NL]
  ++ utf8 "    " ++ QUOTE ++ utf8 "文档 2" ++ QUOTE ++ utf8 ": false," ++ [NL]
  ++ utf8 "    ..." ++ [NL]
  ++ utf8 "  }," ++ [NL]
  ++ utf8 "  " ++ QUOTE ++ utf8 "rating" ++ QUOTE ++ utf8 ": " ++ QUOTE
  ++ utf8 "优秀" ++ QUOTE ++ utf8 "," ++ [NL]
  ++ utf8 "  " ++ QUOTE ++ utf8 "comment" ++ QUOTE ++ utf8 ": " ++ QUOTE
  ++ utf8 "详细评论内容..." ++ QUOTE ++ [NL]
  ++ utf8 "}" ++ [NL].

(** The text after the first opening brace of [s]. *)
Fixpoint after_open_brace (s : str) : option str :=
  match s with
  | [] => None
  | c :: s' => if (c =? 123)%N then Some s' else after_open_brace s'
  end.

(** Index of the last closing brace of [s]. *)
Fixpoint last_close_brace (s : str) : option nat :=
  match s with
  | [] => None
  | c :: s' =>
      match last_close_brace s' with
      | Some k => Some (S k)
      | None => if (c =? 125)%N then Some 0 else None
      end
  end.

(** [re.search(r'\{.*\}', response, re.DOTALL)] and [.group()] of the match:
    the search succeeds at the first opening brace when a closing brace
    follows it, and the greedy [.*] then runs to the last closing brace; when
    none follows the first opening brace, none follows a later one. *)
Definition search_json_object (response : str) : option str :=
  match after_open_brace response with
  | None => None
  | Some rest =>
      match last_close_brace rest with
      | None => None
      | Some k => Some (123%N :: take (S k) rest)
      end
  end.

(** [data.get(key, default)] on the items of a dictionary. *)
Fixpoint dict_get (members : list (list N * json)) (key : str)
    (default : json) : json :=
  match members with
  | [] => default
  | (k, v) :: rest =>
      if bool_decide (k = key) then v else dict_get rest key default
  end.

(** The sentinel of the failure paths. *)
Definition sentinel (comment : str) : json * json * json :=
  (JString (utf8 "N/A"), JString comment, JObject []).

(** [try: body except Exception as e: handler(e)] *)
Definition try_except {A} (body : exn + A) (handler : exn -> exn + A)
    : exn + A :=
  match body with
  | inr a => inr a
  | inl e => handler e
  end.

Section Audit.

(** [json.loads] *)
Variable json_loads : str -> exn + json.

Definition _parse_ai_response (response : pyvalue)
    : exn + (json * json * json) :=
  try_except
    (match response with
     | VOther type_error => inl type_error
     | VStr text =>
         match search_json_object text with
         | None => inr (sentinel (utf8 "AI 返回格式错误"))
         | Some matched =>
             match json_loads matched with
             | inl e => inl e
             | inr (JObject data) =>
                 let rating := dict_get data (utf8 "rating") (JString (utf8 "N/A")) in
                 let comment := dict_get data (utf8 "comment") (JString []) in
                 let relevance_labels :=
                   dict_get data (utf8 "relevance_labels") (JObject []) in
                 inr (rating, comment, relevance_labels)
             | inr _ =>
                 inl (Exn "AttributeError"
                        (utf8 "object has no attribute 'get'"))
             end
         end
     end)
    (fun e => inr (sentinel (utf8 "解析失败: " ++ exn_message e))).

Definition _ai_evaluate (self : EvaluationService) (query : str)
    (retrieved_docs ground_truth_docs : list str)
    : exn + (json * json * json) :=
  try_except
    (let prompt :=
       _build_evaluation_prompt query retrieved_docs ground_truth_docs in
     match llm_service self with
     | None =>
         inl (Exn "AttributeError"
                (utf8 "'NoneType' object has no attribute '_generate_raw_answer'"))
     | Some llm =>
         match call_method llm "_generate_raw_answer" prompt with
         | inl e => inl e
         | inr response => _parse_ai_response response
         end
     end)
    (fun e => inr (sentinel (utf8 "AI 评估失败: " ++ exn_message e))).

Definition is_some {A} (o : option A) : bool :=
  match o with Some _ => true | None => false end.

Definition evaluate_retrieval (self : EvaluationService) (query : str)
    (retrieved_docs ground_truth_docs : list str) (use_ai_rating : bool)
    : exn + EvaluationResult :=
  let '(precision, recall, f1_score) :=
    Metrics.calculate_metrics retrieved_docs ground_truth_docs in
  let relevant_retrieved : gset (list N) :=
    list_to_set retrieved_docs ∩ list_to_set ground_truth_docs in
  let missed_docs : gset (list N) :=
    list_to_set ground_truth_docs ∖ list_to_set retrieved_docs in
  let result :=
    {| query := query;
       retrieved_docs := retrieved_docs;
       ground_truth_docs := ground_truth_docs;
       relevant_retrieved := relevant_retrieved;
       missed_docs := missed_docs;
       precision := precision;
       recall := recall;
       f1_score := f1_score;
       ai_rating := None;
       ai_comment := None;
       ai_relevance_labels := None |} in
  if use_ai_rating && is_some (llm_service self) then
    match _ai_evaluate self query retrieved_docs ground_truth_docs with
    | inl e => inl e
    | inr (rating, comment, labels) =>
        inr {| query := query;
               retrieved_docs := retrieved_docs;
               ground_truth_docs := ground_truth_docs;
               relevant_retrieved := relevant_retrieved;
               missed_docs := missed_docs;
               precision := precision;
               recall := recall;
               f1_score := f1_score;
               ai_rating := Some rating;
               ai_comment := Some comment;
               ai_relevance_labels := Some labels |}
    end
  else inr result.

End Audit.

End Evaluation.

(** ** Batches of evaluations: api/services/evaluation_service.py *)

Module Batch.

Import Py PyNum Evaluation.
Local Open Scope Qc_scope.

(** A test case: a dictionary in which each of the three keys read by
    [batch_evaluate] may be missing; a value that is there has the type the
    docstring gives it. *)
Record TestCase := {
  case_query : option str;
  case_retrieved_docs : option (list str);
  case_ground_truth_docs : option (list str) }.

(** [case[key]] on a missing key *)
Definition KeyError (key : string) : exn :=
  Exn "KeyError" (utf8 "'" ++ utf8 key ++ utf8 "'").

(** An item of ["detailed_results"]. *)
Record DetailedResult := {
  detail_query : str;
  detail_precision : Qc;
  detail_recall : Qc;
  detail_f1_score : Qc;
  detail_ai_rating : option json;
  detail_ai_comment : option json;
  relevant_count : nat;
  missed_count : nat }.

(** The dictionary that [batch_evaluate] returns. *)
Record BatchReport := {
  total_cases : nat;
  average_precision : Qc;
  average_recall : Qc;
  average_f1_score : Qc;
  detailed_results : list DetailedResult }.

Definition detailed (r : EvaluationResult) : DetailedResult :=
  {| detail_query := query r;
     detail_precision := py_round (precision r) 4;
     detail_recall := py_round (recall r) 4;
     detail_f1_score := py_round (f1_score r) 4;
     detail_ai_rating := ai_rating r;
     detail_ai_comment := ai_comment r;
     relevant_count := size (relevant_retrieved r);
     missed_count := size (missed_docs r) |}.

Section BatchEvaluate.

Variable json_loads : str -> exn + json.

(** The loop over the test cases: the state is
    [(results, total_precision, total_recall, total_f1)]. *)
Fixpoint batch_loop (self : EvaluationService) (use_ai_rating : bool)
    (test_cases : list TestCase)
    (st : list EvaluationResult * Qc * Qc * Qc)
    : exn + (list EvaluationResult * Qc * Qc * Qc) :=
  match test_cases with
  | [] => inr st
  | case :: rest =>
      let '(results, total_precision, total_recall, total_f1) := st in
      match case_query case with
      | None => inl (KeyError "query")
      | Some query =>
          match case_retrieved_docs case with
          | None => inl (KeyError "retrieved_docs")
          | Some retrieved_docs =>
              match case_ground_truth_docs case with
              | None => inl (KeyError "ground_truth_docs")
              | Some ground_truth_docs =>
                  match evaluate_retrieval json_loads self query
                          retrieved_docs ground_truth_docs use_ai_rating with
                  | inl e => inl e
                  | inr result =>
                      batch_loop self use_ai_rating rest
                        (results ++ [result],
                         total_precision + precision result,
                         total_recall + recall result,
                         total_f1 + f1_score result)
                  end
              end
          end
      end
  end.

Definition batch_evaluate (self : EvaluationService)
    (test_cases : list TestCase) (use_ai_rating : bool)
    : exn + BatchReport :=
  match batch_loop self use_ai_rating test_cases ([], 0, 0, 0) with
  | inl e => inl e
  | inr (results, total_precision, total_recall, total_f1) =>
      let count := length test_cases in
      let '(avg_precision, avg_recall, avg_f1) :=
        if (0 <? count)%nat
        then (total_precision / of_nat count, total_recall / of_nat count,
              total_f1 / of_nat count)
        else (0, 0, 0) in
      inr {| total_cases := count;
             average_precision := py_round avg_precision 4;
             average_recall := py_round avg_recall 4;
             average_f1_score := py_round avg_f1 4;
             detailed_results := map detailed results |}
  end.

(** A test case with its three keys, and the result of its evaluation. *)
Definition evaluated (self : EvaluationService) (use_ai_rating : bool)
    (case : TestCase) (result : EvaluationResult) : Prop :=
  exists (q : str) (retrieved ground_truth : list str),
    case = {| case_query := Some q; case_retrieved_docs := Some retrieved;
              case_ground_truth_docs := Some ground_truth |} /\
    evaluate_retrieval json_loads self q retrieved ground_truth use_ai_rating
      = inr result.

End BatchEvaluate.

(** A test case that has its three keys. *)
Definition complete (case : TestCase) : Prop :=
  exists (q : str) (retrieved ground_truth : list str),
    case = {| case_query := Some q; case_retrieved_docs := Some retrieved;
              case_ground_truth_docs := Some ground_truth |}.

(** [sum(xs)] *)
Definition total (xs : list Qc) : Qc := foldr Qcplus 0 xs.

End Batch.

(** ** The formulas of the specification

    Each definition of this module follows the words of the specification,
    to be compared with the function of the code. *)

Module Spec.

Import Py PyNum.
Local Open Scope Qc_scope.

Definition clamp (x lo hi : Qc) : Qc :=
  if decide (x < lo) then lo else if decide (hi < x) then hi else x.

(** [minDistance], the least distance; [0] stands for the absent minimum of
    an empty list, which no statement uses. *)
Definition min_distance (distances : list Qc) : Qc :=
  default 0 (py_min_list distances).

Definition base (distances : list Qc) : Qc :=
  clamp (1 - min_distance distances / 2) 0 1.

(** Flat bonus when at least two distances are strictly below 0.5. *)
Definition bonus (distances : list Qc) : Qc :=
  let high := length (List.filter (fun d => bool_decide (d < Q2Qc (1 # 2)))
                        distances) in
  if (2 <=? high)%nat then Q2Qc (1 # 10) else 0.

Definition confidence (distances : list Qc) : Qc :=
  py_round (py_min 1 (base distances + bonus distances)) 2.

(** The hits kept by the filter, in the order of the input: those with
    [1 - distance >= similarityThreshold]. *)
Definition kept {A B} (similarityThreshold : Qc) (hits : list (A * B * Qc))
    : list (A * B * Qc) :=
  List.filter (fun hit => bool_decide (similarityThreshold ≤ 1 - hit.2)) hits.

(** The three lists the filtering loop keeps, read off a list of hits. *)
Definition unzip_hits {A B} (hits : list (A * B * Qc))
    : list A * list B * list Qc :=
  (map (fun h => h.1.1) hits, map (fun h => h.1.2) hits,
   map (fun h => h.2) hits).

(** The first hit of every source document, in first-seen order: a hit is
    kept when it names a document that no hit in front of it names.
    [earlier] are the documents named by the hits already passed. *)
Fixpoint first_per_id (earlier : list str) (metas : list Medical.metadata)
    : list Medical.metadata :=
  match metas with
  | [] => []
  | meta :: rest =>
      let doc_id := Medical.doc_id_of meta in
      (if decide (doc_id <> [] /\ doc_id ∉ earlier) then [meta] else [])
      ++ first_per_id (earlier ++ [doc_id]) rest
  end.

Definition precision (retrieved ground_truth : list str) : Qc :=
  match retrieved with
  | [] => 0
  | _ => of_nat (size (Metrics.relevant_set retrieved ground_truth))
         / of_nat (length retrieved)
  end.

Definition recall (retrieved ground_truth : list str) : Qc :=
  match ground_truth with
  | [] => 0
  | _ => of_nat (size (Metrics.relevant_set retrieved ground_truth))
         / of_nat (length ground_truth)
  end.

Definition f1 (p r : Qc) : Qc :=
  if decide (p + r = 0) then 0 else 2 * p * r / (p + r).

End Spec.

(** ** Inputs of the scenarios *)

Module Inputs.

Import Py.

(** Scenario A of the specification. *)
Definition scenario_A : str := utf8 "高血压患者应该控制钠盐摄入,每日不超过5g".

(** Two sentences of 500 characters each, terminator included. *)
Definition two_full_sentences : str :=
  repeat 97%N 499 ++ [12290%N] ++ repeat 98%N 499 ++ [12290%N].

(** A paragraph of 501 characters with no sentence terminator. *)
Definition unterminated_paragraph : str := repeat 97%N 501.

(** A terminated sentence followed by 600 characters with no terminator. *)
Definition unterminated_tail : str :=
  repeat 97%N 29 ++ [12290%N] ++ repeat 98%N 600.

(** Thirty letters, a blank line, and a numbered heading of 33 characters. *)
Definition text_then_heading : str :=
  repeat 97%N 30 ++ [NL; NL] ++ utf8 "1. " ++ repeat 98%N 30.

(** A letter, twenty-five spaces and a letter. *)
Definition spaced_letters : str := [97%N] ++ repeat SP 25 ++ [98%N].

End Inputs.

(** Scenarios C, D and E of the specification, and a retrieved list with a
    duplicate entry. *)
Module MetricInputs.

Import Py.

Definition retrieved_C : list str := [utf8 "d1"; utf8 "d2"; utf8 "d3"].
Definition ground_truth_C : list str := [utf8 "d2"; utf8 "d4"].
Definition ground_truth_D : list str := [utf8 "a"].
Definition retrieved_twice : list str := [utf8 "d1"; utf8 "d1"].
Definition ground_truth_once : list str := [utf8 "d1"].
Definition distances_E : list Qc :=
  [Q2Qc (1 # 10); Q2Qc (2 # 10); Q2Qc (9 # 10)].

End MetricInputs.

(** Three hits in the manner of add_vectors.py: two paragraphs of the
    document doc_001 and one of doc_002, at distances 0.1, 0.2 and 0.9. *)
Module ChatInputs.

Import Py Medical.

Definition meta_of (doc_id dept : string) : metadata :=
  {[ "category" := utf8 dept; "department" := utf8 dept;
     "id" := utf8 doc_id ]}.

Definition results : QueryResult :=
  {| ids := [[utf8 "vec_001"; utf8 "vec_002"; utf8 "vec_003"]];
     documents := [[utf8 "salt"; utf8 "potassium"; utf8 "sugar"]];
     metadatas := [[meta_of "doc_001" "cardiology";
                    meta_of "doc_001" "cardiology";
                    meta_of "doc_002" "endocrinology"]];
     distances := [MetricInputs.distances_E] |}.

Definition request : ChatRequest :=
  {| query := utf8 "diet"; patient_profile := None; options := None |}.

Definition search (q : str) (n : nat) (w : option metadata)
    : exn + option QueryResult := inr (Some results).

Definition encode_single (q : str) : exn + unit := inr ().

Definition generate_answer (q : str) (docs : list str)
    (p : option PatientProfile) : str := concat docs.

(** A search whose three hits are all farther than the threshold allows. *)
Definition far_results : QueryResult :=
  {| ids := ids results;
     documents := documents results;
     metadatas := metadatas results;
     distances := [[Q2Qc (9 # 10); Q2Qc (95 # 100); Q2Qc (1 # 1)]] |}.

Definition far_search (q : str) (n : nat) (w : option metadata)
    : exn + option QueryResult := inr (Some far_results).

Definition empty_search (q : str) (n : nat) (w : option metadata)
    : exn + option QueryResult := inr None.

(** The response of the route to [request] under [search], for the
    threshold 0.2. *)
Definition response : ChatResponse :=
  {| answer := utf8 "saltpotassium";
     references := [reference_of (meta_of "doc_001" "cardiology")];
     confidence :=
       LLMService.calculate_confidence (utf8 "diet")
         [utf8 "salt"; utf8 "potassium"] [Q2Qc (1 # 10); Q2Qc (2 # 10)];
     similar_queries := [] |}.

End ChatInputs.

(** Text generators for Scenario F of the specification: one that raises,
    one that answers without any JSON, one whose JSON is malformed and one
    that returns no string; and a stand-in for [json.loads] that rejects its
    argument, as [json.loads] rejects the malformed object. *)
Module AuditInputs.

Import Py Evaluation.

Definition generator (outcome : exn + pyvalue) : pyobject :=
  {| class_name := "Generator";
     attributes := {[ "_generate_raw_answer" := Method1 (fun _ => outcome) ]} |}.

Definition timeout : exn := Exn "TimeoutError" (utf8 "timed out").

Definition not_a_string : exn :=
  Exn "TypeError" (utf8 "expected string or bytes-like object, got 'NoneType'").

Definition decode_error : exn :=
  Exn "JSONDecodeError"
    (utf8 "Expecting property name enclosed in double quotes: line 1 column 2 (char 1)").

Definition raising : EvaluationService :=
  {| llm_service := Some (generator (inl timeout)) |}.

Definition chatty : EvaluationService :=
  {| llm_service := Some (generator (inr (VStr (utf8 "no opinion")))) |}.

Definition malformed : EvaluationService :=
  {| llm_service := Some (generator (inr (VStr (utf8 "{rating: good}")))) |}.

Definition silent : EvaluationService :=
  {| llm_service := Some (generator (inr (VOther not_a_string))) |}.

Definition rejecting_loads (text : str) : exn + json := inl decode_error.

End AuditInputs.

(** ** Predicates used to state the properties *)

(** [s] contains two consecutive newlines, the separator of
    [re.split(r'\n{2,}', s)]. *)
Fixpoint has_paragraph_break (s : Py.str) : bool :=
  match s with
  | [] => false
  | c :: s' =>
      ((c =? Py.NL)%N && TextSplitter.starts_with_newline s')
      || has_paragraph_break s'
  end.

(** The characters of [s] that are not whitespace, in order: what
    [strip] and the joining spaces of the chunker leave untouched. *)
Definition nonspace (s : Py.str) : Py.str :=
  List.filter (fun c => negb (Py.isspace c)) s.

(** [s] up to and including its last sentence terminator; empty when [s]
    has none. *)
Fixpoint terminated_prefix (s : Py.str) : Py.str :=
  match s with
  | [] => []
  | c :: s' =>
      match terminated_prefix s' with
      | [] => if TextSplitter.is_terminator c then [c] else []
      | p => c :: p
      end
  end.

(** [p] is a suffix of [s]. *)
Definition is_suffix (p s : Py.str) : Prop := exists front, s = front ++ p.

(** The sentences of [_split_long_paragraph] read off the result of
    [re.split]: each text with the terminator that follows it, stripped; the
    last piece, which no terminator follows, is not read. *)
Fixpoint sentence_pairs (pieces : list Py.str) : list Py.str :=
  match pieces with
  | text :: terminator :: rest =>
      Py.strip (text ++ terminator) :: sentence_pairs rest
  | _ => []
  end.

(** Every character of [out] is a character of [inp] or a space or a
    newline, and [out] is not longer than [inp]. *)
Definition cleaned_from (out inp : Py.str) : Prop :=
  length out <= length inp /\
  Forall (fun c => c ∈ inp \/ c = Py.SP \/ c = Py.NL) out.

(** ** Inputs of the failure paths of the route *)

Module FailureInputs.

Import Py Medical.

(** A search that raises. *)
Definition failing_search (q : str) (n : nat) (w : option metadata)
    : exn + option QueryResult :=
  inl (Exn "RuntimeError" (utf8 "collection is gone")).

(** An encoder that raises. *)
Definition failing_encoder (q : str) : exn + unit :=
  inl (Exn "RuntimeError" (utf8 "model not loaded")).

(** The three hits of [ChatInputs] with two ids only. *)
Definition short_results : QueryResult :=
  {| ids := [[utf8 "vec_001"; utf8 "vec_002"]];
     documents := documents ChatInputs.results;
     metadatas := metadatas ChatInputs.results;
     distances := distances ChatInputs.results |}.

Definition short_search (q : str) (n : nat) (w : option metadata)
    : exn + option QueryResult := inr (Some short_results).

End FailureInputs.

(** ** Inputs of the batches *)

Module BatchInputs.

Import Py Evaluation Batch.

Definition complete : TestCase :=
  {| case_query := Some (utf8 "diet");
     case_retrieved_docs := Some [utf8 "a"; utf8 "b"];
     case_ground_truth_docs := Some [utf8 "b"; utf8 "c"; utf8 "d"] |}.

Definition no_ground_truth : TestCase :=
  {| case_query := Some (utf8 "salt");
     case_retrieved_docs := Some [utf8 "a"];
     case_ground_truth_docs := None |}.

Definition no_llm : EvaluationService := {| llm_service := None |}.

End BatchInputs.

(** * Properties *)

Import TextSplitter.

(** ** Python strings *)

Section StripFacts.

(** The code points of Scenario A, as [utf8] decodes them. *)
Lemma scenario_A_code_points :
  Inputs.scenario_A =
  [39640; 34880; 21387; 24739; 32773; 24212; 35813; 25511; 21046; 38048;
   30416; 25668; 20837; 44; 27599; 26085; 19981; 36229; 36807; 53; 103]%N.
Proof. reflexivity. Qed.

Lemma lstrip_length (s : str) : length (lstrip s) <= length s.
Proof.
  induction s as [|c s IH]; simpl; [lia|].
  destruct (isspace c); simpl; lia.
Qed.

Lemma rstrip_length (s : str) : length (rstrip s) <= length s.
Proof.
  induction s as [|c s IH]; simpl; [lia|].
  destruct (rstrip s); [destruct (isspace c)|]; simpl in *; lia.
Qed.

Lemma strip_length (s : str) : length (strip s) <= length s.
Proof.
  unfold strip. pose proof (rstrip_length (lstrip s)).
  pose proof (lstrip_length s). lia.
Qed.

Lemma rstrip_idemp (s : str) : rstrip (rstrip s) = rstrip s.
Proof.
  induction s as [|c s IH]; simpl; [done|].
  destruct (rstrip s) as [|d r] eqn:E.
  - destruct (isspace c) eqn:Ec; simpl; [done|]. by rewrite Ec.
  - simpl in *. rewrite IH. done.
Qed.

Lemma rstrip_cons_keep (c : N) (s : str) :
  isspace c = false -> rstrip (c :: s) = c :: rstrip s.
Proof. intros Hc. simpl. rewrite Hc. by destruct (rstrip s). Qed.

Lemma lstrip_head (s : str) :
  lstrip s = [] \/ exists c r, lstrip s = c :: r /\ isspace c = false.
Proof.
  induction s as [|c s IH]; simpl; [by left|].
  destruct (isspace c) eqn:Ec; [done|]. right. by exists c, s.
Qed.

Lemma strip_idemp (s : str) : strip (strip s) = strip s.
Proof.
  unfold strip. destruct (lstrip_head s) as [-> | (c & r & -> & Hc)]; [done|].
  rewrite (rstrip_cons_keep c r Hc). simpl lstrip. rewrite Hc.
  rewrite (rstrip_cons_keep c _ Hc). by rewrite rstrip_idemp.
Qed.

Lemma lstrip_all_space (s : str) : forallb isspace s = true -> lstrip s = [].
Proof.
  induction s as [|c s IH]; simpl; [done|].
  intros [Hc Hs]%andb_true_iff. rewrite Hc. auto.
Qed.

Lemma strip_all_space (s : str) : forallb isspace s = true -> strip s = [].
Proof. intros H. unfold strip. by rewrite lstrip_all_space. Qed.

End StripFacts.

(** ** The chunker *)

Section ChunkBounds.

Lemma slice_length (text : str) (i m : nat) : length (slice text i m) <= m.
Proof. unfold slice. rewrite length_take. lia. Qed.

Lemma force_split_bound (text : str) (m : nat) (l : list str) :
  _force_split text m = Some l -> Forall (fun c => length c <= m) l.
Proof.
  unfold _force_split. destruct (m =? 0); [done|].
  intros [= <-]. apply Forall_forall. intros c Hc.
  apply list_elem_of_In, filter_In in Hc as [Hc _].
  apply in_map_iff in Hc as (i & <- & _). apply slice_length.
Qed.

Lemma force_split_total (text : str) (m : nat) :
  0 < m -> is_Some (_force_split text m).
Proof.
  intros Hm. unfold _force_split.
  destruct (Nat.eqb_spec m 0); [lia|]. eauto.
Qed.

Lemma flushed_bound (size : nat) (current : str) :
  length current <= size ->
  Forall (fun c => length c <= size)
    (if nonempty current then [strip current] else []).
Proof.
  intros H. destruct (nonempty current); [|constructor].
  constructor; [|constructor]. pose proof (strip_length current). lia.
Qed.

Lemma pack_sentences_bound (size : nat) (sentences : list str) :
  forall (current : str) (l : list str),
    length current <= size ->
    pack_sentences size current sentences = Some l ->
    Forall (fun c => length c <= size) l.
Proof.
  induction sentences as [|sentence rest IH]; intros current l Hcur; simpl.
  - intros [= <-]. by apply flushed_bound.
  - destruct (nonempty sentence); simpl; [|by apply IH].
    destruct (Nat.leb_spec (length current + length sentence) size) as [Hfit|Hfit].
    { apply IH. rewrite length_app. lia. }
    destruct (Nat.ltb_spec size (length sentence)) as [Hlong|Hshort].
    + intros (sub & Hsub & (later & Hlater & [= <-])%bind_Some)%bind_Some.
      rewrite !Forall_app. split_and!.
      * by apply flushed_bound.
      * by eapply force_split_bound.
      * eapply IH; [|done]. simpl. lia.
    + intros (later & Hlater & [= <-])%bind_Some.
      rewrite Forall_app. split; [by apply flushed_bound|].
      eapply IH; [|done]. lia.
Qed.

Lemma pack_sentences_total (size : nat) (sentences : list str) :
  0 < size -> forall current : str,
    is_Some (pack_sentences size current sentences).
Proof.
  intros Hsize. induction sentences as [|sentence rest IH]; intros current; simpl.
  - eauto.
  - destruct (nonempty sentence); simpl; [|done].
    destruct (length current + length sentence <=? size); [done|].
    destruct (size <? length sentence).
    + destruct (force_split_total sentence size Hsize) as [sub ->].
      destruct (IH []) as [later ->]. simpl. eauto.
    + destruct (IH sentence) as [later ->]. simpl. eauto.
Qed.

Lemma last_chars_length (overlap : nat) (chunk : str) :
  length (last_chars overlap chunk) <= overlap.
Proof.
  unfold last_chars. destruct (Nat.ltb_spec overlap (length chunk)).
  - rewrite length_drop. lia.
  - lia.
Qed.

Lemma overlap_loop_bound (size overlap : nat) (chunks : list str) :
  forall prev : str,
    Forall (fun c => length c <= size) chunks ->
    Forall (fun c => length c <= size + overlap + 1)
      (overlap_loop overlap prev chunks).
Proof.
  induction chunks as [|c cs IH]; intros prev Hall; simpl; [constructor|].
  inversion Hall as [|? ? Hc Hcs]; subst. constructor; [|by apply IH].
  rewrite length_app. simpl. pose proof (last_chars_length overlap prev). lia.
Qed.

Lemma add_overlap_bound (size overlap : nat) (chunks : list str) :
  Forall (fun c => length c <= size) chunks ->
  Forall (fun c => length c <= size + overlap + 1) (_add_overlap chunks overlap).
Proof.
  intros Hall. unfold _add_overlap.
  assert (Hweak : Forall (fun c : str => length c <= size + overlap + 1) chunks).
  { eapply Forall_impl; [exact Hall|]. simpl. intros; lia. }
  destruct ((overlap <=? 0) || (length chunks <=? 1)); [done|].
  destruct chunks as [|c0 cs]; [constructor|].
  inversion Hall; subst. constructor; [lia|]. by apply overlap_loop_bound.
Qed.

Lemma split_long_paragraph_bound (self : t) (paragraph : str) (l : list str) :
  _split_long_paragraph self paragraph = Some l ->
  Forall (fun c => length c <= chunk_size self + chunk_overlap self + 1) l.
Proof.
  unfold _split_long_paragraph.
  intros (chunks & Hpack & [= <-])%bind_Some.
  apply pack_sentences_bound in Hpack; [|simpl; lia].
  destruct (0 <? chunk_overlap self); [by apply add_overlap_bound|].
  eapply Forall_impl; [exact Hpack|]. simpl. intros; lia.
Qed.

Lemma chunk_paragraphs_bound (self : t) (merged : list str) :
  forall l : list str,
    chunk_paragraphs self merged = Some l ->
    Forall (fun c => length c <= chunk_size self + chunk_overlap self + 1) l.
Proof.
  induction merged as [|paragraph rest IH]; intros l; simpl.
  - intros [= <-]. constructor.
  - intros (here & Hhere & (later & Hlater & [= <-])%bind_Some)%bind_Some.
    rewrite Forall_app. split; [|by apply IH].
    destruct (Nat.leb_spec (length paragraph) (chunk_size self)).
    + injection Hhere as <-. constructor; [|constructor].
      pose proof (strip_length paragraph). lia.
    + by eapply split_long_paragraph_bound.
Qed.

Lemma chunk_paragraphs_total (self : t) (merged : list str) :
  0 < chunk_size self -> is_Some (chunk_paragraphs self merged).
Proof.
  intros Hsize. induction merged as [|paragraph rest [later IH]]; simpl; [eauto|].
  rewrite IH. destruct (length paragraph <=? chunk_size self); simpl; [eauto|].
  unfold _split_long_paragraph.
  destruct (pack_sentences_total (chunk_size self)
              (combine_sentences (split_sentences paragraph)) Hsize [])
    as [chunks ->]. simpl. eauto.
Qed.

End ChunkBounds.

Section SplitText.

Import Inputs.

Lemma keep_chunk_spec (c : str) :
  keep_chunk c = true -> c <> [] /\ 20 < length (strip c).
Proof.
  unfold keep_chunk. intros [Hne Hlen]%andb_true_iff. split.
  - by destruct c.
  - by apply Nat.ltb_lt.
Qed.

(** C1, as the code has it. For every configuration and every text,
    [split_text] returns (it raises only for a zero [chunk_size]), and every
    chunk it returns is a non-empty string whose trimmed length is strictly
    greater than 20 and whose length is at most
    [chunk_size + chunk_overlap + 1]: the overlap is joined to the chunk by
    one space. *)
Theorem split_text_chunk_invariant (self : t) (text : str) :
  (0 < chunk_size self -> is_Some (split_text self text)) /\
  (forall chunks : list str,
     split_text self text = Some chunks ->
     Forall (fun c : str =>
               c <> [] /\ 20 < length (strip c) /\
               length c <= chunk_size self + chunk_overlap self + 1)
            chunks).
Proof.
  unfold split_text. split.
  - intros Hsize. destruct (nonempty text); simpl; [|eauto].
    destruct (chunk_paragraphs_total self
      (_merge_short_paragraphs
         (split_paragraphs false (_preprocess_text text)) 50) Hsize)
      as [final ->].
    simpl. eauto.
  - intros chunks. destruct (nonempty text); simpl.
    + intros (final & Hfinal & [= <-])%bind_Some.
      apply chunk_paragraphs_bound in Hfinal.
      apply Forall_forall. intros c Hc.
      apply list_elem_of_In, filter_In in Hc as [Hc Hkeep].
      destruct (keep_chunk_spec c Hkeep) as [Hne Hlen].
      split_and!; [done..|].
      rewrite Forall_forall in Hfinal. apply Hfinal. by apply list_elem_of_In.
    + intros [= <-]. constructor.
Qed.

Lemma split_text_two_full_sentences :
  split_text get_text_splitter two_full_sentences =
  Some [repeat 97%N 499 ++ [12290%N];
        repeat 97%N 49 ++ [12290%N; SP] ++ repeat 98%N 499 ++ [12290%N]].
Proof. vm_compute. reflexivity. Qed.

(** Two sentences of exactly [chunk_size] characters: both chunks pass the
    final filter and the invariant holds of them. *)
Lemma split_text_chunk_invariant_witness :
  is_Some (split_text get_text_splitter two_full_sentences) /\
  Forall (fun c : str =>
            c <> [] /\ 20 < length (strip c) /\
            length c <= chunk_size get_text_splitter
                        + chunk_overlap get_text_splitter + 1)
         [repeat 97%N 499 ++ [12290%N];
          repeat 97%N 49 ++ [12290%N; SP] ++ repeat 98%N 499 ++ [12290%N]].
Proof.
  destruct (split_text_chunk_invariant get_text_splitter two_full_sentences)
    as [Hret Hinv].
  split.
  - apply Hret. simpl. lia.
  - apply Hinv. vm_compute. reflexivity.
Defined.

(** C1, as the specification states it, fails: the second chunk of two full
    sentences has 551 characters, one more than
    [chunk_size + chunk_overlap]. *)
Lemma split_text_chunk_bound_counterexample :
  exists c1 c2 : str,
    split_text get_text_splitter two_full_sentences = Some [c1; c2] /\
    length c2 = 551 /\
    ~ (length c2 <= chunk_size get_text_splitter
                    + chunk_overlap get_text_splitter).
Proof.
  eexists _, _. split; [exact split_text_two_full_sentences|].
  split; [vm_compute; reflexivity|]. vm_compute. lia.
Qed.

End SplitText.

Section LongParagraphs.

Import Inputs.

Lemma split_sentences_no_terminator (s : str) :
  forallb (fun c => negb (is_terminator c)) s = true ->
  split_sentences s = [s].
Proof.
  induction s as [|c s IH]; simpl; [done|].
  intros [Hc Hs]%andb_true_iff. apply negb_true_iff in Hc.
  rewrite Hc, (IH Hs). done.
Qed.

(** A paragraph with no sentence terminator yields no chunk at all,
    whatever its length: [range(0, len(sentences) - 1, 2)] is empty when
    [sentences] has one element. *)
Lemma split_long_paragraph_no_terminator (self : t) (paragraph : str) :
  forallb (fun c => negb (is_terminator c)) paragraph = true ->
  _split_long_paragraph self paragraph = Some [].
Proof.
  intros H. unfold _split_long_paragraph.
  rewrite (split_sentences_no_terminator _ H).
  unfold combine_sentences.
  change (py_range 0 (length [paragraph] - 1) 2) with (@nil nat).
  cbn [map pack_sentences nonempty mbind option_bind].
  unfold _add_overlap. cbn [length Nat.leb]. rewrite orb_true_r.
  by destruct (0 <? chunk_overlap self).
Qed.

(** C3, at the failing input. A paragraph of 501 letters with no sentence
    terminator is longer than [chunk_size], so it goes to
    [_split_long_paragraph], which returns no chunk: the whole paragraph is
    lost before the final filter, and [split_text] returns the empty list.
    Likewise the 600 characters that follow the last terminator of
    [unterminated_tail] are dropped. *)
Theorem split_long_paragraph_loses_text :
  _split_long_paragraph get_text_splitter unterminated_paragraph = Some [] /\
  split_text get_text_splitter unterminated_paragraph = Some [] /\
  _split_long_paragraph get_text_splitter unterminated_tail =
    Some [repeat 97%N 29 ++ [12290%N]].
Proof. split_and!; vm_compute; reflexivity. Qed.

End LongParagraphs.

Section EdgeCases.

Import Inputs.

Lemma isspace_SP : isspace SP = true.
Proof. reflexivity. Qed.

Lemma isspace_NL : isspace NL = true.
Proof. reflexivity. Qed.

Lemma sub_blanks_all_space (s : str) :
  forall inrun : bool,
    forallb isspace s = true -> forallb isspace (sub_blanks inrun s) = true.
Proof.
  induction s as [|c s IH]; intros inrun; simpl; [done|].
  intros [Hc Hs]%andb_true_iff.
  destruct ((c =? SP)%N || (c =? TAB)%N); [destruct inrun|];
    cbn [forallb]; rewrite ?Hc, ?isspace_SP; cbn [andb]; auto.
Qed.

Lemma sub_newlines_all_space (s : str) :
  forall k : nat,
    forallb isspace s = true -> forallb isspace (sub_newlines k s) = true.
Proof.
  induction s as [|c s IH]; intros k; simpl; [done|].
  intros [Hc Hs]%andb_true_iff.
  destruct (c =? NL)%N; [destruct (k <? 2)|];
    cbn [forallb]; rewrite ?Hc, ?isspace_NL; cbn [andb]; auto.
Qed.

Lemma remove_cr_all_space (s : str) :
  forallb isspace s = true -> forallb isspace (remove_cr s) = true.
Proof.
  unfold remove_cr. rewrite !forallb_forall. intros H c Hc.
  apply filter_In in Hc as [Hc _]. auto.
Qed.

Lemma sub_page_numbers_all_space (s : str) :
  forall skip : nat,
    forallb isspace s = true ->
    forallb isspace (sub_page_numbers skip s) = true.
Proof.
  induction s as [|c s IH]; intros skip; [done|].
  intros [Hc Hs]%andb_true_iff.
  cbn [sub_page_numbers]. destruct skip as [|k]; [|auto].
  destruct (match_page_number (c :: s));
    cbn [forallb]; rewrite ?Hc, ?isspace_NL; cbn [andb]; auto.
Qed.

Lemma preprocess_all_space (text : str) :
  forallb isspace text = true -> _preprocess_text text = [].
Proof.
  intros H. unfold _preprocess_text. apply strip_all_space.
  by apply sub_page_numbers_all_space, remove_cr_all_space,
    sub_newlines_all_space, sub_blanks_all_space.
Qed.

Lemma preprocess_stripped (text : str) :
  strip (_preprocess_text text) = _preprocess_text text.
Proof. unfold _preprocess_text. apply strip_idemp. Qed.

Lemma split_paragraphs_no_break (s : str) :
  has_paragraph_break s = false -> split_paragraphs false s = [s].
Proof.
  induction s as [|c s IH]; simpl; [done|].
  intros [Hc Hs]%orb_false_iff. rewrite Hc, (IH Hs). done.
Qed.

Lemma split_text_empty (self : t) : split_text self [] = Some [].
Proof. reflexivity. Qed.

Lemma split_text_all_space (self : t) (text : str) :
  forallb isspace text = true -> split_text self text = Some [].
Proof.
  intros H. unfold split_text. destruct (nonempty text); [|done]. simpl.
  rewrite (preprocess_all_space text H). reflexivity.
Qed.

Lemma split_text_single_paragraph (self : t) (text : str) :
  has_paragraph_break (_preprocess_text text) = false ->
  20 < length (_preprocess_text text) <= chunk_size self ->
  split_text self text = Some [_preprocess_text text].
Proof.
  intros Hbreak [Hmin Hmax]. unfold split_text.
  destruct text as [|c text]; [simpl in Hmin; lia|].
  cbn [nonempty negb].
  set (cleaned := _preprocess_text (c :: text)) in *.
  rewrite (split_paragraphs_no_break cleaned Hbreak).
  assert (Hstrip : strip cleaned = cleaned) by apply preprocess_stripped.
  assert (Hne : nonempty cleaned = true).
  { destruct cleaned; [simpl in Hmin; lia|done]. }
  cbn [_merge_short_paragraphs merge_loop]. rewrite Hstrip.
  unfold flush. rewrite Hne. cbn [chunk_paragraphs].
  destruct (Nat.leb_spec (length cleaned) (chunk_size self)); [|lia].
  simpl. rewrite Hstrip. unfold keep_chunk. rewrite Hstrip, Hne.
  destruct (Nat.ltb_spec 20 (length cleaned)); [done|lia].
Qed.

(** C8, as the code has it. An empty or whitespace-only text gives no
    chunk. A text whose normalized form ([_preprocess_text]) has no blank
    line, more than 20 characters and at most [chunk_size] of them gives
    exactly one chunk, the normalized text. Scenario A, a text of 21
    characters, gives itself as the only chunk. *)
Theorem split_text_edge_cases (self : t) :
  split_text self [] = Some [] /\
  (forall text : str,
     forallb isspace text = true -> split_text self text = Some []) /\
  (forall text : str,
     has_paragraph_break (_preprocess_text text) = false ->
     20 < length (_preprocess_text text) <= chunk_size self ->
     split_text self text = Some [_preprocess_text text]) /\
  length scenario_A = 21 /\
  split_text get_text_splitter scenario_A = Some [scenario_A].
Proof.
  split_and!.
  - apply split_text_empty.
  - apply split_text_all_space.
  - apply split_text_single_paragraph.
  - reflexivity.
  - vm_compute. reflexivity.
Qed.

(** The hypotheses of [split_text_edge_cases] at three spaces and a tab, and
    at Scenario A. *)
Lemma split_text_edge_cases_witness :
  split_text get_text_splitter [SP; SP; SP; TAB] = Some [] /\
  split_text get_text_splitter scenario_A = Some [_preprocess_text scenario_A].
Proof.
  destruct (split_text_edge_cases get_text_splitter)
    as (_ & Hspace & Hone & _ & _).
  split.
  - apply Hspace. reflexivity.
  - apply Hone.
    + vm_compute. reflexivity.
    + vm_compute. lia.
Defined.

(** C8, as the specification states it, fails: a text of 65 characters,
    itself normalized, with a blank line in front of a numbered heading
    gives two chunks; and a text of 27 characters whose normalized form has
    3 gives none. *)
Lemma split_text_single_chunk_counterexample :
  (20 < length text_then_heading <= chunk_size get_text_splitter /\
   _preprocess_text text_then_heading = text_then_heading /\
   split_text get_text_splitter text_then_heading =
     Some [repeat 97%N 30; utf8 "1. " ++ repeat 98%N 30] /\
   split_text get_text_splitter text_then_heading <>
     Some [_preprocess_text text_then_heading]) /\
  (20 < length spaced_letters <= chunk_size get_text_splitter /\
   _preprocess_text spaced_letters = [97%N; SP; 98%N] /\
   split_text get_text_splitter spaced_letters = Some [] /\
   split_text get_text_splitter spaced_letters <>
     Some [_preprocess_text spaced_letters]).
Proof.
  split; split_and!; try (vm_compute; reflexivity); try (vm_compute; lia);
    vm_compute; discriminate.
Qed.

End EdgeCases.

(** ** Arithmetic of the scorer and of the metrics *)

Section Arithmetic.

Import PyNum.
Local Open Scope Qc_scope.

(** Goals over [Qc] are moved to [Q], where [lra] and [nra] apply. *)
Ltac qc2q :=
  unfold Qcle, Qclt, Qcminus, Qcdiv, Qcplus, Qcopp, Qcmult, Qcinv in *;
  cbn [this Q2Qc] in *;
  rewrite ?Qred_correct in *;
  change (/ (1 + 1))%Q with (1 # 2)%Q in *;
  change (1 + 1)%Q with (2 # 1)%Q in *.

Section Confidence.

Lemma py_min_nonneg (a b : Qc) : 0 ≤ a -> 0 ≤ b -> 0 ≤ py_min a b.
Proof. intros Ha Hb. unfold py_min. by destruct (decide (b < a)). Qed.

Lemma fold_py_min_nonneg (ds : list Qc) :
  forall d : Qc, 0 ≤ d -> Forall (fun x => 0 ≤ x) ds -> 0 ≤ fold_left py_min ds d.
Proof.
  induction ds as [|e ds IH]; intros d Hd Hall; simpl; [done|].
  inversion Hall; subst. apply IH; [by apply py_min_nonneg|done].
Qed.

Lemma clamp_unit_is_max (x : Qc) : x ≤ 1 -> Spec.clamp x 0 1 = py_max 0 x.
Proof.
  intros Hx. unfold Spec.clamp, py_max.
  destruct (decide (x < 0)) as [Hneg|Hnn], (decide (0 < x)) as [Hpos|Hnp];
    try done.
  - exfalso. qc2q. lra.
  - destruct (decide (1 < x)) as [Hbig|_]; [exfalso; qc2q; lra|done].
  - destruct (decide (1 < x)) as [Hbig|_]; [exfalso; qc2q; lra|].
    apply Qc_is_canon. qc2q. lra.
Qed.

Lemma py_max_le_1 (x : Qc) : x ≤ 1 -> py_max 0 x ≤ 1.
Proof.
  intros Hx. unfold py_max. destruct (decide (0 < x)); [done|]. qc2q. lra.
Qed.

Lemma py_min_1_id (s : Qc) : s ≤ 1 -> py_min 1 s = s.
Proof.
  intros Hs. unfold py_min. destruct (decide (s < 1)); [done|].
  apply Qc_is_canon. qc2q. lra.
Qed.

Lemma half_le_1 (m : Qc) : 0 ≤ m -> 1 - m / 2 ≤ 1.
Proof. intros H. qc2q. lra. Qed.

Lemma calculate_confidence_refines (query : str) (context_docs : list str)
    (distances : list Qc) :
  distances <> [] ->
  Forall (fun d => 0 ≤ d) distances ->
  LLMService.calculate_confidence query context_docs distances =
  Spec.confidence distances.
Proof.
  intros Hne Hall. destruct distances as [|d ds]; [done|].
  unfold LLMService.calculate_confidence, Spec.confidence, Spec.base,
    Spec.bonus, Spec.min_distance.
  cbn [py_min_list default].
  set (m := fold_left py_min ds d).
  assert (Hm : 0 ≤ m).
  { inversion Hall; subst. by apply fold_py_min_nonneg. }
  pose proof (half_le_1 m Hm) as Hx.
  change (id m) with m. rewrite (clamp_unit_is_max _ Hx).
  destruct (2 <=? _)%nat; [done|].
  rewrite Qcplus_0_r, py_min_1_id; [done|]. by apply py_max_le_1.
Qed.

(** C2. For every non-empty list of distances, each non-negative as the
    distances of the hits are, [calculate_confidence] returns
    [round(min(1.0, base + bonus), 2)] with
    [base = clamp(1 - minDistance / 2, 0, 1)] and [bonus = 0.1] when at
    least two distances are strictly below 0.5, [0] otherwise; and the
    distances 0.1, 0.2, 0.9 give the confidence 1.0. *)
Theorem calculate_confidence_formula :
  (forall (query : str) (context_docs : list str) (distances : list Qc),
     distances <> [] ->
     Forall (fun d => 0 ≤ d) distances ->
     LLMService.calculate_confidence query context_docs distances =
     Spec.confidence distances) /\
  (forall (query : str) (context_docs : list str),
     LLMService.calculate_confidence query context_docs
       MetricInputs.distances_E = 1).
Proof.
  split.
  - apply calculate_confidence_refines.
  - intros query context_docs. apply Qc_is_canon. vm_compute. reflexivity.
Qed.

(** The hypotheses of [calculate_confidence_formula] at Scenario E. *)
Lemma calculate_confidence_formula_witness :
  LLMService.calculate_confidence [] [] MetricInputs.distances_E =
  Spec.confidence MetricInputs.distances_E.
Proof.
  apply (proj1 calculate_confidence_formula).
  - discriminate.
  - repeat constructor; vm_compute; discriminate.
Defined.

(** Outside the range of a distance the two sides differ: the code caps the
    value at 1 only together with the bonus. *)
Lemma calculate_confidence_negative_distance :
  LLMService.calculate_confidence [] [] [Q2Qc (-1 # 1)] = Q2Qc (3 # 2) /\
  Spec.confidence [Q2Qc (-1 # 1)] = 1.
Proof. split; apply Qc_is_canon; vm_compute; reflexivity. Qed.

End Confidence.

Section MetricsFacts.
Import Metrics.

Lemma of_nat_0 : of_nat 0 = 0.
Proof. apply Z2Qc_inj_0. Qed.

Lemma zero_div (x : Qc) : 0 / x = 0.
Proof. unfold Qcdiv. apply Qcmult_0_l. Qed.

Lemma size_list_to_set_le (l : list str) :
  (size (list_to_set l : gset (list N)) <= length l)%nat.
Proof.
  induction l as [|x l IH].
  - rewrite list_to_set_nil, size_empty. done.
  - rewrite list_to_set_cons, size_union_alt, size_singleton. cbn [length].
    assert (size (list_to_set l ∖ {[x]} : gset (list N))
            <= size (list_to_set l : gset (list N)))%nat.
    { apply subseteq_size. set_solver. }
    lia.
Qed.

Lemma calculate_metrics_refines (retrieved ground_truth : list str) :
  calculate_metrics retrieved ground_truth =
  (Spec.precision retrieved ground_truth,
   Spec.recall retrieved ground_truth,
   Spec.f1 (Spec.precision retrieved ground_truth)
           (Spec.recall retrieved ground_truth)).
Proof.
  unfold calculate_metrics, Spec.precision, Spec.recall, Spec.f1.
  destruct retrieved as [|r rs]; [|destruct ground_truth as [|g gs]]; cbn [is_nil].
  - assert (E : size (relevant_set [] ground_truth) = 0%nat).
    { unfold relevant_set. apply size_empty_iff. set_solver. }
    rewrite E, of_nat_0, !zero_div.
    destruct ground_truth; rewrite Qcplus_0_l; by rewrite decide_True.
  - assert (E : size (relevant_set (r :: rs) []) = 0%nat).
    { unfold relevant_set. apply size_empty_iff. set_solver. }
    rewrite E, of_nat_0, !zero_div.
    rewrite Qcplus_0_l; by rewrite decide_True.
  - set (p := of_nat _ / of_nat (length (r :: rs))).
    set (q := of_nat _ / of_nat (length (g :: gs))).
    destruct (decide (p + q = 0)); [done|].
    by rewrite Qcmult_assoc.
Qed.
Lemma metrics_eq (m : Qc * Qc * Qc) (p r f : Q) :
  (this m.1.1 == p)%Q -> (this m.1.2 == r)%Q -> (this m.2 == f)%Q ->
  m = (Q2Qc p, Q2Qc r, Q2Qc f).
Proof.
  destruct m as [[mp mr] mf]. cbn [fst snd]. intros Hp Hr Hf.
  repeat f_equal; apply Qc_is_canon; cbn [this Q2Qc];
    rewrite Qred_correct; done.
Qed.

(** C4. For every retrieved list and ground-truth list,
    [calculate_metrics] returns the precision
    [|set(retrieved) & set(groundTruth)| / len(retrieved)] (0 for an empty
    retrieved list), the recall with [len(groundTruth)] as denominator (0
    for an empty ground truth) and [f1 = 2 p r / (p + r)] (0 when
    [p + r = 0]). The numerator is the size of a set and the denominator
    the length of the list: a document retrieved twice counts once above and
    twice below. Scenarios C and D of the specification follow. *)
Theorem calculate_metrics_formula :
  (forall retrieved ground_truth : list str,
     calculate_metrics retrieved ground_truth =
     (Spec.precision retrieved ground_truth,
      Spec.recall retrieved ground_truth,
      Spec.f1 (Spec.precision retrieved ground_truth)
              (Spec.recall retrieved ground_truth))) /\
  calculate_metrics MetricInputs.retrieved_twice MetricInputs.ground_truth_once
    = (Q2Qc (1 # 2), Q2Qc 1, Q2Qc (2 # 3)) /\
  calculate_metrics MetricInputs.retrieved_C MetricInputs.ground_truth_C
    = (Q2Qc (1 # 3), Q2Qc (1 # 2), Q2Qc (2 # 5)) /\
  calculate_metrics [] MetricInputs.ground_truth_D
    = (Q2Qc 0, Q2Qc 0, Q2Qc 0).
Proof.
  split_and!.
  - apply calculate_metrics_refines.
  - apply metrics_eq; vm_compute; reflexivity.
  - apply metrics_eq; vm_compute; reflexivity.
  - apply metrics_eq; vm_compute; reflexivity.
Qed.

End MetricsFacts.

Section F1.
Import Metrics.

Lemma Qc_lt_irrefl (x : Qc) : ~ x < x.
Proof. apply Qcle_not_lt, Qcle_refl. Qed.

Lemma Qc_eq_Qeq (x y : Qc) : x = y -> (x == y)%Q.
Proof. by intros ->. Qed.

Lemma ratio_unit (a b : Qc) :
  0 ≤ a -> a ≤ b -> 0 < b -> 0 ≤ a / b ≤ 1 /\ (a / b = 0 <-> a = 0).
Proof.
  intros Ha Hab Hb.
  assert (Hb0 : b ≠ 0). { intros ->. by apply Qc_lt_irrefl in Hb. }
  assert (Hmul : a / b * b = a).
  { by rewrite Qcmult_comm, Qcmult_div_r. }
  split_and!.
  - apply (Qcmult_lt_0_le_reg_r _ _ b Hb). by rewrite Qcmult_0_l, Hmul.
  - apply (Qcmult_lt_0_le_reg_r _ _ b Hb). by rewrite Qcmult_1_l, Hmul.
  - split.
    + intros E. by rewrite <- Hmul, E, Qcmult_0_l.
    + intros ->. apply zero_div.
Qed.

Lemma f1_unit (p r : Qc) :
  0 ≤ p ≤ 1 -> 0 ≤ r ≤ 1 -> (p = 0 <-> r = 0) ->
  let f := if decide (p + r = 0) then 0 else 2 * (p * r) / (p + r) in
  0 ≤ f ≤ 1 /\ (f = 0 <-> p = 0 /\ r = 0).
Proof.
  intros [Hp0 Hp1] [Hr0 Hr1] Hiff. cbn zeta.
  destruct (decide (p + r = 0)) as [E|NE].
  - split; [split; [done|]|].
    + qc2q; lra.
    + split; [intros _|done]. apply Qc_eq_Qeq in E.
      split; apply Qc_is_canon; qc2q; lra.
  - assert (Hp : 0 < p).
    { destruct (Qclt_le_dec 0 p) as [|Hle]; [done|]. exfalso.
      assert (p = 0) as Ep by (apply Qc_is_canon; qc2q; lra).
      apply NE. rewrite Ep, (proj1 Hiff Ep). apply Qcplus_0_l. }
    assert (Hr : 0 < r).
    { destruct (Qclt_le_dec 0 r) as [|Hle]; [done|]. exfalso.
      assert (r = 0) as Er by (apply Qc_is_canon; qc2q; lra).
      apply NE. rewrite Er, (proj2 Hiff Er). apply Qcplus_0_l. }
    assert (Hs : 0 < p + r) by (qc2q; lra).
    assert (Hmul : 2 * (p * r) / (p + r) * (p + r) = 2 * (p * r)).
    { by rewrite Qcmult_comm, Qcmult_div_r. }
    assert (Hpos : 0 < 2 * (p * r) / (p + r)).
    { apply (Qcmult_lt_mono_pos_r _ _ (p + r) Hs).
      rewrite Qcmult_0_l, Hmul. qc2q. nra. }
    split_and!.
    + by apply Qclt_le_weak.
    + apply (Qcmult_le_mono_pos_r _ _ (p + r) Hs).
      rewrite Qcmult_1_l, Hmul. qc2q. nra.
    + split.
      * intros E. rewrite E in Hpos. by apply Qc_lt_irrefl in Hpos.
      * intros [-> _]. by apply Qc_lt_irrefl in Hp.
Qed.

Lemma of_nat_le (a b : nat) : (a <= b)%nat -> of_nat a ≤ of_nat b.
Proof. intros H. unfold of_nat. apply (proj1 (Z2Qc_inj_le _ _)). lia. Qed.

Lemma of_nat_pos (a : nat) : (0 < a)%nat -> 0 < of_nat a.
Proof.
  intros H. unfold of_nat. rewrite <- Z2Qc_inj_0. apply (proj1 (Z2Qc_inj_lt _ _)). lia.
Qed.

Lemma relevant_le_retrieved (retrieved ground_truth : list str) :
  (size (relevant_set retrieved ground_truth) <= length retrieved)%nat.
Proof.
  etrans; [|apply size_list_to_set_le].
  apply subseteq_size. unfold relevant_set. set_solver.
Qed.

Lemma relevant_le_ground_truth (retrieved ground_truth : list str) :
  (size (relevant_set retrieved ground_truth) <= length ground_truth)%nat.
Proof.
  etrans; [|apply size_list_to_set_le].
  apply subseteq_size. unfold relevant_set. set_solver.
Qed.

(** C7. For every retrieved list and ground-truth list, the F1 score that
    [calculate_metrics] returns lies in [[0, 1]], and it is 0 exactly when
    the precision and the recall are both 0. *)
Theorem f1_score_range (retrieved ground_truth : list str) :
  let '(precision, recall, f1_score) :=
    calculate_metrics retrieved ground_truth in
  0 ≤ f1_score ≤ 1 /\ (f1_score = 0 <-> precision = 0 /\ recall = 0).
Proof.
  unfold calculate_metrics.
  destruct retrieved as [|d ds]; [|destruct ground_truth as [|g gs]];
    cbn [is_nil]; [done..|].
  set (k := size _).
  assert (Hk0 : 0 ≤ of_nat k).
  { rewrite <- of_nat_0. apply of_nat_le. lia. }
  destruct (ratio_unit (of_nat k) (of_nat (length (d :: ds)))) as [Hp Hp0];
    [done|apply of_nat_le, relevant_le_retrieved|apply of_nat_pos; simpl; lia|].
  destruct (ratio_unit (of_nat k) (of_nat (length (g :: gs)))) as [Hr Hr0];
    [done|apply of_nat_le, relevant_le_ground_truth|apply of_nat_pos; simpl; lia|].
  apply f1_unit; [done..|]. by rewrite Hp0, Hr0.
Qed.

End F1.

End Arithmetic.

(** ** The scorer *)

Section Scorer.

Import Medical.
Local Open Scope Qc_scope.

Variable SIMILARITY_THRESHOLD : Qc.
Variable search : str -> nat -> option metadata -> exn + option QueryResult.
Variable embedding : Type.
Variable encode_single : str -> exn + embedding.
Variable generate_answer : str -> list str -> option PatientProfile -> str.

Lemma filter_hits_from (hits : list (str * metadata * Qc)) :
  forall done : list (str * metadata * Qc),
    fold_left (filter_step SIMILARITY_THRESHOLD) hits (Spec.unzip_hits done) =
    Spec.unzip_hits (done ++ Spec.kept SIMILARITY_THRESHOLD hits).
Proof.
  induction hits as [|[[doc meta] dist] hits IH]; intros done; simpl.
  - by rewrite app_nil_r.
  - unfold passes. destruct (bool_decide _); simpl.
    + replace (done ++ (doc, meta, dist) :: Spec.kept SIMILARITY_THRESHOLD hits)
        with ((done ++ [(doc, meta, dist)]) ++ Spec.kept SIMILARITY_THRESHOLD hits)
        by (by rewrite <- app_assoc).
      rewrite <- IH. f_equal. unfold Spec.unzip_hits. by rewrite !map_app.
    + apply IH.
Qed.

Lemma filter_hits_kept (hits : list (str * metadata * Qc)) :
  filter_hits SIMILARITY_THRESHOLD hits =
  Spec.unzip_hits (Spec.kept SIMILARITY_THRESHOLD hits).
Proof. apply (filter_hits_from hits []). Qed.

Lemma chat_no_documents (request : ChatRequest) :
  (search (query request) (top_k_of request) (where_of request) = inr None \/
   exists results : QueryResult,
     search (query request) (top_k_of request) (where_of request)
       = inr (Some results) /\
     (documents results = [] \/ exists rest, documents results = [] :: rest)) ->
  medical_chat SIMILARITY_THRESHOLD search embedding encode_single
    generate_answer request = inr no_documents_response.
Proof.
  unfold medical_chat, chat_body.
  intros [-> | (results & -> & [-> | [rest ->]])]; reflexivity.
Qed.

Lemma chat_no_match (request : ChatRequest) (results : QueryResult)
    (documents0 : list str) (metadatas0 : list metadata)
    (distances0 : list Qc) :
  search (query request) (top_k_of request) (where_of request)
    = inr (Some results) ->
  index0 (documents results) = inr documents0 ->
  index0 (metadatas results) = inr metadatas0 ->
  index0 (distances results) = inr distances0 ->
  documents0 <> [] ->
  Spec.kept SIMILARITY_THRESHOLD (zip3 documents0 metadatas0 distances0) = [] ->
  medical_chat SIMILARITY_THRESHOLD search embedding encode_single
    generate_answer request = inr no_match_response.
Proof.
  intros Hsearch Hdocs Hmetas Hdists Hne Hkept.
  unfold medical_chat, chat_body. rewrite Hsearch.
  destruct (documents results) as [|d0 rest]; [discriminate Hdocs|].
  injection Hdocs as ->. destruct documents0 as [|doc docs]; [by destruct Hne|].
  rewrite Hmetas, Hdists, filter_hits_kept, Hkept. reflexivity.
Qed.

Lemma chat_success (request : ChatRequest) (results : QueryResult)
    (documents0 : list str) (metadatas0 : list metadata)
    (distances0 : list Qc) (response : ChatResponse) :
  search (query request) (top_k_of request) (where_of request)
    = inr (Some results) ->
  index0 (documents results) = inr documents0 ->
  index0 (metadatas results) = inr metadatas0 ->
  index0 (distances results) = inr distances0 ->
  let hits :=
    Spec.kept SIMILARITY_THRESHOLD (zip3 documents0 metadatas0 distances0) in
  hits <> [] ->
  medical_chat SIMILARITY_THRESHOLD search embedding encode_single
    generate_answer request = inr response ->
  answer response =
    generate_answer (query request) (Spec.unzip_hits hits).1.1
      (patient_profile request) /\
  confidence response =
    LLMService.calculate_confidence (query request)
      (Spec.unzip_hits hits).1.1 (Spec.unzip_hits hits).2 /\
  references response =
    take (top_k_of request) (build_references (Spec.unzip_hits hits).1.2).
Proof.
  intros Hsearch Hdocs Hmetas Hdists hits Hne.
  unfold medical_chat, chat_body. rewrite Hsearch.
  destruct (documents results) as [|d0 rest]; [discriminate Hdocs|].
  injection Hdocs as ->. destruct documents0 as [|doc docs].
  { by destruct Hne. }
  rewrite Hmetas, Hdists, filter_hits_kept. fold hits.
  destruct hits as [|h hs]; [by destruct Hne|].
  cbn [Spec.unzip_hits map nonempty_list negb].
  destruct (rag_details _ _ _ _ _ _ _); [discriminate|].
  intros [= <-]. cbn [answer confidence references fst snd]. auto.
Qed.

Lemma build_references_from (metas : list metadata) :
  forall (refs : list Reference) (seen : gset (list N)) (earlier : list str),
    (forall doc_id : str, doc_id <> [] -> doc_id ∈ seen <-> doc_id ∈ earlier) ->
    (fold_left reference_step metas (refs, seen)).1 =
    refs ++ map reference_of (Spec.first_per_id earlier metas).
Proof.
  induction metas as [|meta rest IH]; intros refs seen earlier Hinv.
  - simpl. by rewrite app_nil_r.
  - cbn [fold_left Spec.first_per_id reference_step].
    set (doc_id := doc_id_of meta).
    destruct (decide (doc_id <> [] /\ doc_id ∉ earlier)) as [[Hne Hnew]|Hold].
    + assert (nonempty doc_id = true) as -> by (by destruct doc_id).
      rewrite bool_decide_eq_true_2 by (by rewrite Hinv).
      cbn [andb]. rewrite (IH _ _ (earlier ++ [doc_id])).
      * cbn [app map]. by rewrite <- app_assoc.
      * intros d Hd. rewrite elem_of_union, elem_of_singleton, elem_of_app,
          list_elem_of_singleton, (Hinv d Hd). tauto.
    + assert (nonempty doc_id && bool_decide (doc_id ∉ seen) = false) as ->.
      { destruct doc_id as [|c r] eqn:E; [done|]. cbn [nonempty andb].
        apply bool_decide_eq_false_2. rewrite Hinv by done.
        intros Hnew. apply Hold. by split. }
      rewrite (IH _ _ (earlier ++ [doc_id])); [done|].
      intros d Hd. rewrite elem_of_app, list_elem_of_singleton, (Hinv d Hd).
      split; [tauto|]. intros [H| ->]; [done|].
      destruct (decide (doc_id ∈ earlier)) as [|Hnew]; [done|].
      destruct Hold. by split.
Qed.

Lemma build_references_first_per_id (metas : list metadata) :
  build_references metas = map reference_of (Spec.first_per_id [] metas).
Proof.
  unfold build_references.
  rewrite (build_references_from metas [] ∅ []); [done|].
  intros d _. rewrite elem_of_nil. set_solver.
Qed.

Lemma kept_elem_of (hits : list (str * metadata * Qc))
    (hit : str * metadata * Qc) :
  hit ∈ Spec.kept SIMILARITY_THRESHOLD hits <->
  hit ∈ hits /\ SIMILARITY_THRESHOLD ≤ 1 - hit.2.
Proof.
  unfold Spec.kept. rewrite !list_elem_of_In, filter_In, bool_decide_eq_true.
  done.
Qed.

Lemma kept_sublist (hits : list (str * metadata * Qc)) :
  sublist (Spec.kept SIMILARITY_THRESHOLD hits) hits.
Proof.
  unfold Spec.kept. induction hits as [|hit hits IH]; simpl; [done|].
  destruct (bool_decide _); by constructor.
Qed.

(** C6. The filtering loop of [medical_chat] keeps a hit exactly when
    [1 - distance >= SIMILARITY_THRESHOLD] and keeps the hits in the order
    of the input. When the search returns nothing, or no document, the route
    returns the response [no_documents_response]; when no hit passes the
    filter it returns [no_match_response]. Both are responses, not errors,
    with confidence 0 and no reference; and [calculate_confidence] itself
    returns 0 for an empty list of distances. *)
Theorem filtering_and_empty_results :
  (forall hits : list (str * metadata * Qc),
     filter_hits SIMILARITY_THRESHOLD hits =
       Spec.unzip_hits (Spec.kept SIMILARITY_THRESHOLD hits) /\
     sublist (Spec.kept SIMILARITY_THRESHOLD hits) hits /\
     forall hit, hit ∈ Spec.kept SIMILARITY_THRESHOLD hits <->
                 hit ∈ hits /\ SIMILARITY_THRESHOLD ≤ 1 - hit.2) /\
  (forall request : ChatRequest,
     (search (query request) (top_k_of request) (where_of request)
        = inr None \/
      exists results : QueryResult,
        search (query request) (top_k_of request) (where_of request)
          = inr (Some results) /\
        (documents results = [] \/
         exists rest, documents results = [] :: rest)) ->
     medical_chat SIMILARITY_THRESHOLD search embedding encode_single
       generate_answer request = inr no_documents_response) /\
  (forall (request : ChatRequest) (results : QueryResult)
          (documents0 : list str) (metadatas0 : list metadata)
          (distances0 : list Qc),
     search (query request) (top_k_of request) (where_of request)
       = inr (Some results) ->
     index0 (documents results) = inr documents0 ->
     index0 (metadatas results) = inr metadatas0 ->
     index0 (distances results) = inr distances0 ->
     documents0 <> [] ->
     Spec.kept SIMILARITY_THRESHOLD (zip3 documents0 metadatas0 distances0)
       = [] ->
     medical_chat SIMILARITY_THRESHOLD search embedding encode_single
       generate_answer request = inr no_match_response) /\
  (confidence no_documents_response = 0 /\
   references no_documents_response = []) /\
  (confidence no_match_response = 0 /\ references no_match_response = []) /\
  (forall (query : str) (context_docs : list str),
     LLMService.calculate_confidence query context_docs [] = 0).
Proof.
  split_and!; try reflexivity.
  - intros hits. split_and!.
    + apply filter_hits_kept.
    + apply kept_sublist.
    + apply kept_elem_of.
  - apply chat_no_documents.
  - apply chat_no_match.
Qed.

(** C9. The references of a response are the first hit of every source
    document among the filtered hits, in first-seen order, cut to
    [max_results] entries; the answer and the confidence are computed from
    all the filtered hits, whatever their documents and whatever
    [max_results]. A hit names a document when its metadata has a non-empty
    [id]. *)
Theorem references_leave_filtered_set :
  (forall metas : list metadata,
     build_references metas =
     map reference_of (Spec.first_per_id [] metas)) /\
  (forall (request : ChatRequest) (results : QueryResult)
          (documents0 : list str) (metadatas0 : list metadata)
          (distances0 : list Qc) (response : ChatResponse),
     search (query request) (top_k_of request) (where_of request)
       = inr (Some results) ->
     index0 (documents results) = inr documents0 ->
     index0 (metadatas results) = inr metadatas0 ->
     index0 (distances results) = inr distances0 ->
     let hits :=
       Spec.kept SIMILARITY_THRESHOLD
         (zip3 documents0 metadatas0 distances0) in
     hits <> [] ->
     medical_chat SIMILARITY_THRESHOLD search embedding encode_single
       generate_answer request = inr response ->
     references response =
       take (top_k_of request)
         (map reference_of
            (Spec.first_per_id [] (Spec.unzip_hits hits).1.2)) /\
     answer response =
       generate_answer (query request) (Spec.unzip_hits hits).1.1
         (patient_profile request) /\
     confidence response =
       LLMService.calculate_confidence (query request)
         (Spec.unzip_hits hits).1.1 (Spec.unzip_hits hits).2).
Proof.
  split.
  - apply build_references_first_per_id.
  - intros request results documents0 metadatas0 distances0 response
      Hsearch Hdocs Hmetas Hdists hits Hne Hchat.
    destruct (chat_success request results documents0 metadatas0 distances0
                response Hsearch Hdocs Hmetas Hdists Hne Hchat)
      as (Hanswer & Hconf & Hrefs).
    rewrite build_references_first_per_id in Hrefs. done.
Qed.

End Scorer.

Section ScorerWitnesses.

Import Medical ChatInputs.
Local Open Scope Qc_scope.

(** The hypotheses of [filtering_and_empty_results] at a search that
    returns nothing and at one whose hits are all too far, for the threshold
    0.2 of the configuration. *)
Lemma filtering_and_empty_results_witness :
  medical_chat (Q2Qc (2 # 10)) empty_search unit encode_single
    generate_answer request = inr no_documents_response /\
  medical_chat (Q2Qc (2 # 10)) far_search unit encode_single
    generate_answer request = inr no_match_response.
Proof.
  pose proof (filtering_and_empty_results (Q2Qc (2 # 10)) empty_search unit
                encode_single generate_answer) as (_ & Hnone & _).
  pose proof (filtering_and_empty_results (Q2Qc (2 # 10)) far_search unit
                encode_single generate_answer) as (_ & _ & Hfar & _).
  split.
  - apply Hnone. left. reflexivity.
  - apply (Hfar request far_results
             [utf8 "salt"; utf8 "potassium"; utf8 "sugar"]
             (default [] (head (metadatas far_results)))
             [Q2Qc (9 # 10); Q2Qc (95 # 100); Q2Qc (1 # 1)]);
      first [reflexivity | discriminate].
Defined.

(** The hypotheses of [references_leave_filtered_set] at the three hits of
    [ChatInputs], for the threshold 0.2. *)
Lemma references_leave_filtered_set_witness :
  let hits :=
    Spec.kept (Q2Qc (2 # 10))
      (zip3 [utf8 "salt"; utf8 "potassium"; utf8 "sugar"]
         (default [] (head (metadatas results))) MetricInputs.distances_E) in
  references response =
    take (top_k_of request)
      (map reference_of (Spec.first_per_id [] (Spec.unzip_hits hits).1.2)) /\
  answer response =
    generate_answer (query request) (Spec.unzip_hits hits).1.1
      (patient_profile request) /\
  confidence response =
    LLMService.calculate_confidence (query request)
      (Spec.unzip_hits hits).1.1 (Spec.unzip_hits hits).2.
Proof.
  apply (proj2 (references_leave_filtered_set (Q2Qc (2 # 10)) search unit
                  encode_single generate_answer)
           request results
           [utf8 "salt"; utf8 "potassium"; utf8 "sugar"]
           (default [] (head (metadatas results)))
           MetricInputs.distances_E response);
    [reflexivity | reflexivity | reflexivity | reflexivity
    | intros E; apply (f_equal length) in E; vm_compute in E; discriminate E
    | vm_compute; reflexivity].
Defined.


End ScorerWitnesses.

(** ** The AI-assisted audit *)

Section AuditFacts.

Import Evaluation.

Variable json_loads : str -> exn + json.

Lemma parse_ai_response_returns (response : pyvalue) :
  exists r, _parse_ai_response json_loads response = inr r.
Proof.
  unfold _parse_ai_response, try_except.
  destruct response as [text|e]; [|eauto].
  destruct (search_json_object text) as [matched|]; [|eauto].
  destruct (json_loads matched) as [e|[]]; eauto.
Qed.

Lemma ai_evaluate_returns (self : EvaluationService) (query : str)
    (retrieved_docs ground_truth_docs : list str) :
  exists r,
    _ai_evaluate json_loads self query retrieved_docs ground_truth_docs = inr r.
Proof.
  unfold _ai_evaluate, try_except.
  destruct (llm_service self) as [llm|]; [|eauto].
  destruct (call_method llm _ _) as [e|response]; [eauto|].
  destruct (parse_ai_response_returns response) as [r ->]. eauto.
Qed.

Lemma evaluate_retrieval_without_ai (self : EvaluationService) (query : str)
    (retrieved_docs ground_truth_docs : list str) :
  exists base : EvaluationResult,
    evaluate_retrieval json_loads self query retrieved_docs ground_truth_docs
      false = inr base /\
    (precision base, recall base, f1_score base) =
      Metrics.calculate_metrics retrieved_docs ground_truth_docs /\
    ai_rating base = None /\ ai_comment base = None /\
    ai_relevance_labels base = None.
Proof.
  unfold evaluate_retrieval.
  destruct (Metrics.calculate_metrics _ _) as [[p r] f]. cbn [andb].
  eexists. split; [reflexivity|]. done.
Qed.

Lemma evaluate_retrieval_with_ai (self : EvaluationService) (llm : pyobject)
    (query : str) (retrieved_docs ground_truth_docs : list str) :
  llm_service self = Some llm ->
  exists (result : EvaluationResult) (rating comment labels : json),
    _ai_evaluate json_loads self query retrieved_docs ground_truth_docs
      = inr (rating, comment, labels) /\
    evaluate_retrieval json_loads self query retrieved_docs ground_truth_docs
      true = inr result /\
    (precision result, recall result, f1_score result) =
      Metrics.calculate_metrics retrieved_docs ground_truth_docs /\
    ai_rating result = Some rating /\ ai_comment result = Some comment /\
    ai_relevance_labels result = Some labels.
Proof.
  intros Hllm. unfold evaluate_retrieval. rewrite Hllm.
  destruct (Metrics.calculate_metrics _ _) as [[p r] f]. cbn [andb is_some].
  destruct (ai_evaluate_returns self query retrieved_docs ground_truth_docs)
    as [[[rating comment] labels] Hai].
  rewrite Hai. eexists _, rating, comment, labels.
  split; [done|]. split; [reflexivity|]. done.
Qed.

(** The three causes of failure of the audit, and what [_ai_evaluate]
    returns for each. *)
Lemma ai_evaluate_failures (self : EvaluationService) (llm : pyobject)
    (query : str) (retrieved_docs ground_truth_docs : list str) :
  llm_service self = Some llm ->
  let prompt :=
    _build_evaluation_prompt query retrieved_docs ground_truth_docs in
  let outcome :=
    _ai_evaluate json_loads self query retrieved_docs ground_truth_docs in
  (forall e : exn,
     call_method llm "_generate_raw_answer" prompt = inl e ->
     outcome = inr (sentinel (utf8 "AI 评估失败: " ++ exn_message e))) /\
  (forall text : str,
     call_method llm "_generate_raw_answer" prompt = inr (VStr text) ->
     search_json_object text = None ->
     outcome = inr (sentinel (utf8 "AI 返回格式错误"))) /\
  (forall (text matched : str) (e : exn),
     call_method llm "_generate_raw_answer" prompt = inr (VStr text) ->
     search_json_object text = Some matched ->
     json_loads matched = inl e ->
     outcome = inr (sentinel (utf8 "解析失败: " ++ exn_message e))).
Proof.
  intros Hllm prompt outcome. subst outcome. unfold _ai_evaluate.
  rewrite Hllm. fold prompt. split_and!.
  - intros e ->. reflexivity.
  - intros text -> Hnone. unfold _parse_ai_response. rewrite Hnone.
    reflexivity.
  - intros text matched e -> Hsome Hloads. unfold _parse_ai_response.
    rewrite Hsome, Hloads. reflexivity.
Qed.

(** C5. Whatever the collaborator does, [evaluate_retrieval] returns a
    result and does not raise, with or without the AI pass, and the
    precision, recall and F1 of the result are those of [calculate_metrics],
    the same as without the AI pass. When the AI pass is requested and the
    call of the collaborator raises, or its answer holds no brace-delimited
    object, or [json.loads] raises on that object, or the answer is not a
    string, the rating is ["N/A"], the comment is a diagnostic message and
    the relevance labels are the empty dictionary. *)
Theorem ai_audit_degrades (self : EvaluationService) (llm : pyobject)
    (query : str) (retrieved_docs ground_truth_docs : list str) :
  llm_service self = Some llm ->
  let prompt :=
    _build_evaluation_prompt query retrieved_docs ground_truth_docs in
  let with_ai :=
    evaluate_retrieval json_loads self query retrieved_docs ground_truth_docs
      true in
  let degraded (comment : str) :=
    exists result : EvaluationResult,
      with_ai = inr result /\
      ai_rating result = Some (JString (utf8 "N/A")) /\
      ai_comment result = Some (JString comment) /\
      ai_relevance_labels result = Some (JObject []) in
  (exists result base : EvaluationResult,
     with_ai = inr result /\
     evaluate_retrieval json_loads self query retrieved_docs
       ground_truth_docs false = inr base /\
     (precision result, recall result, f1_score result) =
       (precision base, recall base, f1_score base) /\
     (precision base, recall base, f1_score base) =
       Metrics.calculate_metrics retrieved_docs ground_truth_docs) /\
  (forall e : exn,
     call_method llm "_generate_raw_answer" prompt = inl e ->
     degraded (utf8 "AI 评估失败: " ++ exn_message e)) /\
  (forall text : str,
     call_method llm "_generate_raw_answer" prompt = inr (VStr text) ->
     search_json_object text = None ->
     degraded (utf8 "AI 返回格式错误")) /\
  (forall (text matched : str) (e : exn),
     call_method llm "_generate_raw_answer" prompt = inr (VStr text) ->
     search_json_object text = Some matched ->
     json_loads matched = inl e ->
     degraded (utf8 "解析失败: " ++ exn_message e)) /\
  (forall e : exn,
     call_method llm "_generate_raw_answer" prompt = inr (VOther e) ->
     degraded (utf8 "解析失败: " ++ exn_message e)).
Proof.
  intros Hllm prompt with_ai degraded.
  destruct (evaluate_retrieval_with_ai self llm query retrieved_docs
              ground_truth_docs Hllm)
    as (result & rating & comment & labels & Hai & Hresult & Hmetrics
        & Hrating & Hcomment & Hlabels).
  destruct (evaluate_retrieval_without_ai self query retrieved_docs
              ground_truth_docs)
    as (base & Hbase & Hbase_metrics & _).
  destruct (ai_evaluate_failures self llm query retrieved_docs
              ground_truth_docs Hllm)
    as (Hraise & Hnojson & Hmalformed).
  assert (Hdegraded : forall c : str,
            _ai_evaluate json_loads self query retrieved_docs
              ground_truth_docs = inr (sentinel c) -> degraded c).
  { intros c Hc. rewrite Hc in Hai. injection Hai as <- <- <-.
    exists result. done. }
  split_and!.
  - exists result, base. split_and!; [done..| |done]. congruence.
  - intros e He. apply Hdegraded, (Hraise e He).
  - intros text Htext Hnone. apply Hdegraded, (Hnojson text Htext Hnone).
  - intros text matched e Htext Hsome Hloads.
    apply Hdegraded, (Hmalformed text matched e Htext Hsome Hloads).
  - intros e He. apply Hdegraded. unfold _ai_evaluate. rewrite Hllm.
    fold prompt. rewrite He. reflexivity.
Qed.

Lemma LLMService_has_no_raw_answer (prompt : str) :
  call_method LLMService_instance "_generate_raw_answer" prompt =
  inl (Exn "AttributeError"
         (utf8 "'LLMService' object has no attribute '_generate_raw_answer'")).
Proof.
  unfold call_method.
  replace (attributes LLMService_instance !! "_generate_raw_answer")
    with (@None attribute) by (vm_compute; reflexivity).
  f_equal.
Qed.

(** C10. With an instance of the repository's own [LLMService] as the
    text generator, the audit degrades for every query and every document
    lists: [LLMService] has no attribute [_generate_raw_answer], the call
    raises [AttributeError], and the handler of [_ai_evaluate] returns the
    rating ["N/A"] with empty relevance labels. *)
Theorem bundled_generator_always_degrades (query : str)
    (retrieved_docs ground_truth_docs : list str) :
  let self := {| llm_service := Some LLMService_instance |} in
  let comment :=
    utf8 "AI 评估失败: "
    ++ utf8 "'LLMService' object has no attribute '_generate_raw_answer'" in
  attributes LLMService_instance !! "_generate_raw_answer" = None /\
  _ai_evaluate json_loads self query retrieved_docs ground_truth_docs =
    inr (sentinel comment) /\
  exists result : EvaluationResult,
    evaluate_retrieval json_loads self query retrieved_docs ground_truth_docs
      true = inr result /\
    ai_rating result = Some (JString (utf8 "N/A")) /\
    ai_comment result = Some (JString comment) /\
    ai_relevance_labels result = Some (JObject []).
Proof.
  intros self comment.
  assert (Hai : _ai_evaluate json_loads self query retrieved_docs
                  ground_truth_docs = inr (sentinel comment)).
  { unfold _ai_evaluate. cbn [llm_service self].
    rewrite LLMService_has_no_raw_answer. reflexivity. }
  split_and!.
  - vm_compute. reflexivity.
  - exact Hai.
  - unfold evaluate_retrieval.
    destruct (Metrics.calculate_metrics _ _) as [[p r] f].
    cbn [llm_service self andb is_some]. rewrite Hai. eexists.
    split; [reflexivity|]. done.
Qed.

End AuditFacts.

(** The hypotheses of [ai_audit_degrades] at the four generators of
    [AuditInputs], on the lists of Scenario C. *)
Lemma ai_audit_degrades_witness :
  let audit (self : Evaluation.EvaluationService) (comment : str) :=
    exists result : Evaluation.EvaluationResult,
      Evaluation.evaluate_retrieval AuditInputs.rejecting_loads self
        (utf8 "diet") MetricInputs.retrieved_C MetricInputs.ground_truth_C true
        = inr result /\
      Evaluation.ai_rating result = Some (Evaluation.JString (utf8 "N/A")) /\
      Evaluation.ai_comment result = Some (Evaluation.JString comment) /\
      Evaluation.ai_relevance_labels result = Some (Evaluation.JObject []) in
  audit AuditInputs.raising
    (utf8 "AI 评估失败: " ++ exn_message AuditInputs.timeout) /\
  audit AuditInputs.chatty (utf8 "AI 返回格式错误") /\
  audit AuditInputs.malformed
    (utf8 "解析失败: " ++ exn_message AuditInputs.decode_error) /\
  audit AuditInputs.silent
    (utf8 "解析失败: " ++ exn_message AuditInputs.not_a_string).
Proof.
  intros audit. split_and!.
  - destruct (ai_audit_degrades AuditInputs.rejecting_loads
                AuditInputs.raising _ (utf8 "diet") MetricInputs.retrieved_C
                MetricInputs.ground_truth_C eq_refl) as (_ & H & _).
    apply (H AuditInputs.timeout). reflexivity.
  - destruct (ai_audit_degrades AuditInputs.rejecting_loads
                AuditInputs.chatty _ (utf8 "diet") MetricInputs.retrieved_C
                MetricInputs.ground_truth_C eq_refl) as (_ & _ & H & _).
    apply (H (utf8 "no opinion")); reflexivity.
  - destruct (ai_audit_degrades AuditInputs.rejecting_loads
                AuditInputs.malformed _ (utf8 "diet") MetricInputs.retrieved_C
                MetricInputs.ground_truth_C eq_refl) as (_ & _ & _ & H & _).
    apply (H (utf8 "{rating: good}") (utf8 "{rating: good}")
             AuditInputs.decode_error); reflexivity.
  - destruct (ai_audit_degrades AuditInputs.rejecting_loads
                AuditInputs.silent _ (utf8 "diet") MetricInputs.retrieved_C
                MetricInputs.ground_truth_C eq_refl) as (_ & _ & _ & _ & H).
    apply (H AuditInputs.not_a_string). reflexivity.
Defined.

(** ** More on the chunker *)

Section ForceSplit.

Lemma windows_concat (m c : nat) :
  forall text : str,
    length text <= c * m ->
    concat (map (fun i => slice text i m) (map (fun k => 0 + k * m) (seq 0 c)))
    = text.
Proof.
  induction c as [|c IH]; intros text Hlen.
  - simpl in *. destruct text; [done|simpl in Hlen; lia].
  - cbn [seq map concat]. rewrite <- seq_shift, !map_map.
    transitivity (take m text ++ drop m text); [|apply take_drop].
    f_equal. rewrite <- (IH (drop m text)) by (rewrite length_drop; lia).
    rewrite map_map. f_equal. apply map_ext. intros k. unfold slice.
    rewrite drop_drop. f_equal; f_equal; lia.
Qed.

Lemma range_covers (n m : nat) : 0 < m -> n <= (n - 0 + m - 1) / m * m.
Proof.
  intros Hm. replace (n - 0 + m - 1) with (n + (m - 1)) by lia.
  pose proof (Nat.div_mod_eq (n + (m - 1)) m) as Hdiv.
  pose proof (Nat.mod_upper_bound (n + (m - 1)) m ltac:(lia)). nia.
Qed.

Lemma concat_filter_nonempty (l : list str) :
  concat (List.filter nonempty l) = concat l.
Proof.
  induction l as [|[|c s] l IH]; simpl; [done|done|]. by rewrite IH.
Qed.

Lemma force_split_pieces (text : str) (max_length : nat) :
  0 < max_length ->
  exists chunks : list str,
    _force_split text max_length = Some chunks /\
    concat chunks = text /\
    Forall (fun c : str => 0 < length c <= max_length) chunks.
Proof.
  intros Hm. unfold _force_split.
  destruct (Nat.eqb_spec max_length 0) as [|_]; [lia|].
  eexists. split; [reflexivity|]. split.
  - rewrite concat_filter_nonempty. unfold py_range.
    apply windows_concat, range_covers, Hm.
  - apply Forall_forall. intros c Hc.
    apply list_elem_of_In, filter_In in Hc as [Hc Hne].
    apply in_map_iff in Hc as (i & <- & _).
    pose proof (slice_length text i max_length).
    destruct (slice text i max_length); [done|simpl in *; lia].
Qed.

(** X1. [_force_split] raises for a zero [max_length]; for a positive one
    it returns pieces that concatenate to the text, none of them empty and
    none longer than [max_length]. *)
Theorem force_split_partitions (text : str) (max_length : nat) :
  _force_split text 0 = None /\
  (0 < max_length ->
   exists chunks : list str,
     _force_split text max_length = Some chunks /\
     concat chunks = text /\
     Forall (fun c : str => 0 < length c <= max_length) chunks).
Proof. split; [done|apply force_split_pieces]. Qed.

(** The hypothesis of [force_split_partitions] at five characters cut by
    two. *)
Lemma force_split_partitions_witness :
  exists chunks : list str,
    _force_split [97; 98; 99; 100; 101]%N 2 = Some chunks /\
    concat chunks = [97; 98; 99; 100; 101]%N /\
    Forall (fun c : str => 0 < length c <= 2) chunks.
Proof.
  apply (proj2 (force_split_partitions [97; 98; 99; 100; 101]%N 2)). lia.
Defined.

End ForceSplit.

Section Overlap.

Lemma last_chars_suffix (overlap : nat) (chunk : str) :
  is_suffix (last_chars overlap chunk) chunk /\
  length (last_chars overlap chunk) = Nat.min overlap (length chunk).
Proof.
  unfold last_chars, is_suffix.
  destruct (Nat.ltb_spec overlap (length chunk)) as [Hlt|Hge].
  - split.
    + exists (take (length chunk - overlap) chunk). by rewrite take_drop.
    + rewrite length_drop. lia.
  - split; [by exists []|lia].
Qed.

Lemma overlap_loop_lookup (overlap : nat) (chunks : list str) :
  forall (prev : str) (i : nat) (p c : str),
    (prev :: chunks) !! i = Some p ->
    chunks !! i = Some c ->
    overlap_loop overlap prev chunks !! i
    = Some (last_chars overlap p ++ SP :: c).
Proof.
  induction chunks as [|d chunks IH]; intros prev i p c Hp Hc; [done|].
  destruct i as [|i]; simpl in *.
  - by injection Hp as <-; injection Hc as <-.
  - by apply IH.
Qed.

Lemma overlap_loop_length (overlap : nat) (chunks : list str) :
  forall prev : str, length (overlap_loop overlap prev chunks) = length chunks.
Proof.
  induction chunks as [|d chunks IH]; intros prev; simpl; [done|].
  by rewrite IH.
Qed.

(** X2. [_add_overlap] keeps the number of chunks and the first chunk. With
    a positive overlap, every later chunk becomes the last [overlap]
    characters of the chunk in front of it, taken as it was before any
    overlap was added, all of that chunk when it is shorter, then a space,
    then the chunk itself. With a zero overlap the list is returned as it
    is. *)
Theorem add_overlap_shape (chunks : list str) (overlap : nat) :
  length (_add_overlap chunks overlap) = length chunks /\
  _add_overlap chunks overlap !! 0 = chunks !! 0 /\
  _add_overlap chunks 0 = chunks /\
  (forall (i : nat) (p c : str),
     0 < overlap ->
     chunks !! i = Some p ->
     chunks !! S i = Some c ->
     exists tail : str,
       _add_overlap chunks overlap !! S i = Some (tail ++ SP :: c) /\
       is_suffix tail p /\
       length tail = Nat.min overlap (length p)).
Proof.
  unfold _add_overlap. split_and!.
  - destruct ((overlap <=? 0) || (length chunks <=? 1)); [done|].
    destruct chunks as [|c0 cs]; [done|]. simpl.
    by rewrite overlap_loop_length.
  - destruct ((overlap <=? 0) || (length chunks <=? 1)); [done|].
    by destruct chunks.
  - done.
  - intros i p c Hov Hp Hc.
    destruct (Nat.leb_spec overlap 0) as [|_]; [lia|].
    destruct chunks as [|c0 cs]; [done|].
    destruct cs as [|c1 cs]; [done|]. cbn [length Nat.leb orb].
    exists (last_chars overlap p).
    destruct (last_chars_suffix overlap p) as [Hsuf Hlen].
    split_and!; [|done..].
    change ((c0 :: overlap_loop overlap c0 (c1 :: cs)) !! S i)
      with (overlap_loop overlap c0 (c1 :: cs) !! i).
    by apply overlap_loop_lookup.
Qed.

(** The hypotheses of [add_overlap_shape] at two chunks and an overlap of
    two characters. *)
Lemma add_overlap_shape_witness :
  exists tail : str,
    _add_overlap [[97; 98; 99]; [100; 101]]%N 2 !! 1
      = Some (tail ++ SP :: [100; 101]%N) /\
    is_suffix tail [97; 98; 99]%N /\
    length tail = Nat.min 2 (length [97; 98; 99]%N).
Proof.
  apply (proj2 (proj2 (proj2 (add_overlap_shape [[97; 98; 99]; [100; 101]]%N 2)))
           0 [97; 98; 99]%N [100; 101]%N); [lia|reflexivity|reflexivity].
Defined.

End Overlap.

Section Merge.

Lemma nonspace_app (a b : str) : nonspace (a ++ b) = nonspace a ++ nonspace b.
Proof. unfold nonspace. apply List.filter_app. Qed.

Lemma nonspace_lstrip (s : str) : nonspace (lstrip s) = nonspace s.
Proof.
  induction s as [|c s IH]; [done|]. cbn [lstrip].
  destruct (isspace c) eqn:E; [|done].
  rewrite IH. unfold nonspace. cbn [List.filter]. by rewrite E.
Qed.

Lemma nonspace_rstrip (s : str) : nonspace (rstrip s) = nonspace s.
Proof.
  induction s as [|c s IH]; [done|]. cbn [rstrip]. unfold nonspace in *.
  destruct (rstrip s) as [|d r] eqn:Er.
  - cbn [List.filter] in *. rewrite <- IH.
    destruct (isspace c) eqn:E; cbn [List.filter]; by rewrite ?E.
  - cbn [List.filter] in *. by rewrite IH.
Qed.

Lemma nonspace_strip (s : str) : nonspace (strip s) = nonspace s.
Proof. unfold strip. by rewrite nonspace_rstrip, nonspace_lstrip. Qed.

Lemma concat_flush (s : str) : concat (flush s) = s.
Proof. by destruct s; simpl; rewrite ?app_nil_r. Qed.

Lemma merge_loop_content (min_length : nat) (rest : list str) :
  forall current : str,
    nonspace (concat (merge_loop min_length current rest))
    = nonspace current ++ nonspace (concat rest).
Proof.
  induction rest as [|p rest IH]; intros current; cbn [merge_loop concat].
  - by rewrite concat_flush, app_nil_r.
  - destruct (_ && _).
    + rewrite IH, !nonspace_app. cbn [nonspace List.filter].
      change (isspace SP) with true. cbn [negb].
      fold (nonspace (strip p)). by rewrite nonspace_strip, <- app_assoc.
    + rewrite concat_app, !nonspace_app, concat_flush, IH, nonspace_strip.
      done.
Qed.

Lemma merge_loop_nonempty (min_length : nat) (rest : list str) :
  forall current : str,
    Forall (fun p : str => p <> []) (merge_loop min_length current rest) /\
    length (merge_loop min_length current rest) <= S (length rest).
Proof.
  assert (Hflush : forall s : str,
            Forall (fun p : str => p <> []) (flush s) /\ length (flush s) <= 1).
  { intros [|c s]; simpl; split; try lia; repeat constructor; done. }
  induction rest as [|p rest IH]; intros current; cbn [merge_loop length].
  - apply Hflush.
  - destruct (_ && _).
    + destruct (IH (current ++ SP :: strip p)). split; [done|lia].
    + destruct (IH (strip p)), (Hflush current).
      rewrite Forall_app, length_app. split; [done|lia].
Qed.

(** X3. [_merge_short_paragraphs] returns no empty paragraph and no more
    paragraphs than it was given, and it neither loses nor reorders any
    character that is not whitespace: the non-whitespace characters of the
    result, read in order, are those of the input. *)
Theorem merge_short_paragraphs_keeps_content (paragraphs : list str)
    (min_length : nat) :
  Forall (fun p : str => p <> [])
    (_merge_short_paragraphs paragraphs min_length) /\
  length (_merge_short_paragraphs paragraphs min_length)
    <= length paragraphs /\
  nonspace (concat (_merge_short_paragraphs paragraphs min_length))
    = nonspace (concat paragraphs).
Proof.
  destruct paragraphs as [|p0 rest]; [by repeat constructor|].
  cbn [_merge_short_paragraphs concat length].
  destruct (merge_loop_nonempty min_length rest (strip p0)).
  split_and!; [done..|].
  by rewrite merge_loop_content, nonspace_strip, nonspace_app.
Qed.

End Merge.

Section Preprocess.

Lemma cleaned_from_trans (a b c : str) :
  cleaned_from a b -> cleaned_from b c -> cleaned_from a c.
Proof.
  intros [Hlen1 H1] [Hlen2 H2]. split; [lia|].
  rewrite Forall_forall in *. intros x Hx.
  destruct (H1 x Hx) as [Hb|?]; [|tauto]. apply (H2 x Hb).
Qed.

Lemma cleaned_from_cons (x : N) (out inp : str) :
  cleaned_from out inp -> cleaned_from out (x :: inp).
Proof.
  intros [Hlen H]. split; [simpl; lia|].
  eapply Forall_impl; [exact H|]. intros c [?|?]; [left; by right|tauto].
Qed.

Lemma cleaned_from_keep (x y : N) (out inp : str) :
  y = x \/ y = SP \/ y = NL ->
  cleaned_from out inp -> cleaned_from (y :: out) (x :: inp).
Proof.
  intros Hy [Hlen H]. split; [simpl; lia|]. constructor.
  - destruct Hy as [->|?]; [left; by left|tauto].
  - eapply Forall_impl; [exact H|]. intros c [?|?]; [left; by right|tauto].
Qed.

Lemma sub_blanks_cleaned (s : str) :
  forall inrun : bool,
    cleaned_from (sub_blanks inrun s) s /\
    Forall (fun c => c <> TAB) (sub_blanks inrun s).
Proof.
  induction s as [|c s IH]; intros inrun; cbn [sub_blanks].
  - split; [split|]; constructor.
  - destruct (N.eqb_spec c SP) as [->|Hsp]; cbn [orb].
    + destruct inrun; destruct (IH true) as [Hc Ht].
      * split; [by apply cleaned_from_cons|done].
      * split; [apply cleaned_from_keep; tauto|by constructor].
    + destruct (N.eqb_spec c TAB) as [->|Htab].
      * destruct inrun; destruct (IH true) as [Hc Ht].
        -- split; [by apply cleaned_from_cons|done].
        -- split; [apply cleaned_from_keep; tauto|by constructor].
      * destruct (IH false) as [Hc Ht].
        split; [apply cleaned_from_keep; tauto|by constructor].
Qed.

Lemma sub_newlines_cleaned (s : str) :
  forall k : nat, cleaned_from (sub_newlines k s) s.
Proof.
  induction s as [|c s IH]; intros k; cbn [sub_newlines].
  - split; constructor.
  - destruct (c =? NL)%N; [destruct (k <? 2)|].
    + apply cleaned_from_keep; [tauto|apply IH].
    + apply cleaned_from_cons, IH.
    + apply cleaned_from_keep; [tauto|apply IH].
Qed.

Lemma remove_cr_cleaned (s : str) :
  cleaned_from (remove_cr s) s /\ Forall (fun c => c <> CR) (remove_cr s).
Proof.
  unfold remove_cr. induction s as [|c s [IH1 IH2]]; cbn [List.filter].
  - split; [split|]; constructor.
  - destruct (N.eqb_spec c CR) as [->|Hc]; cbn [negb].
    + split; [by apply cleaned_from_cons|done].
    + split; [apply cleaned_from_keep; tauto|by constructor].
Qed.

Lemma sub_page_numbers_cleaned (s : str) :
  forall skip : nat, cleaned_from (sub_page_numbers skip s) s.
Proof.
  induction s as [|c s IH]; intros skip; cbn [sub_page_numbers].
  - split; constructor.
  - destruct skip as [|k]; [|apply cleaned_from_cons, IH].
    destruct (match_page_number (c :: s)).
    + apply cleaned_from_keep; [tauto|apply IH].
    + apply cleaned_from_keep; [tauto|apply IH].
Qed.

Lemma lstrip_cleaned (s : str) : cleaned_from (lstrip s) s.
Proof.
  induction s as [|c s IH]; cbn [lstrip]; [split; constructor|].
  destruct (isspace c); [by apply cleaned_from_cons|].
  split; [done|]. apply Forall_forall. tauto.
Qed.

Lemma rstrip_cleaned (s : str) : cleaned_from (rstrip s) s.
Proof.
  induction s as [|c s IH]; cbn [rstrip]; [split; constructor|].
  destruct (rstrip s) as [|d r].
  - destruct (isspace c); [by apply cleaned_from_cons|].
    apply cleaned_from_keep; tauto.
  - apply cleaned_from_keep; tauto.
Qed.

Lemma strip_cleaned (s : str) : cleaned_from (strip s) s.
Proof.
  unfold strip. eapply cleaned_from_trans; [apply rstrip_cleaned|].
  apply lstrip_cleaned.
Qed.

Lemma cleaned_from_avoids (x : N) (out inp : str) :
  x <> SP -> x <> NL -> cleaned_from out inp ->
  Forall (fun c => c <> x) inp -> Forall (fun c => c <> x) out.
Proof.
  intros Hsp Hnl [_ H] Hinp. rewrite Forall_forall in *.
  intros c Hc. destruct (H c Hc) as [Hin|[->| ->]]; [by apply Hinp|..];
    congruence.
Qed.

Lemma strip_ends (s : str) :
  match strip s with
  | [] => True
  | c :: _ => isspace c = false
  end /\
  match rev (strip s) with
  | [] => True
  | c :: _ => isspace c = false
  end.
Proof.
  split.
  - unfold strip. destruct (lstrip_head s) as [->|(c & r & -> & Hc)]; [done|].
    by rewrite (rstrip_cons_keep c r Hc).
  - unfold strip. generalize (lstrip s). intros t.
    induction t as [|c t IH]; [done|]. cbn [rstrip].
    destruct (rstrip t) as [|d r] eqn:E.
    + destruct (isspace c) eqn:Ec; [done|]. simpl. done.
    + change (rev (c :: d :: r)) with (rev (d :: r) ++ [c]).
      destruct (rev (d :: r)) as [|e q] eqn:Er; [|done].
      apply (f_equal (@length N)) in Er. rewrite length_rev in Er. done.
Qed.

(** X5. The text [_preprocess_text] returns is never longer than the
    input, has no tab and no carriage return, neither begins nor ends with a
    whitespace character, and has no character that is not in the input
    apart from spaces and newlines. *)
Theorem preprocess_text_invariants (text : str) :
  let cleaned := _preprocess_text text in
  length cleaned <= length text /\
  Forall (fun c => c <> TAB /\ c <> CR) cleaned /\
  Forall (fun c => c ∈ text \/ c = SP \/ c = NL) cleaned /\
  match cleaned with [] => True | c :: _ => isspace c = false end /\
  match rev cleaned with [] => True | c :: _ => isspace c = false end.
Proof.
  cbn zeta. unfold _preprocess_text.
  destruct (sub_blanks_cleaned text false) as [H1 Htab].
  pose proof (sub_newlines_cleaned (sub_blanks false text) 0) as H2.
  destruct (remove_cr_cleaned (sub_newlines 0 (sub_blanks false text)))
    as [H3 Hcr].
  pose proof (sub_page_numbers_cleaned
                (remove_cr (sub_newlines 0 (sub_blanks false text))) 0) as H4.
  pose proof (strip_cleaned
                (sub_page_numbers 0
                   (remove_cr (sub_newlines 0 (sub_blanks false text)))))
    as H5.
  set (out := strip _) in *.
  assert (Hall : cleaned_from out text).
  { eapply cleaned_from_trans; [exact H5|].
    eapply cleaned_from_trans; [exact H4|].
    eapply cleaned_from_trans; [exact H3|].
    eapply cleaned_from_trans; [exact H2|exact H1]. }
  assert (Hnotab : Forall (fun c => c <> TAB) out).
  { apply (cleaned_from_avoids TAB out (sub_blanks false text));
      [done|done| |done].
    eapply cleaned_from_trans; [exact H5|].
    eapply cleaned_from_trans; [exact H4|].
    eapply cleaned_from_trans; [exact H3|exact H2]. }
  assert (Hnocr : Forall (fun c => c <> CR) out).
  { apply (cleaned_from_avoids CR out
             (remove_cr (sub_newlines 0 (sub_blanks false text))));
      [done|done| |done].
    eapply cleaned_from_trans; [exact H5|exact H4]. }
  destruct Hall as [Hlen Hchars].
  split_and!; [done| |done|apply strip_ends..].
  rewrite Forall_forall in *. intros c Hc. split; auto.
Qed.

End Preprocess.

Section LongParagraphContent.

Lemma combine_sentences_pairs (n : nat) :
  forall pieces : list str,
    length pieces <= n -> combine_sentences pieces = sentence_pairs pieces.
Proof.
  induction n as [|n IH]; intros pieces Hlen.
  - destruct pieces; [done|simpl in Hlen; lia].
  - destruct pieces as [|a [|b rest]]; [done|done|].
    cbn [sentence_pairs]. rewrite <- (IH rest) by (simpl in Hlen; lia).
    unfold combine_sentences, py_range. cbn [length].
    replace ((S (S (length rest)) - 1 - 0 + 2 - 1) / 2)
      with (S ((length rest - 1 - 0 + 2 - 1) / 2)).
    2:{ destruct (length rest) as [|k]; [done|].
        replace (S (S (S k)) - 1 - 0 + 2 - 1) with (k + 1 + 1 * 2) by lia.
        rewrite Nat.div_add by lia.
        replace (S k - 1 - 0 + 2 - 1) with (k + 1) by lia. lia. }
    cbn [seq map]. rewrite <- seq_shift, !map_map.
    f_equal.
Qed.

Lemma sentence_pairs_cons (a b : str) (rest : list str) :
  sentence_pairs (a :: b :: rest) = strip (a ++ b) :: sentence_pairs rest.
Proof. reflexivity. Qed.

Lemma sentence_pairs_content (s : str) :
  nonspace (concat (sentence_pairs (split_sentences s)))
    = nonspace (terminated_prefix s) /\
  exists (a : str) (tl : list str),
    split_sentences s = a :: tl /\
    (tl = [] <-> terminated_prefix s = []).
Proof.
  induction s as [|c s (IH & a & tl & Hsplit & Hnil & Hcons)].
  - split; [done|]. by exists [], [].
  - cbn [split_sentences terminated_prefix].
    destruct (is_terminator c) eqn:Hc.
    + split.
      * rewrite sentence_pairs_cons. cbn [concat].
        rewrite nonspace_app, IH, nonspace_strip. cbn [app].
        destruct (terminated_prefix s); [by rewrite app_nil_r|].
        by rewrite <- nonspace_app.
      * exists [], ([c] :: split_sentences s). split; [done|].
        split; [done|]. by destruct (terminated_prefix s).
    + rewrite Hsplit in *. cbn [cons_head]. destruct tl as [|b tl].
      * rewrite (Hnil eq_refl). split; [done|]. by exists (c :: a), [].
      * rewrite sentence_pairs_cons in *. cbn [concat] in *.
        rewrite nonspace_app, nonspace_strip in *.
        destruct (terminated_prefix s) as [|t p] eqn:Ht.
        { by specialize (Hcons eq_refl). }
        split; [|exists (c :: a), (b :: tl); by split].
        change (nonspace (c :: t :: p)) with (nonspace ([c] ++ t :: p)).
        rewrite (nonspace_app [c]), <- IH.
        change ((c :: a) ++ b) with ([c] ++ (a ++ b)).
        by rewrite (nonspace_app [c]), <- app_assoc.
Qed.

Lemma pack_sentences_content (size : nat) (sentences : list str) :
  forall (current : str) (chunks : list str),
    pack_sentences size current sentences = Some chunks ->
    nonspace (concat chunks)
    = nonspace current ++ nonspace (concat sentences).
Proof.
  assert (Hflush : forall current : str,
            nonspace (concat (if nonempty current then [strip current]
                              else []))
            = nonspace current).
  { intros [|c r]; [done|]. cbn [nonempty concat].
    by rewrite app_nil_r, nonspace_strip. }
  induction sentences as [|sentence rest IH]; intros current chunks;
    cbn [pack_sentences concat].
  - intros [= <-]. by rewrite Hflush, app_nil_r.
  - destruct sentence as [|c r]; cbn [nonempty negb]; [apply IH|].
    destruct (_ <=? size).
    { intros H. rewrite (IH _ _ H), !nonspace_app. by rewrite <- app_assoc. }
    destruct (size <? _).
    + intros (sub & Hsub & (later & Hlater & [= <-])%bind_Some)%bind_Some.
      destruct (Nat.eq_dec size 0) as [->|Hpos]; [done|].
      destruct (force_split_pieces (c :: r) size ltac:(lia))
        as (pieces & Hpieces & Hcat & _).
      rewrite Hsub in Hpieces. injection Hpieces as <-.
      by rewrite !concat_app, !nonspace_app, Hflush, (IH _ _ Hlater), Hcat.
    + intros (later & Hlater & [= <-])%bind_Some.
      by rewrite concat_app, !nonspace_app, Hflush, (IH _ _ Hlater).
Qed.

End LongParagraphContent.

Section LongParagraphTheorems.

Lemma terminated_prefix_whole (body : str) (t : N) :
  is_terminator t = true -> terminated_prefix (body ++ [t]) = body ++ [t].
Proof.
  intros Ht. induction body as [|c body IH]; cbn [app terminated_prefix].
  - by rewrite Ht.
  - rewrite IH. by destruct body.
Qed.

(** X4. With a positive [chunk_size] and no overlap,
    [_split_long_paragraph] returns chunks whose non-whitespace characters,
    read in order, are those of the paragraph up to and including its last
    sentence terminator: what follows the last terminator is dropped,
    nothing else but whitespace is. A paragraph that ends with a terminator
    loses whitespace only. *)
Theorem split_long_paragraph_content (self : t) (paragraph : str) :
  0 < chunk_size self ->
  chunk_overlap self = 0 ->
  exists chunks : list str,
    _split_long_paragraph self paragraph = Some chunks /\
    nonspace (concat chunks) = nonspace (terminated_prefix paragraph) /\
    (forall (body : str) (last : N),
       paragraph = body ++ [last] -> is_terminator last = true ->
       nonspace (concat chunks) = nonspace paragraph).
Proof.
  intros Hsize Hov. unfold _split_long_paragraph. rewrite Hov.
  destruct (pack_sentences_total (chunk_size self)
              (combine_sentences (split_sentences paragraph)) Hsize [])
    as [chunks Hpack].
  rewrite Hpack. exists chunks. cbn [mbind option_bind Nat.ltb Nat.leb].
  split; [done|].
  assert (Hcontent : nonspace (concat chunks)
                     = nonspace (terminated_prefix paragraph)).
  { rewrite (pack_sentences_content _ _ _ _ Hpack).
    rewrite (combine_sentences_pairs _ _ (le_n _)).
    apply sentence_pairs_content. }
  split; [done|]. intros body last -> Hlast.
  by rewrite Hcontent, terminated_prefix_whole.
Qed.

(** The hypotheses of [split_long_paragraph_content] at a splitter without
    overlap and two sentences. *)
Lemma split_long_paragraph_content_witness :
  exists chunks : list str,
    _split_long_paragraph (mk 4 0) [97; 12290; 32; 98; 99; 12290]%N
      = Some chunks /\
    nonspace (concat chunks)
      = nonspace (terminated_prefix [97; 12290; 32; 98; 99; 12290]%N) /\
    (forall (body : str) (last : N),
       [97; 12290; 32; 98; 99; 12290]%N = body ++ [last] ->
       is_terminator last = true ->
       nonspace (concat chunks) = nonspace [97; 12290; 32; 98; 99; 12290]%N).
Proof.
  apply (split_long_paragraph_content (mk 4 0)); [simpl; lia|reflexivity].
Defined.

Lemma split_long_paragraph_bound_no_overlap (self : t) (paragraph : str)
    (l : list str) :
  chunk_overlap self = 0 ->
  _split_long_paragraph self paragraph = Some l ->
  Forall (fun c => length c <= chunk_size self) l.
Proof.
  intros Hov. unfold _split_long_paragraph. rewrite Hov.
  intros (chunks & Hpack & [= <-])%bind_Some.
  apply pack_sentences_bound in Hpack; [done|simpl; lia].
Qed.

Lemma chunk_paragraphs_bound_no_overlap (self : t) (merged : list str) :
  chunk_overlap self = 0 ->
  forall l : list str,
    chunk_paragraphs self merged = Some l ->
    Forall (fun c => length c <= chunk_size self) l.
Proof.
  intros Hov. induction merged as [|paragraph rest IH]; intros l; simpl.
  - intros [= <-]. constructor.
  - intros (here & Hhere & (later & Hlater & [= <-])%bind_Some)%bind_Some.
    rewrite Forall_app. split; [|by apply IH].
    destruct (Nat.leb_spec (length paragraph) (chunk_size self)).
    + injection Hhere as <-. constructor; [|constructor].
      pose proof (strip_length paragraph). lia.
    + by eapply split_long_paragraph_bound_no_overlap.
Qed.

(** X6. When [chunk_overlap] is zero, no chunk that [split_text] returns is
    longer than [chunk_size], the maximum the docstring of [__init__]
    gives. *)
Theorem split_text_bound_without_overlap (self : t) (text : str)
    (chunks : list str) :
  chunk_overlap self = 0 ->
  split_text self text = Some chunks ->
  Forall (fun c : str => length c <= chunk_size self) chunks.
Proof.
  intros Hov. unfold split_text. destruct (nonempty text); simpl.
  - intros (final & Hfinal & [= <-])%bind_Some.
    apply (chunk_paragraphs_bound_no_overlap self _ Hov) in Hfinal.
    rewrite Forall_forall in *. intros c Hc.
    apply list_elem_of_In, filter_In in Hc as [Hc _].
    apply Hfinal. by apply list_elem_of_In.
  - intros [= <-]. constructor.
Qed.

(** The hypotheses of [split_text_bound_without_overlap] at two sentences of
    500 characters. *)
Lemma split_text_bound_without_overlap_witness :
  Forall (fun c : str => length c <= 500)
    [repeat 97%N 499 ++ [12290%N]; repeat 98%N 499 ++ [12290%N]].
Proof.
  apply (split_text_bound_without_overlap (mk 500 0)
           Inputs.two_full_sentences);
    [reflexivity|vm_compute; reflexivity].
Defined.

End LongParagraphTheorems.

(** ** More on the confidence *)

Section Rounding.

Import PyNum.
Local Open Scope Qc_scope.

Ltac qc_to_q :=
  unfold Qcle, Qclt, Qcminus, Qcdiv, Qcplus, Qcopp, Qcmult, Qcinv in *;
  cbn [this Q2Qc] in *;
  rewrite ?Qred_correct in *;
  change (/ (1 + 1))%Q with (1 # 2)%Q in *;
  change (1 + 1)%Q with (2 # 1)%Q in *.

Lemma Qc_of_Z_le (a b : Z) : (a <= b)%Z -> Qc_of_Z a ≤ Qc_of_Z b.
Proof. apply (proj1 (Z2Qc_inj_le _ _)). Qed.

Lemma floor_below (x : Qc) : Qc_of_Z (Qfloor x) ≤ x.
Proof. apply Qfloor_le. Qed.

Lemma floor_above (x : Qc) : x < Qc_of_Z (Qfloor x + 1).
Proof. apply Qlt_floor. Qed.

Lemma floor_of_Z (n : Z) : Qfloor (Qc_of_Z n) = n.
Proof. apply Qfloor_Z. Qed.

Lemma round_half_even_bounds (x : Qc) :
  (Qfloor x <= round_half_even x <= Qfloor x + 1)%Z.
Proof. unfold round_half_even. repeat case_decide; try destruct (Z.even _); lia. Qed.

Lemma round_half_even_of_Z (n : Z) : round_half_even (Qc_of_Z n) = n.
Proof.
  unfold round_half_even. rewrite floor_of_Z.
  rewrite decide_True; [done|]. qc_to_q. lra.
Qed.

Lemma round_half_even_mono (x y : Qc) :
  x ≤ y -> (round_half_even x <= round_half_even y)%Z.
Proof.
  intros Hxy.
  assert (Qfloor x <= Qfloor y)%Z as Hf by (by apply Qfloor_resp_le).
  pose proof (round_half_even_bounds x) as Hx.
  pose proof (round_half_even_bounds y) as Hy.
  destruct (decide (Qfloor x = Qfloor y)) as [E|]; [|lia].
  clear Hx Hy. unfold round_half_even. rewrite <- E.
  set (f := Qfloor x).
  assert (x - Qc_of_Z f ≤ y - Qc_of_Z f) as Hr
    by (unfold Qcminus; apply Qcplus_le_compat; [done | apply Qcle_refl]).
  fold (x - Qc_of_Z f) (y - Qc_of_Z f) in Hr |- *.
  set (rx := x - Qc_of_Z f) in *. set (ry := y - Qc_of_Z f) in *.
  destruct (decide (rx < Q2Qc (1 # 2))) as [Hx1|Hx1].
  { repeat case_decide; try destruct (Z.even f); lia. }
  destruct (decide (Q2Qc (1 # 2) < rx)) as [Hx2|Hx2].
  { rewrite (decide_False (P := ry < _)), (decide_True (P := _ < ry)).
    - lia.
    - eapply Qclt_le_trans; eauto.
    - apply Qcle_not_lt. apply Qclt_le_weak. eapply Qclt_le_trans; eauto. }
  rewrite (decide_False (P := ry < _)).
  - case_decide; destruct (Z.even f); lia.
  - apply Qcle_not_lt. apply Qcnot_lt_le in Hx1. eapply Qcle_trans; eauto.
Qed.

Lemma scale_pos (ndigits : nat) : 0 < Qc_of_Z (10 ^ Z.of_nat ndigits).
Proof.
  rewrite <- Z2Qc_inj_0. apply (proj1 (Z2Qc_inj_lt _ _)). apply Z.pow_pos_nonneg; lia.
Qed.

Lemma py_round_mono (x y : Qc) (ndigits : nat) :
  x ≤ y -> py_round x ndigits ≤ py_round y ndigits.
Proof.
  intros Hxy. unfold py_round.
  pose proof (scale_pos ndigits) as Hs.
  set (s := Qc_of_Z (10 ^ Z.of_nat ndigits)) in *.
  assert (x * s ≤ y * s) as Hm.
  { apply Qcmult_le_compat_r; [done|]. by apply Qclt_le_weak. }
  apply round_half_even_mono, Qc_of_Z_le in Hm.
  unfold Qcdiv. apply Qcmult_le_compat_r; [done|].
  apply Qclt_le_weak, Qcinv_pos. done.
Qed.

Lemma Qc_of_Z_mult (a b : Z) : Qc_of_Z a * Qc_of_Z b = Qc_of_Z (a * b).
Proof. by rewrite Z2Qc_inj_mul. Qed.

Lemma py_round_of_Z (n : Z) (ndigits : nat) :
  py_round (Qc_of_Z n) ndigits = Qc_of_Z n.
Proof.
  unfold py_round. rewrite Qc_of_Z_mult, round_half_even_of_Z, <- Qc_of_Z_mult.
  apply Qcdiv_mult_l. intros E. pose proof (scale_pos ndigits) as H.
  rewrite E in H. by apply Qclt_not_eq in H.
Qed.

Lemma py_round_unit (x : Qc) (ndigits : nat) :
  (0 ≤ x -> 0 ≤ py_round x ndigits) /\ (x ≤ 1 -> py_round x ndigits ≤ 1).
Proof.
  split; intros H; apply (py_round_mono _ _ ndigits) in H.
  - by rewrite <- Z2Qc_inj_0, py_round_of_Z, Z2Qc_inj_0 in H.
  - by rewrite <- Z2Qc_inj_1, py_round_of_Z, Z2Qc_inj_1 in H.
Qed.

End Rounding.

Section ConfidenceRange.

Import PyNum LLMService.
Local Open Scope Qc_scope.

Ltac qc_to_q :=
  unfold Qcle, Qclt, Qcminus, Qcdiv, Qcplus, Qcopp, Qcmult, Qcinv in *;
  cbn [this Q2Qc] in *;
  rewrite ?Qred_correct in *;
  change (/ (1 + 1))%Q with (1 # 2)%Q in *;
  change (1 + 1)%Q with (2 # 1)%Q in *.

Lemma py_min_spec (a b : Qc) :
  (py_min a b = a \/ py_min a b = b) /\ py_min a b ≤ a /\ py_min a b ≤ b.
Proof.
  unfold py_min. case_decide as H.
  - split_and!; [by right | by apply Qclt_le_weak | apply Qcle_refl].
  - split_and!; [by left | apply Qcle_refl | by apply Qcnot_lt_le].
Qed.

(** [min] returns an element of the list that is below all the others. *)
Lemma fold_py_min_spec (ds : list Qc) :
  forall d : Qc,
    fold_left py_min ds d ∈ d :: ds /\
    Forall (fun x => fold_left py_min ds d ≤ x) (d :: ds).
Proof.
  induction ds as [|x ds IH]; intros d; cbn [fold_left].
  - split; [by left | by repeat constructor; apply Qcle_refl].
  - destruct (IH (py_min d x)) as [Hin Hle].
    destruct (py_min_spec d x) as (Hcase & Hd & Hx).
    apply Forall_cons in Hle as [Hm Hle]. split.
    + apply elem_of_cons in Hin as [-> | Hin].
      * destruct Hcase as [-> | ->]; [by left | by right; left].
      * by right; right.
    + repeat constructor; [by eapply Qcle_trans | by eapply Qcle_trans | done].
Qed.

Lemma py_min_list_perm (l l' : list Qc) :
  l ≡ₚ l' -> py_min_list l = py_min_list l'.
Proof.
  intros Hp. destruct l as [|d ds], l' as [|d' ds'].
  - done.
  - by apply Permutation_nil_l in Hp.
  - by apply Permutation_nil_r in Hp.
  - cbn [py_min_list]. f_equal.
    destruct (fold_py_min_spec ds d) as [Hin Hle].
    destruct (fold_py_min_spec ds' d') as [Hin' Hle'].
    apply Qcle_antisym.
    + rewrite Forall_forall in Hle. apply Hle. by rewrite Hp.
    + rewrite Forall_forall in Hle'. apply Hle'. by rewrite <- Hp.
Qed.

Lemma similarity_nonneg (m : Qc) : 0 ≤ py_max 0 (1 - m / 2).
Proof.
  unfold py_max. case_decide as H; [by apply Qclt_le_weak | apply Qcle_refl].
Qed.

Lemma boosted_unit (s : Qc) :
  0 ≤ s -> 0 ≤ py_min 1 (s + Q2Qc (1 # 10)) /\ py_min 1 (s + Q2Qc (1 # 10)) ≤ 1.
Proof.
  intros Hs. destruct (py_min_spec 1 (s + Q2Qc (1 # 10))) as ([-> | ->] & H1 & H2).
  - split; [done | apply Qcle_refl].
  - split; [|done]. clear H1 H2. qc_to_q. lra.
Qed.

(** X7. The confidence is never negative and is a whole number of
    hundredths; when no distance is negative it is at most 1. *)
Theorem calculate_confidence_range (query : str) (context_docs : list str)
    (distances : list Qc) :
  exists hundredths : Z,
    calculate_confidence query context_docs distances
      = Qc_of_Z hundredths / Qc_of_Z 100 /\
    (0 <= hundredths)%Z /\
    0 ≤ calculate_confidence query context_docs distances /\
    (Forall (fun d => 0 ≤ d) distances ->
     (hundredths <= 100)%Z /\
     calculate_confidence query context_docs distances ≤ 1).
Proof.
  unfold calculate_confidence.
  destruct (py_min_list distances) as [m|] eqn:Hmin.
  - set (s := if (2 <=? _)%nat then _ else _).
    assert (0 ≤ s) as Hs.
    { unfold s. destruct (2 <=? _)%nat.
      - apply boosted_unit, similarity_nonneg.
      - apply similarity_nonneg. }
    exists (round_half_even (s * Qc_of_Z (10 ^ Z.of_nat 2))).
    pose proof (round_half_even_mono 0 (s * Qc_of_Z (10 ^ Z.of_nat 2))) as H0.
    rewrite <- Z2Qc_inj_0, round_half_even_of_Z in H0.
    split_and!.
    + reflexivity.
    + apply H0. rewrite Z2Qc_inj_0.
      pose proof (Qcmult_le_compat_r 0 s _ Hs (Qclt_le_weak _ _ (scale_pos 2)))
        as Hm.
      by rewrite Qcmult_0_l in Hm.
    + by apply py_round_unit.
    + intros Hpos.
      assert (s ≤ 1) as Hs1.
      { unfold s. destruct (2 <=? _)%nat.
        - apply boosted_unit, similarity_nonneg.
        - apply py_max_le_1, half_le_1.
          destruct distances as [|d ds]; [discriminate|].
          injection Hmin as <-. apply Forall_cons in Hpos as [Hd Hds].
          by apply fold_py_min_nonneg. }
      split; [|by apply py_round_unit].
      pose proof (round_half_even_mono (s * Qc_of_Z (10 ^ Z.of_nat 2))
                    (Qc_of_Z 100)) as H1.
      rewrite round_half_even_of_Z in H1. apply H1.
      pose proof (Qcmult_le_compat_r s 1 _ Hs1 (Qclt_le_weak _ _ (scale_pos 2)))
        as Hm.
      by rewrite Qcmult_1_l in Hm.
  - exists 0%Z. split_and!; [by apply Qc_is_canon | done | apply Qcle_refl |].
    intros _. split; [lia | discriminate].
Qed.

Lemma calculate_confidence_range_witness :
  exists hundredths : Z,
    calculate_confidence (utf8 "diet") [] MetricInputs.distances_E
      = Qc_of_Z hundredths / Qc_of_Z 100 /\
    (0 <= hundredths <= 100)%Z.
Proof.
  destruct (calculate_confidence_range (utf8 "diet") [] MetricInputs.distances_E)
    as (n & E & H0 & _ & H1).
  exists n. split; [exact E|]. split; [exact H0|].
  apply H1. repeat constructor; discriminate.
Defined.

(** X8. The confidence depends on the distances only, and not on their
    order. *)
Theorem calculate_confidence_order (query query' : str)
    (context_docs context_docs' : list str) (distances distances' : list Qc) :
  distances ≡ₚ distances' ->
  calculate_confidence query context_docs distances =
  calculate_confidence query' context_docs' distances'.
Proof.
  intros Hp. unfold calculate_confidence.
  rewrite (py_min_list_perm _ _ Hp).
  destruct (py_min_list distances'); [|done].
  assert (forall f : Qc -> bool,
            length (List.filter f distances) = length (List.filter f distances'))
    as ->; [|done].
  intros f. apply Permutation_length. clear -Hp.
  induction Hp as [|x l l' Hp IH|x y l|l l' l'' Hp1 IH1 Hp2 IH2];
    cbn [List.filter].
  - done.
  - destruct (f x); [by constructor | done].
  - destruct (f x), (f y); try done. apply perm_swap.
  - by etransitivity.
Qed.

Lemma calculate_confidence_order_witness :
  calculate_confidence (utf8 "diet") [utf8 "salt"]
    [Q2Qc (3 # 10); Q2Qc (1 # 10)] =
  calculate_confidence (utf8 "food") []
    [Q2Qc (1 # 10); Q2Qc (3 # 10)].
Proof.
  apply (calculate_confidence_order (utf8 "diet") (utf8 "food") [utf8 "salt"] []
           [Q2Qc (3 # 10); Q2Qc (1 # 10)] [Q2Qc (1 # 10); Q2Qc (3 # 10)]).
  apply perm_swap.
Defined.


End ConfidenceRange.

(** ** More on the scorer *)

Section References.

Import Medical.

Lemma first_per_id_spec (metas : list metadata) :
  forall earlier : list str,
    NoDup (map doc_id_of (Spec.first_per_id earlier metas)) /\
    (forall meta, meta ∈ Spec.first_per_id earlier metas ->
       meta ∈ metas /\ doc_id_of meta <> [] /\ doc_id_of meta ∉ earlier) /\
    (forall meta, meta ∈ metas -> doc_id_of meta <> [] ->
       doc_id_of meta ∉ earlier ->
       doc_id_of meta ∈ map doc_id_of (Spec.first_per_id earlier metas)) /\
    length (Spec.first_per_id earlier metas) <= length metas.
Proof.
  induction metas as [|meta rest IH]; intros earlier; cbn [Spec.first_per_id].
  - split_and!; [constructor | by intros ? ?%elem_of_nil
                | by intros ? ?%elem_of_nil | done].
  - destruct (IH (earlier ++ [doc_id_of meta])) as (Hnd & Hin & Hcov & Hlen).
    assert (forall m, m ∈ Spec.first_per_id (earlier ++ [doc_id_of meta]) rest ->
              m ∈ meta :: rest /\ doc_id_of m <> [] /\ doc_id_of m ∉ earlier)
      as Hin'.
    { intros m Hm. destruct (Hin m Hm) as (H1 & H2 & H3).
      split_and!; [by right | done |].
      intros H. apply H3, elem_of_app. by left. }
    assert (forall m, m ∈ rest -> doc_id_of m <> [] -> doc_id_of m ∉ earlier ->
              doc_id_of m <> doc_id_of meta ->
              doc_id_of m ∈ map doc_id_of
                (Spec.first_per_id (earlier ++ [doc_id_of meta]) rest))
      as Hcov'.
    { intros m Hm Hne Hnew Hdiff. apply Hcov; [done | done |].
      rewrite elem_of_app, list_elem_of_singleton. tauto. }
    destruct (decide _) as [[Hne Hnew]|Hold]; cbn [app map length].
    + split_and!.
      * constructor; [|done]. intros Hdup.
        apply list_elem_of_fmap in Hdup as (m & E & Hm).
        destruct (Hin m Hm) as (_ & _ & H3). apply H3.
        rewrite elem_of_app, list_elem_of_singleton. by right.
      * intros m [-> | Hm]%elem_of_cons; [|by apply Hin'].
        split_and!; [by left | done | done].
      * intros m [-> | Hm]%elem_of_cons Hne' Hnew'; [by left|].
        destruct (decide (doc_id_of m = doc_id_of meta)) as [-> | Hdiff];
          [by left|]. right. by apply Hcov'.
      * lia.
    + split_and!; [done | done | | lia].
      intros m [-> | Hm]%elem_of_cons Hne' Hnew'; [by destruct Hold|].
      apply Hcov'; [done | done | done |].
      intros E. apply Hold. by rewrite <- E.
Qed.

Lemma build_references_firsts (metas : list metadata) :
  build_references metas = map reference_of (Spec.first_per_id [] metas).
Proof.
  exact (build_references_first_per_id (fun _ _ _ => inr None) unit
           (fun _ => inr ()) (fun _ _ _ => []) metas).
Qed.

(** X9. The references that [medical_chat] returns name pairwise
    different documents, are at most [max_results] and at most one per
    filtered hit, each is built from a filtered hit that names a document,
    and before the cut every document named by a filtered hit is cited. *)
Theorem references_distinct_documents (filtered_metas : list metadata)
    (max_results : nat) :
  let references := take max_results (build_references filtered_metas) in
  NoDup (map title references) /\
  length references <= max_results /\
  length references <= length filtered_metas /\
  (forall reference, reference ∈ references ->
     exists meta, meta ∈ filtered_metas /\ doc_id_of meta <> [] /\
       reference = reference_of meta) /\
  (forall meta, meta ∈ filtered_metas -> doc_id_of meta <> [] ->
     title (reference_of meta) ∈ map title (build_references filtered_metas)).
Proof.
  intros references. unfold references. clear references.
  rewrite build_references_firsts.
  destruct (first_per_id_spec filtered_metas []) as (Hnd & Hin & Hcov & Hlen).
  set (firsts := Spec.first_per_id [] filtered_metas) in *.
  split_and!.
  - assert (NoDup (map title (map reference_of firsts))) as Hall.
    { rewrite <- list_fmap_compose.
      replace (title ∘ reference_of)
        with ((fun doc_id => utf8 "文档 " ++ doc_id) ∘ doc_id_of) by done.
      rewrite list_fmap_compose. apply NoDup_fmap_2; [|done].
      intros a b. apply app_inv_head. }
    eapply sublist_NoDup; [exact Hall|]. apply fmap_sublist, sublist_take.
  - rewrite length_take. lia.
  - rewrite length_take, length_map. lia.
  - intros reference Href. apply elem_of_take in Href as (i & Href & _).
    apply list_elem_of_lookup_2, list_elem_of_fmap in Href as (meta & -> & Hm).
    exists meta. destruct (Hin meta Hm) as (H1 & H2 & _). done.
  - intros meta Hm Hne.
    assert (doc_id_of meta ∈ map doc_id_of firsts) as Hc.
    { apply Hcov; [done | done | apply not_elem_of_nil]. }
    apply list_elem_of_fmap in Hc as (m & E & Hm').
    apply list_elem_of_fmap. exists (reference_of m). split.
    + cbn [reference_of title]. by rewrite E.
    + apply list_elem_of_fmap. by exists m.
Qed.

Lemma references_distinct_documents_witness :
  title (reference_of (ChatInputs.meta_of "doc_002" "endocrinology"))
    ∈ map title
        (build_references
           [ChatInputs.meta_of "doc_001" "cardiology";
            ChatInputs.meta_of "doc_002" "endocrinology"]).
Proof.
  destruct (references_distinct_documents
              [ChatInputs.meta_of "doc_001" "cardiology";
               ChatInputs.meta_of "doc_002" "endocrinology"] 5)
    as (_ & _ & _ & _ & H).
  apply H.
  - right. left.
  - vm_compute. discriminate.
Defined.

End References.

Section ChatPaths.

Import Medical.
Local Open Scope Qc_scope.

Variable SIMILARITY_THRESHOLD : Qc.
Variable search : str -> nat -> option metadata -> exn + option QueryResult.
Variable embedding : Type.
Variable encode_single : str -> exn + embedding.
Variable generate_answer : str -> list str -> option PatientProfile -> str.



(** X11. How the route fails. An exception of the search, of the encoder
    once a hit has passed the filter, or a search result with fewer ids
    than documents, gives status 500 and the exception's message behind
    a fixed prefix; the route never returns another status. *)
Theorem chat_failures (request : ChatRequest) :
  (forall e : exn,
     search (query request) (top_k_of request) (where_of request) = inl e ->
     medical_chat SIMILARITY_THRESHOLD search embedding encode_single
       generate_answer request =
       inl {| status_code := 500;
              detail := utf8 "问答失败: " ++ exn_message e |}) /\
  (forall (results : QueryResult) (documents0 : list str)
          (metadatas0 : list metadata) (distances0 : list Qc),
     search (query request) (top_k_of request) (where_of request)
       = inr (Some results) ->
     index0 (documents results) = inr documents0 ->
     index0 (metadatas results) = inr metadatas0 ->
     index0 (distances results) = inr distances0 ->
     Spec.kept SIMILARITY_THRESHOLD (zip3 documents0 metadatas0 distances0)
       <> [] ->
     (forall e : exn,
        encode_single (query request) = inl e ->
        medical_chat SIMILARITY_THRESHOLD search embedding encode_single
          generate_answer request =
          inl {| status_code := 500;
                 detail := utf8 "问答失败: " ++ exn_message e |}) /\
     (forall (v : embedding) (ids0 : list str),
        encode_single (query request) = inr v ->
        index0 (ids results) = inr ids0 ->
        (length ids0 < length documents0)%nat ->
        medical_chat SIMILARITY_THRESHOLD search embedding encode_single
          generate_answer request =
          inl {| status_code := 500;
                 detail := utf8 "问答失败: " ++ exn_message IndexError |}) /\
     (forall (v : embedding) (ids0 : list str),
        encode_single (query request) = inr v ->
        index0 (ids results) = inr ids0 ->
        (length documents0 <= length ids0)%nat ->
        (length documents0 <= length metadatas0)%nat ->
        (length documents0 <= length distances0)%nat ->
        exists response,
          medical_chat SIMILARITY_THRESHOLD search embedding encode_single
            generate_answer request = inr response)) /\
  (forall failure : HTTPException,
     medical_chat SIMILARITY_THRESHOLD search embedding encode_single
       generate_answer request = inl failure ->
     status_code failure = 500 /\
     exists e : exn, detail failure = utf8 "问答失败: " ++ exn_message e).
Proof.
  unfold medical_chat, chat_body. split_and!.
  - by intros e ->.
  - intros results documents0 metadatas0 distances0 -> Hdocs Hmetas Hdists Hne.
    destruct (documents results) as [|d0 rest]; [discriminate Hdocs|].
    injection Hdocs as ->. destruct documents0 as [|doc docs].
    { by destruct Hne. }
    rewrite Hmetas, Hdists, filter_hits_kept.
    destruct (Spec.kept _ _) as [|hit hits]; [by destruct Hne|].
    cbn [Spec.unzip_hits map nonempty_list negb]. unfold rag_details.
    split_and!.
    + by intros e ->.
    + intros v ids0 -> -> Hlt. cbn [nonempty_list negb].
      apply Nat.ltb_lt in Hlt. by rewrite Hlt.
    + intros v ids0 -> -> H1 H2 H3. cbn [nonempty_list negb].
      rewrite !(proj2 (Nat.ltb_ge _ _)) by done. cbn [orb]. by eexists.
  - intros failure. destruct (match search _ _ _ with inl e => _ | inr _ => _ end)
      as [e|response]; [|discriminate].
    intros [= <-]. split; [done | by exists e].
Qed.

End ChatPaths.

Section ChatPathsWitnesses.

Import Medical ChatInputs.
Local Open Scope Qc_scope.


(** The hypotheses of [chat_failures] at a search that raises, at an encoder
    that raises and at a search result with two ids for three documents. *)
Lemma chat_failures_witness :
  medical_chat (Q2Qc (2 # 10)) FailureInputs.failing_search unit encode_single
    generate_answer request =
  inl {| status_code := 500;
         detail := utf8 "问答失败: " ++ utf8 "collection is gone" |} /\
  medical_chat (Q2Qc (2 # 10)) search unit FailureInputs.failing_encoder
    generate_answer request =
  inl {| status_code := 500;
         detail := utf8 "问答失败: " ++ utf8 "model not loaded" |} /\
  medical_chat (Q2Qc (2 # 10)) FailureInputs.short_search unit encode_single
    generate_answer request =
  inl {| status_code := 500;
         detail := utf8 "问答失败: " ++ exn_message IndexError |} /\
  exists response,
    medical_chat (Q2Qc (2 # 10)) search unit encode_single generate_answer
      request = inr response.
Proof.
  assert (Spec.kept (Q2Qc (2 # 10))
            (zip3 [utf8 "salt"; utf8 "potassium"; utf8 "sugar"]
               (default [] (head (metadatas results)))
               MetricInputs.distances_E) <> []) as Hne.
  { intros E. apply (f_equal length) in E. vm_compute in E. discriminate E. }
  split_and!.
  - apply (proj1 (chat_failures (Q2Qc (2 # 10)) FailureInputs.failing_search
                    unit encode_single generate_answer request)
             (Exn "RuntimeError" (utf8 "collection is gone"))).
    reflexivity.
  - destruct (chat_failures (Q2Qc (2 # 10)) search unit
                FailureInputs.failing_encoder generate_answer request)
      as (_ & H & _).
    destruct (H results [utf8 "salt"; utf8 "potassium"; utf8 "sugar"]
                (default [] (head (metadatas results)))
                MetricInputs.distances_E eq_refl eq_refl eq_refl eq_refl Hne)
      as (Henc & _).
    apply (Henc (Exn "RuntimeError" (utf8 "model not loaded"))). reflexivity.
  - destruct (chat_failures (Q2Qc (2 # 10)) FailureInputs.short_search unit
                encode_single generate_answer request)
      as (_ & H & _).
    destruct (H FailureInputs.short_results
                [utf8 "salt"; utf8 "potassium"; utf8 "sugar"]
                (default [] (head (metadatas results)))
                MetricInputs.distances_E eq_refl eq_refl eq_refl eq_refl Hne)
      as (_ & Hshort & _).
    apply (Hshort () [utf8 "vec_001"; utf8 "vec_002"]);
      [reflexivity | reflexivity | simpl; lia].
  - destruct (chat_failures (Q2Qc (2 # 10)) search unit encode_single
                generate_answer request)
      as (_ & H & _).
    destruct (H results [utf8 "salt"; utf8 "potassium"; utf8 "sugar"]
                (default [] (head (metadatas results)))
                MetricInputs.distances_E eq_refl eq_refl eq_refl eq_refl Hne)
      as (_ & _ & Hok).
    apply (Hok () [utf8 "vec_001"; utf8 "vec_002"; utf8 "vec_003"]);
      [reflexivity | reflexivity | simpl; lia | simpl; lia | simpl; lia].
Defined.

End ChatPathsWitnesses.

Section SimilarQueries.

Import Medical.

(** X12. The suggested queries do not depend on the documents; there are
    none, or exactly three different ones, each starting with the name of
    a disease that the query contains; a query that mentions none of 饮食,
    症状 and 预防 gets none. *)
Theorem similar_queries_shape (query : str) (context_docs : list str) :
  let suggestions := _generate_similar_queries query context_docs in
  suggestions = _generate_similar_queries query [] /\
  (suggestions = [] \/
   length suggestions = 3 /\ NoDup suggestions /\
   exists disease,
     disease ∈ [utf8 "高血压"; utf8 "糖尿病"; utf8 "冠心病"] /\
     contains disease query = true /\
     Forall (fun s => starts_with disease s = true) suggestions) /\
  (contains (utf8 "饮食") query = false ->
   contains (utf8 "症状") query = false ->
   contains (utf8 "预防") query = false ->
   suggestions = []).
Proof.
  cbv zeta. unfold _generate_similar_queries. split_and!.
  - reflexivity.
  - destruct (contains (utf8 "饮食") query).
    + destruct (contains (utf8 "高血压") query) eqn:E1.
      { right. split_and!; [reflexivity | by apply (bool_decide_unpack _); vm_compute |].
        exists (utf8 "高血压"). split_and!; [by apply (bool_decide_unpack _); vm_compute | done |].
        repeat constructor; vm_compute; reflexivity. }
      destruct (contains (utf8 "糖尿病") query) eqn:E2; [|by left].
      right. split_and!; [reflexivity | by apply (bool_decide_unpack _); vm_compute |].
      exists (utf8 "糖尿病"). split_and!; [by apply (bool_decide_unpack _); vm_compute | done |].
      repeat constructor; vm_compute; reflexivity.
    + destruct (contains (utf8 "症状") query || contains (utf8 "预防") query);
        [|by left].
      destruct (contains (utf8 "冠心病") query) eqn:E1.
      { right. split_and!; [reflexivity | by apply (bool_decide_unpack _); vm_compute |].
        exists (utf8 "冠心病"). split_and!; [by apply (bool_decide_unpack _); vm_compute | done |].
        repeat constructor; vm_compute; reflexivity. }
      destruct (contains (utf8 "高血压") query) eqn:E2; [|by left].
      right. split_and!; [reflexivity | by apply (bool_decide_unpack _); vm_compute |].
      exists (utf8 "高血压"). split_and!; [by apply (bool_decide_unpack _); vm_compute | done |].
      repeat constructor; vm_compute; reflexivity.
  - by intros -> -> ->.
Qed.

Lemma similar_queries_shape_witness :
  _generate_similar_queries (utf8 "hello") [utf8 "salt"] = [].
Proof.
  apply (similar_queries_shape (utf8 "hello") [utf8 "salt"]); reflexivity.
Defined.

End SimilarQueries.

(** ** The answer generator *)

Section AnswerFacts.

Import Medical Answer.

Lemma join_snoc (sep : str) (parts : list str) (last : str) :
  parts <> [] -> join sep (parts ++ [last]) = join sep parts ++ sep ++ last.
Proof.
  induction parts as [|p [|q rest] IH]; intros Hne.
  - done.
  - reflexivity.
  - change (join sep ((p :: q :: rest) ++ [last]))
      with (p ++ sep ++ join sep ((q :: rest) ++ [last])).
    rewrite IH by done.
    change (join sep (p :: q :: rest)) with (p ++ sep ++ join sep (q :: rest)).
    by rewrite <- !app_assoc.
Qed.

Lemma join_starts (sep : str) (parts : list str) :
  Forall (fun p => p <> []) parts -> parts <> [] -> join sep parts <> [].
Proof.
  intros Hall Hne. destruct parts as [|p [|q rest]]; [done | |].
  - by apply Forall_cons in Hall as [H _].
  - apply Forall_cons in Hall as [H _]. cbn [join]. by destruct p.
Qed.

Lemma Forall_part {A} (P : A -> Prop) (b : bool) (x : A) :
  P x -> Forall P (if b then [x] else []).
Proof. intros H. destruct b; by repeat constructor. Qed.

Lemma dashed_filled (keep : str -> bool) (docs : list str) :
  Forall (fun p => p <> []) (dashed keep docs).
Proof.
  unfold dashed. apply Forall_forall. intros p Hp.
  apply list_elem_of_fmap in Hp as (doc & -> & _). discriminate.
Qed.

Lemma digits_filled (fuel : nat) :
  forall (n : nat) (acc : list N),
    0 < fuel \/ acc <> [] -> digits fuel n acc <> [].
Proof.
  induction fuel as [|fuel IH]; intros n acc H; cbn [digits].
  - destruct H as [H|H]; [lia | done].
  - cbv zeta. destruct (n <? 10); [discriminate|]. apply IH. by right.
Qed.

Lemma str_of_nat_filled (i : nat) : str_of_nat i <> [].
Proof. apply digits_filled. left. lia. Qed.

Lemma summary_loop_filled (docs : list str) :
  forall (i : nat) (merged_content : list str),
    Forall (fun p => p <> []) (summary_loop i merged_content docs).
Proof.
  induction docs as [|doc rest IH]; intros i merged; cbn [summary_loop].
  - constructor.
  - destruct (_ && _); [|apply IH]. constructor; [|apply IH].
    intros E. apply app_eq_nil in E as [E _]. by apply str_of_nat_filled in E.
Qed.

Lemma rule_parts_filled (query : str) (context_docs : list str) :
  Forall (fun p => p <> []) (rule_parts query context_docs).
Proof.
  unfold rule_parts. cbv zeta.
  repeat match goal with
         | |- Forall _ (if _ then [_] else []) => apply Forall_part
         | |- Forall _ (if ?b then _ else _) => destruct b
         | |- Forall _ (_ ++ _) => apply Forall_app; split
         | |- Forall _ (dashed _ _) => apply dashed_filled
         | |- Forall _ (_ :: _) => apply Forall_cons; split
         | |- Forall _ [] => constructor
         end;
    vm_compute; discriminate.
Qed.

(** X13. An answer is a non-empty body followed by two newlines and the
    fixed disclaimer, which itself starts with two newlines, and it does
    not depend on the patient profile. *)
Theorem generate_answer_shape (query : str) (context_docs : list str)
    (patient_profile : option PatientProfile) :
  generate_answer query context_docs patient_profile =
    generate_answer query context_docs None /\
  exists body : str,
    body <> [] /\
    generate_answer query context_docs patient_profile =
      body ++ [Py.NL; Py.NL] ++ disclaimer.
Proof.
  split; [reflexivity|].
  unfold generate_answer, _generate_rule_based_answer. cbv zeta.
  pose proof (rule_parts_filled query context_docs) as Hrule.
  set (rules := rule_parts query context_docs) in *.
  set (parts1 := if _ && _ then _ else rules).
  assert (Forall (fun p => p <> []) parts1) as H1.
  { unfold parts1. destruct (_ && _); [|done].
    apply Forall_app. split; [done|]. constructor.
    - vm_compute. discriminate.
    - apply summary_loop_filled. }
  set (parts2 := if negb (nonempty_list parts1) then _ else parts1).
  assert (Forall (fun p => p <> []) parts2 /\ parts2 <> []) as [H2 Hne].
  { unfold parts2. destruct parts1 as [|p rest]; cbn [nonempty_list negb].
    - split; [|discriminate]. repeat constructor. vm_compute. discriminate.
    - split; [done | discriminate]. }
  exists (join [Py.NL; Py.NL] parts2). split.
  - by apply join_starts.
  - by apply join_snoc.
Qed.

End AnswerFacts.

Section AnswerInChat.

Import Medical.

Variable SIMILARITY_THRESHOLD : Qc.
Variable search : str -> nat -> option metadata -> exn + option QueryResult.
Variable embedding : Type.
Variable encode_single : str -> exn + embedding.

(** X14. With the answer generator of the repository, the outcome of
    [medical_chat] does not depend on the patient profile of the request. *)
Theorem chat_ignores_patient_profile (query : str)
    (profile profile' : option PatientProfile) (options : option ChatOptions) :
  medical_chat SIMILARITY_THRESHOLD search embedding encode_single
    Answer.generate_answer
    {| query := query; patient_profile := profile; options := options |} =
  medical_chat SIMILARITY_THRESHOLD search embedding encode_single
    Answer.generate_answer
    {| query := query; patient_profile := profile'; options := options |}.
Proof.
  unfold medical_chat. f_equal.
Qed.

End AnswerInChat.

(** ** More on the metrics *)

Section MetricsMore.

Import PyNum Metrics.
Local Open Scope Qc_scope.

Lemma relevant_set_swap (a b : list str) : relevant_set a b = relevant_set b a.
Proof. unfold relevant_set. set_solver. Qed.

(** X15. Exchanging the retrieved documents and the ground truth
    exchanges precision and recall and keeps the F1 score. *)
Theorem calculate_metrics_swap (retrieved_docs ground_truth_docs : list str) :
  let '(precision, recall, f1_score) :=
    calculate_metrics retrieved_docs ground_truth_docs in
  calculate_metrics ground_truth_docs retrieved_docs =
    (recall, precision, f1_score).
Proof.
  unfold calculate_metrics.
  destruct retrieved_docs as [|r rs], ground_truth_docs as [|g gs];
    cbn [is_nil]; try reflexivity.
  rewrite (relevant_set_swap (g :: gs) (r :: rs)).
  set (p := of_nat _ / of_nat (length (r :: rs))).
  set (q := of_nat _ / of_nat (length (g :: gs))).
  rewrite (Qcplus_comm q p), (Qcmult_comm q p). reflexivity.
Qed.

Lemma size_list_to_set_NoDup (l : list str) :
  NoDup l -> size (list_to_set l : gset (list N)) = length l.
Proof.
  induction 1 as [|x l Hx Hnd IH]; [done|].
  rewrite list_to_set_cons, size_union, size_singleton, IH; [done|].
  apply disjoint_singleton_l. by rewrite elem_of_list_to_set.
Qed.

Lemma of_nat_inj (a b : nat) : of_nat a = of_nat b -> a = b.
Proof. unfold of_nat. intros H%Z2Qc_inj. lia. Qed.

Lemma ratio_zero (a b : nat) :
  (0 < b)%nat -> of_nat a / of_nat b = 0 -> a = 0%nat.
Proof.
  intros Hb H. apply of_nat_inj. rewrite of_nat_0.
  assert (of_nat b <> 0) as Hnz.
  { intros E. rewrite <- of_nat_0 in E. apply of_nat_inj in E. lia. }
  rewrite <- (Qcmult_div_r (of_nat a) (of_nat b)) by done.
  rewrite H. ring.
Qed.

Lemma ratio_one (a : nat) : (0 < a)%nat -> of_nat a / of_nat a = 1.
Proof.
  intros Ha. apply Qcmult_inv_r. intros E. rewrite <- of_nat_0 in E.
  apply of_nat_inj in E. lia.
Qed.

(** X16. The three metrics are all 0 exactly when one list is empty or no
    retrieved document is in the ground truth; and when the two lists are
    without repetition and hold the same documents, in any order, all three
    are 1. *)
Theorem calculate_metrics_extremes (retrieved_docs ground_truth_docs : list str) :
  (calculate_metrics retrieved_docs ground_truth_docs = (0, 0, 0) <->
   forall doc, doc ∈ retrieved_docs -> doc ∉ ground_truth_docs) /\
  ((calculate_metrics retrieved_docs ground_truth_docs).1.1 = 0 <->
   (calculate_metrics retrieved_docs ground_truth_docs).1.2 = 0) /\
  (retrieved_docs <> [] -> NoDup retrieved_docs -> NoDup ground_truth_docs ->
   retrieved_docs ≡ₚ ground_truth_docs ->
   calculate_metrics retrieved_docs ground_truth_docs = (1, 1, 1)).
Proof.
  assert (forall r rs g gs, size (relevant_set (r :: rs) (g :: gs)) = 0%nat <->
            forall doc, doc ∈ r :: rs -> doc ∉ g :: gs) as Hsize.
  { intros r rs g gs. rewrite size_empty_iff. unfold relevant_set.
    split.
    - intros H doc Hr Hg. apply (not_elem_of_empty (C := gset (list N)) doc).
      rewrite <- H. apply elem_of_intersection.
      by rewrite !elem_of_list_to_set.
    - intros H. apply set_equiv. intros doc.
      rewrite elem_of_intersection, !elem_of_list_to_set.
      split; [|by intros ?%not_elem_of_empty]. intros [Hr Hg].
      by destruct (H doc Hr). }
  unfold calculate_metrics.
  destruct retrieved_docs as [|r rs].
  { cbn [is_nil fst snd]. split_and!; [|done|done].
    split; [|done]. by intros _ doc ?%elem_of_nil. }
  destruct ground_truth_docs as [|g gs].
  { cbn [is_nil fst snd]. split_and!; [|done|].
    - split; [|done]. by intros _ doc _ ?%elem_of_nil.
    - intros _ _ _ Hp. by apply Permutation_nil_r in Hp. }
  cbn [is_nil fst snd]. rewrite <- Hsize.
  set (n := size (relevant_set (r :: rs) (g :: gs))).
  assert (0 < length (r :: rs))%nat as Hr by (simpl; lia).
  assert (0 < length (g :: gs))%nat as Hg by (simpl; lia).
  split_and!.
  - split.
    + intros H. apply (f_equal (fun m : Qc * Qc * Qc => m.1.1)) in H.
      cbn [fst snd] in H. by apply ratio_zero in H.
    + intros ->. rewrite of_nat_0, !zero_div.
      rewrite decide_True; [done|]. by apply Qc_is_canon.
  - split; intros H%ratio_zero; try done; by rewrite H, of_nat_0, zero_div.
  - intros _ Hndr Hndg Hp.
    assert (n = length (r :: rs)) as Hn.
    { unfold n, relevant_set.
      replace (list_to_set (g :: gs) : gset (list N))
        with (list_to_set (r :: rs) : gset (list N)).
      - rewrite intersection_idemp_L. by apply size_list_to_set_NoDup.
      - apply set_eq. intros doc. rewrite !elem_of_list_to_set. by rewrite Hp. }
    rewrite <- (Permutation_length Hp), Hn, ratio_one by done.
    rewrite decide_False; [|intros H%Qc_eq_Qeq; discriminate H].
    repeat f_equal. by apply Qc_is_canon.
Qed.

Lemma calculate_metrics_extremes_witness :
  calculate_metrics [utf8 "a"; utf8 "b"] [utf8 "b"; utf8 "a"] = (1, 1, 1).
Proof.
  apply (calculate_metrics_extremes [utf8 "a"; utf8 "b"] [utf8 "b"; utf8 "a"]).
  - discriminate.
  - by apply (bool_decide_unpack _); vm_compute.
  - by apply (bool_decide_unpack _); vm_compute.
  - apply perm_swap.
Defined.

End MetricsMore.

(** ** More on the evaluation *)

Section EvaluationMore.

Import PyNum Evaluation.
Local Open Scope Qc_scope.

Variable json_loads : str -> exn + json.

(** What [evaluate_retrieval] returns, whatever the AI pass does. *)
Lemma evaluate_retrieval_result (self : EvaluationService) (q : str)
    (retrieved ground_truth : list str) (use_ai_rating : bool) :
  exists result : EvaluationResult,
    evaluate_retrieval json_loads self q retrieved ground_truth use_ai_rating
      = inr result /\
    query result = q /\
    retrieved_docs result = retrieved /\
    ground_truth_docs result = ground_truth /\
    relevant_retrieved result
      = list_to_set retrieved ∩ list_to_set ground_truth /\
    missed_docs result = list_to_set ground_truth ∖ list_to_set retrieved /\
    (precision result, recall result, f1_score result)
      = Metrics.calculate_metrics retrieved ground_truth.
Proof.
  unfold evaluate_retrieval.
  destruct (Metrics.calculate_metrics retrieved ground_truth) as [[p r] f].
  destruct (use_ai_rating && is_some (llm_service self)).
  - destruct (ai_evaluate_returns json_loads self q retrieved ground_truth)
      as [[[rating comment] labels] ->].
    eexists. split; [reflexivity|]. by cbn.
  - eexists. split; [reflexivity|]. by cbn.
Qed.


End EvaluationMore.


Section JsonSearch.

Import Evaluation.

Lemma after_open_brace_spec (s : str) :
  match after_open_brace s with
  | None => 123%N ∉ s
  | Some rest => exists pre, s = pre ++ 123%N :: rest /\ (123%N ∉ pre)
  end.
Proof.
  induction s as [|c s IH]; cbn [after_open_brace].
  - apply not_elem_of_nil.
  - destruct (N.eqb_spec c 123) as [-> | Hc].
    + exists []. split; [done | apply not_elem_of_nil].
    + destruct (after_open_brace s) as [rest|].
      * destruct IH as (pre & -> & Hpre). exists (c :: pre). split; [done|].
        rewrite not_elem_of_cons. by split.
      * rewrite not_elem_of_cons. by split.
Qed.

Lemma last_close_brace_spec (s : str) :
  match last_close_brace s with
  | None => 125%N ∉ s
  | Some k =>
      exists post,
        s = take k s ++ 125%N :: post /\ (125%N ∉ post) /\ k < length s
  end.
Proof.
  induction s as [|c s IH]; cbn [last_close_brace].
  - apply not_elem_of_nil.
  - destruct (last_close_brace s) as [k|].
    + destruct IH as (post & E & Hpost & Hk). exists post. cbn [take length].
      split_and!; [by rewrite <- app_comm_cons, <- E | done | lia].
    + destruct (N.eqb_spec c 125) as [-> | Hc].
      * exists s. cbn [take length]. split_and!; [done | done | lia].
      * rewrite not_elem_of_cons. by split.
Qed.

Lemma after_open_brace_first (pre rest : str) :
  123%N ∉ pre -> after_open_brace (pre ++ 123%N :: rest) = Some rest.
Proof.
  induction pre as [|c pre IH]; intros Hpre; cbn [app after_open_brace].
  - done.
  - apply not_elem_of_cons in Hpre as [Hc Hpre].
    destruct (N.eqb_spec c 123) as [-> | _]; [done | by apply IH].
Qed.

Lemma last_close_brace_last (body post : str) :
  125%N ∉ post ->
  last_close_brace (body ++ 125%N :: post) = Some (length body).
Proof.
  intros Hpost. induction body as [|c body IH]; cbn [app last_close_brace length].
  - pose proof (last_close_brace_spec post) as H.
    destruct (last_close_brace post) as [k|]; [|done].
    destruct H as (post' & E & _). destruct Hpost. rewrite E.
    apply elem_of_app. right. by left.
  - by rewrite IH.
Qed.

(** X18. The search for a JSON object in the reply of the text generator
    returns the text from the first opening brace to the last closing brace
    after it, whatever surrounds them, and finds nothing exactly when no
    closing brace follows an opening brace. *)
Theorem search_json_object_braces (response : str) :
  (forall matched : str,
     search_json_object response = Some matched ->
     exists pre body post : str,
       response = pre ++ 123%N :: body ++ 125%N :: post /\
       matched = 123%N :: body ++ [125%N] /\
       (123%N ∉ pre) /\ (125%N ∉ post)) /\
  (forall pre body post : str,
     response = pre ++ 123%N :: body ++ 125%N :: post ->
     123%N ∉ pre -> 125%N ∉ post ->
     search_json_object response = Some (123%N :: body ++ [125%N])) /\
  (search_json_object response = None <->
   ~ exists pre body post : str,
       response = pre ++ 123%N :: body ++ 125%N :: post).
Proof.
  assert (forall pre body post : str,
            123%N ∉ pre -> 125%N ∉ post ->
            search_json_object (pre ++ 123%N :: body ++ 125%N :: post)
              = Some (123%N :: body ++ [125%N])) as Hfound.
  { intros pre body post Hpre Hpost. unfold search_json_object.
    rewrite after_open_brace_first, last_close_brace_last by done.
    do 2 f_equal. change (body ++ 125%N :: post) with (body ++ [125%N] ++ post).
    rewrite app_assoc. apply take_app_length'.
    rewrite length_app. simpl. lia. }
  split_and!.
  - intros matched. unfold search_json_object.
    pose proof (after_open_brace_spec response) as Hopen.
    destruct (after_open_brace response) as [rest|]; [|discriminate].
    destruct Hopen as (pre & -> & Hpre).
    pose proof (last_close_brace_spec rest) as Hclose.
    destruct (last_close_brace rest) as [k|]; [|discriminate].
    destruct Hclose as (post & E & Hpost & Hk). intros [= <-].
    exists pre, (take k rest), post. split_and!; [by rewrite <- E | | done | done].
    f_equal. rewrite E at 1.
    change (take k rest ++ 125%N :: post)
      with (take k rest ++ [125%N] ++ post).
    rewrite app_assoc. apply take_app_length'.
    rewrite length_app, length_take. simpl. lia.
  - intros pre body post -> Hpre Hpost. by apply Hfound.
  - split.
    + intros Hnone (pre & body & post & ->). revert Hnone.
      unfold search_json_object.
      pose proof (after_open_brace_spec (pre ++ 123%N :: body ++ 125%N :: post))
        as Hopen.
      destruct (after_open_brace _) as [rest|].
      * destruct Hopen as (pre' & E & Hpre').
        pose proof (last_close_brace_spec rest) as Hclose.
        destruct (last_close_brace rest) as [k|]; [discriminate|].
        intros _. apply Hclose.
        assert (125%N ∈ pre' ++ 123%N :: rest) as Hin.
        { rewrite <- E. rewrite elem_of_app. right. right.
          rewrite elem_of_app. right. by left. }
        assert (forall front, 123%N ∉ front ->
                  front ++ 123%N :: rest = pre ++ 123%N :: body ++ 125%N :: post ->
                  125%N ∈ rest) as Hrest.
        { clear. intros front. revert pre.
          induction front as [|c front IH]; intros pre Hfront Heq.
          - destruct pre as [|p pre]; cbn [app] in Heq.
            + injection Heq as ->. rewrite elem_of_app. right. by left.
            + injection Heq as <- ->. rewrite elem_of_app. right. right.
              rewrite elem_of_app. right. by left.
          - apply not_elem_of_cons in Hfront as [Hc Hfront].
            destruct pre as [|p pre]; cbn [app] in Heq.
            + injection Heq as -> _. done.
            + injection Heq as -> Heq. by apply (IH pre). }
        by apply (Hrest pre').
      * intros _. apply Hopen. rewrite elem_of_app. right. by left.
    + intros Hno. destruct (search_json_object response) as [matched|] eqn:E;
        [|done].
      destruct Hno. unfold search_json_object in E.
      pose proof (after_open_brace_spec response) as Hopen.
      destruct (after_open_brace response) as [rest|]; [|discriminate].
      destruct Hopen as (pre & -> & Hpre).
      pose proof (last_close_brace_spec rest) as Hclose.
      destruct (last_close_brace rest) as [k|]; [|discriminate].
      destruct Hclose as (post & E' & _).
      exists pre, (take k rest), post. by rewrite <- E'.
Qed.

Lemma search_json_object_braces_witness :
  search_json_object (utf8 "Sure: {a} and {b}. Bye")
    = Some (123%N :: utf8 "a} and {b" ++ [125%N]).
Proof.
  apply (proj1 (proj2 (search_json_object_braces
                         (utf8 "Sure: {a} and {b}. Bye")))
           (utf8 "Sure: ") (utf8 "a} and {b") (utf8 ". Bye")).
  - reflexivity.
  - by apply (bool_decide_unpack _); vm_compute.
  - by apply (bool_decide_unpack _); vm_compute.
Defined.

End JsonSearch.

(** ** Batches *)

Section BatchFacts.

Import PyNum Evaluation Batch.
Local Open Scope Qc_scope.

Variable json_loads : str -> exn + json.

Lemma calculate_metrics_unit (retrieved ground_truth : list str) :
  let '(p, r, f) := Metrics.calculate_metrics retrieved ground_truth in
  0 ≤ p ≤ 1 /\ 0 ≤ r ≤ 1 /\ 0 ≤ f ≤ 1.
Proof.
  unfold Metrics.calculate_metrics.
  destruct retrieved as [|d ds]; [|destruct ground_truth as [|g gs]];
    cbn [Metrics.is_nil]; [done..|].
  set (k := size _).
  assert (Hk0 : 0 ≤ of_nat k).
  { rewrite <- of_nat_0. apply of_nat_le. lia. }
  destruct (ratio_unit (of_nat k) (of_nat (length (d :: ds)))) as [Hp Hp0];
    [done|apply of_nat_le, relevant_le_retrieved|apply of_nat_pos; simpl; lia|].
  destruct (ratio_unit (of_nat k) (of_nat (length (g :: gs)))) as [Hr Hr0];
    [done|apply of_nat_le, relevant_le_ground_truth|apply of_nat_pos; simpl; lia|].
  split_and!; try tauto; apply f1_unit; try done; by rewrite Hp0, Hr0.
Qed.

Lemma total_unit (xs : list Qc) :
  Forall (fun x => 0 ≤ x ≤ 1) xs -> 0 ≤ total xs ≤ of_nat (length xs).
Proof.
  induction 1 as [|x xs [Hx0 Hx1] _ [IH0 IH1]]; cbn [total foldr length].
  - rewrite of_nat_0. split; apply Qcle_refl.
  - fold (total xs). split.
    + rewrite <- (Qcplus_0_l 0). by apply Qcplus_le_compat.
    + replace (of_nat (S (length xs))) with (1 + of_nat (length xs)).
      * by apply Qcplus_le_compat.
      * unfold of_nat. rewrite Nat2Z.inj_succ, <- Z.add_1_l, Z2Qc_inj_add.
        by rewrite Z2Qc_inj_1.
Qed.

Lemma average_unit (xs : list Qc) (count : nat) (ndigits : nat) :
  Forall (fun x => 0 ≤ x ≤ 1) xs -> length xs = count -> (0 < count)%nat ->
  0 ≤ py_round (total xs / of_nat count) ndigits ≤ 1.
Proof.
  intros Hall <- Hpos. destruct (total_unit xs Hall) as [H0 H1].
  destruct (ratio_unit (total xs) (of_nat (length xs))) as [[Ha Hb] _];
    [done | done | by apply of_nat_pos |].
  split; by apply py_round_unit.
Qed.

Lemma size_relevant_missed (retrieved ground_truth : list str) :
  (size (list_to_set retrieved ∩ list_to_set ground_truth : gset (list N))
   + size (list_to_set ground_truth ∖ list_to_set retrieved : gset (list N))
   = size (list_to_set ground_truth : gset (list N)))%nat.
Proof.
  rewrite <- size_union.
  - f_equal. apply set_eq. intros doc.
    rewrite elem_of_union, elem_of_intersection, elem_of_difference.
    destruct (decide (doc ∈ (list_to_set retrieved : gset (list N)))); tauto.
  - apply elem_of_disjoint. intros doc.
    rewrite elem_of_intersection, elem_of_difference. tauto.
Qed.

Lemma batch_loop_app (self : EvaluationService) (use_ai_rating : bool)
    (front back : list TestCase) :
  forall st,
    batch_loop json_loads self use_ai_rating (front ++ back) st =
    match batch_loop json_loads self use_ai_rating front st with
    | inl e => inl e
    | inr st' => batch_loop json_loads self use_ai_rating back st'
    end.
Proof.
  induction front as [|case front IH]; intros [[[results tp] tr] tf];
    cbn [app batch_loop]; [done|].
  destruct (case_query case); [|done].
  destruct (case_retrieved_docs case); [|done].
  destruct (case_ground_truth_docs case); [|done].
  destruct (evaluate_retrieval _ _ _ _ _ _); [done|]. apply IH.
Qed.

Lemma batch_loop_complete (self : EvaluationService) (use_ai_rating : bool)
    (test_cases : list TestCase) :
  Forall complete test_cases ->
  forall (results : list EvaluationResult) (tp tr tf : Qc),
  exists new : list EvaluationResult,
    batch_loop json_loads self use_ai_rating test_cases (results, tp, tr, tf)
      = inr (results ++ new,
             tp + total (map precision new),
             tr + total (map recall new),
             tf + total (map f1_score new)) /\
    Forall2 (evaluated json_loads self use_ai_rating) test_cases new.
Proof.
  induction 1 as [|case rest (q & r & g & ->) _ IH]; intros results tp tr tf.
  - exists []. cbn [batch_loop map total foldr]. split; [|constructor].
    by rewrite app_nil_r, !Qcplus_0_r.
  - cbn [batch_loop case_query case_retrieved_docs case_ground_truth_docs].
    destruct (evaluate_retrieval_result json_loads self q r g use_ai_rating)
      as (result & Heval & _).
    rewrite Heval.
    destruct (IH (results ++ [result]) (tp + precision result)
                (tr + recall result) (tf + f1_score result))
      as (new & -> & Hnew).
    exists (result :: new). split.
    + cbn [map total foldr]. rewrite <- app_assoc, <- !Qcplus_assoc. done.
    + constructor; [|done]. by exists q, r, g.
Qed.

Lemma evaluated_unit (self : EvaluationService) (use_ai_rating : bool)
    (test_cases : list TestCase) (results : list EvaluationResult) :
  Forall2 (evaluated json_loads self use_ai_rating) test_cases results ->
  Forall (fun x => 0 ≤ x ≤ 1) (map precision results) /\
  Forall (fun x => 0 ≤ x ≤ 1) (map recall results) /\
  Forall (fun x => 0 ≤ x ≤ 1) (map f1_score results).
Proof.
  induction 1 as [|case result cases results (q & r & g & -> & Heval) _ IH];
    cbn [map]; [split_and!; constructor|].
  destruct IH as (IHp & IHr & IHf).
  destruct (evaluate_retrieval_result json_loads self q r g use_ai_rating)
    as (result' & Heval' & _ & _ & _ & _ & _ & Hm).
  rewrite Heval in Heval'. injection Heval' as <-.
  pose proof (calculate_metrics_unit r g) as Hunit. rewrite <- Hm in Hunit.
  destruct Hunit as (Hp & Hr & Hf). split_and!; by constructor.
Qed.

(** X19. A batch whose cases all have their three keys gives a report
    with one detailed result per case, in the order of the cases, each with
    the query of its case and with counts that add up to the number of
    different documents of its ground truth, and with the three averages
    in [[0, 1]]; the first case that lacks a key makes the whole batch
    raise [KeyError] for the first key it lacks, in the order query,
    retrieved_docs, ground_truth_docs; and an empty batch gives zeros. *)
Theorem batch_evaluate_report (self : EvaluationService)
    (use_ai_rating : bool) :
  (forall test_cases : list TestCase,
     Forall complete test_cases ->
     exists report : BatchReport,
       batch_evaluate json_loads self test_cases use_ai_rating = inr report /\
       total_cases report = length test_cases /\
       Forall2
         (fun case detail =>
            case_query case = Some (detail_query detail) /\
            exists ground_truth : list str,
              case_ground_truth_docs case = Some ground_truth /\
              (relevant_count detail + missed_count detail)%nat
                = size (list_to_set ground_truth : gset (list N)))
         test_cases (detailed_results report) /\
       0 ≤ average_precision report ≤ 1 /\
       0 ≤ average_recall report ≤ 1 /\
       0 ≤ average_f1_score report ≤ 1) /\
  (forall (front : list TestCase) (case : TestCase) (back : list TestCase),
     Forall complete front ->
     (case_query case = None ->
      batch_evaluate json_loads self (front ++ case :: back) use_ai_rating
        = inl (KeyError "query")) /\
     (case_query case <> None -> case_retrieved_docs case = None ->
      batch_evaluate json_loads self (front ++ case :: back) use_ai_rating
        = inl (KeyError "retrieved_docs")) /\
     (case_query case <> None -> case_retrieved_docs case <> None ->
      case_ground_truth_docs case = None ->
      batch_evaluate json_loads self (front ++ case :: back) use_ai_rating
        = inl (KeyError "ground_truth_docs"))) /\
  batch_evaluate json_loads self [] use_ai_rating =
    inr {| total_cases := 0; average_precision := 0; average_recall := 0;
           average_f1_score := 0; detailed_results := [] |}.
Proof.
  assert (py_round 0 4 = 0) as Hzero.
  { rewrite <- Z2Qc_inj_0. apply py_round_of_Z. }
  split_and!.
  - intros test_cases Hall. unfold batch_evaluate.
    destruct (batch_loop_complete self use_ai_rating test_cases Hall [] 0 0 0)
      as (results & -> & Hres).
    cbn [app]. rewrite !Qcplus_0_l.
    destruct (evaluated_unit self use_ai_rating test_cases results Hres)
      as (Hp & Hr & Hf).
    pose proof (Forall2_length _ _ _ Hres) as Hlen.
    destruct (0 <? length test_cases)%nat eqn:Hcount.
    + apply Nat.ltb_lt in Hcount. eexists. split; [reflexivity|].
      cbn [total_cases average_precision average_recall average_f1_score
           detailed_results].
      split_and!; try done;
        try (apply average_unit; [done | by rewrite length_map | done]).
      clear -Hres. induction Hres as [|case result cases results Hev _ IH];
        cbn [map]; constructor; [|done].
      destruct Hev as (q & r & g & -> & Heval).
      destruct (evaluate_retrieval_result json_loads self q r g use_ai_rating)
        as (result' & Heval' & Hq & _ & _ & Hrel & Hmiss & _).
      rewrite Heval in Heval'. injection Heval' as <-.
      cbn [detailed detail_query relevant_count missed_count case_query
           case_ground_truth_docs].
      split; [by rewrite Hq|]. exists g. split; [done|].
      rewrite Hrel, Hmiss. apply size_relevant_missed.
    + apply Nat.ltb_ge in Hcount.
      destruct test_cases; [|simpl in Hcount; lia].
      apply Forall2_nil_inv_l in Hres as ->.
      eexists. split; [reflexivity|].
      cbn [total_cases average_precision average_recall average_f1_score
           detailed_results map].
      rewrite Hzero. split_and!; try done; constructor.
  - intros front case back Hfront. unfold batch_evaluate.
    rewrite batch_loop_app.
    destruct (batch_loop_complete self use_ai_rating front Hfront [] 0 0 0)
      as (results & -> & _).
    cbn [batch_loop]. split_and!.
    + by intros ->.
    + intros Hq ->. by destruct (case_query case).
    + intros Hq Hr ->.
      by destruct (case_query case), (case_retrieved_docs case).
  - unfold batch_evaluate. cbn [batch_loop length Nat.ltb Nat.leb map].
    by rewrite Hzero.
Qed.

End BatchFacts.

Lemma batch_evaluate_report_witness :
  (exists report : Batch.BatchReport,
     Batch.batch_evaluate AuditInputs.rejecting_loads BatchInputs.no_llm
       [BatchInputs.complete; BatchInputs.complete] false = inr report /\
     Batch.total_cases report = 2 /\
     (0 ≤ Batch.average_precision report ≤ 1)%Qc) /\
  Batch.batch_evaluate AuditInputs.rejecting_loads BatchInputs.no_llm
    ([BatchInputs.complete] ++ BatchInputs.no_ground_truth :: []) false
    = inl (Batch.KeyError "ground_truth_docs").
Proof.
  destruct (batch_evaluate_report AuditInputs.rejecting_loads
              BatchInputs.no_llm false) as (Hok & Hkey & _).
  split.
  - destruct (Hok [BatchInputs.complete; BatchInputs.complete])
      as (report & Heq & Hn & _ & Hp & _).
    + repeat constructor; by eexists _, _, _.
    + exists report. done.
  - destruct (Hkey [BatchInputs.complete] BatchInputs.no_ground_truth [])
      as (_ & _ & H).
    + repeat constructor; by eexists _, _, _.
    + apply H; [discriminate | discriminate | reflexivity].
Defined.

(** ** The search and emergency routes *)

Section SearchRoute.

Import Medical MedicalSearch.
Local Open Scope Qc_scope.

Variable search : str -> nat -> option metadata -> exn + option QueryResult.

Lemma format_loop_enough (results : QueryResult) (ids0 : list str) :
  index0 (ids results) = inr ids0 ->
  forall (hits : list (str * metadata * Qc)) (i : nat)
         (formatted : list SearchHit),
    (i + length hits <= length ids0)%nat ->
    format_loop results i hits formatted =
    inr (formatted ++ zip_with result_item (drop i ids0) hits).
Proof.
  intros Hids hits.
  induction hits as [|[[doc meta] dist] rest IH]; intros i formatted Hlen;
    cbn [format_loop].
  - destruct (drop i ids0); cbn [zip_with]; by rewrite app_nil_r.
  - rewrite Hids. cbn [length] in Hlen.
    destruct (ids0 !! i) as [id|] eqn:Hid.
    + rewrite IH by lia. f_equal.
      rewrite (drop_S _ _ _ Hid). cbn [zip_with fst snd].
      by rewrite <- app_assoc.
    + apply lookup_ge_None in Hid. lia.
Qed.

Lemma format_loop_short (results : QueryResult) (ids0 : list str) :
  index0 (ids results) = inr ids0 ->
  forall (hits : list (str * metadata * Qc)) (i : nat)
         (formatted : list SearchHit),
    (i <= length ids0 < i + length hits)%nat ->
    format_loop results i hits formatted = inl IndexError.
Proof.
  intros Hids hits.
  induction hits as [|[[doc meta] dist] rest IH]; intros i formatted Hlen;
    cbn [format_loop]; cbn [length] in Hlen; [lia|].
  rewrite Hids. destruct (ids0 !! i) as [id|] eqn:Hid; [|done].
  apply lookup_lt_Some in Hid. apply IH. lia.
Qed.

Lemma zip3_length {A B C} (a : list A) (b : list B) (c : list C) :
  length (zip3 a b c) = Nat.min (length a) (Nat.min (length b) (length c)).
Proof.
  revert b c. induction a as [|x a IH]; intros [|y b] [|z c];
    cbn [zip3 length]; try done; try lia.
  rewrite IH. lia.
Qed.

Lemma zip_with_item (hits : list (str * metadata * Qc)) :
  forall ids0 : list str,
    (length hits <= length ids0)%nat ->
    map hit_id (zip_with result_item ids0 hits) = take (length hits) ids0 /\
    map (fun hit => (hit_content hit, hit_metadata hit))
      (zip_with result_item ids0 hits) = map fst hits /\
    map hit_similarity (zip_with result_item ids0 hits) =
      map (fun hit => PyNum.py_round (1 - hit.2) 4) hits.
Proof.
  induction hits as [|[[d m] x] hits IH]; intros [|id ids0] Hlen;
    cbn [zip_with map take length fst snd] in *; try done; try lia.
  destruct (IH ids0) as (-> & -> & ->); [lia | done].
Qed.

(** X20. [medical_search] returns every hit of the search, whatever its
    distance: as many results as the shortest of the three lists of the
    search result, in their order, with the similarity [round(1 - distance,
    4)] and the ids in order. It returns no result when the search has
    none, and fails with status 500 when the search raises or when there
    are fewer ids than hits. *)
Theorem medical_search_returns_all (query : str) (category : option str)
    (top_k : nat) :
  let outcome := medical_search search query category top_k in
  (forall e : exn,
     search query top_k (where_of_category category) = inl e ->
     outcome = inl {| status_code := 500;
                      detail := utf8 "检索失败: " ++ exn_message e |}) /\
  (search query top_k (where_of_category category) = inr None \/
   (exists results : QueryResult,
      search query top_k (where_of_category category) = inr (Some results) /\
      (documents results = [] \/
       exists rest, documents results = [] :: rest)) ->
   outcome = inr {| search_query := query; search_total := 0;
                    search_results := [] |}) /\
  (forall (results : QueryResult) (documents0 ids0 : list str)
          (metadatas0 : list metadata) (distances0 : list Qc),
     search query top_k (where_of_category category) = inr (Some results) ->
     index0 (documents results) = inr documents0 ->
     index0 (metadatas results) = inr metadatas0 ->
     index0 (distances results) = inr distances0 ->
     index0 (ids results) = inr ids0 ->
     documents0 <> [] ->
     let hits := zip3 documents0 metadatas0 distances0 in
     ((length hits <= length ids0)%nat ->
      exists response : SearchResponse,
        outcome = inr response /\
        search_query response = query /\
        search_total response = length (search_results response) /\
        search_total response =
          Nat.min (length documents0)
            (Nat.min (length metadatas0) (length distances0)) /\
        map hit_id (search_results response) = take (length hits) ids0 /\
        map (fun hit => (hit_content hit, hit_metadata hit))
          (search_results response) = map fst hits /\
        map hit_similarity (search_results response) =
          map (fun hit => PyNum.py_round (1 - hit.2) 4) hits) /\
     ((length ids0 < length hits)%nat ->
      outcome = inl {| status_code := 500;
                       detail := utf8 "检索失败: "
                                 ++ exn_message IndexError |})).
Proof.
  cbv zeta. unfold medical_search, search_body. split_and!.
  - by intros e ->.
  - intros [-> | (results & -> & [-> | [rest ->]])]; reflexivity.
  - intros results documents0 ids0 metadatas0 distances0 -> Hdocs Hmetas
      Hdists Hids Hne.
    destruct (documents results) as [|d0 rest]; [discriminate Hdocs|].
    injection Hdocs as ->. destruct documents0 as [|doc docs]; [done|].
    rewrite Hmetas, Hdists.
    set (hits := zip3 (doc :: docs) metadatas0 distances0).
    split.
    + intros Hlen.
      rewrite (format_loop_enough results ids0 Hids hits 0 []) by (simpl; lia).
      cbn [app drop]. eexists. split; [reflexivity|].
      cbn [search_query search_total search_results].
      split_and!; [done | done | | | |].
      * rewrite length_zip_with, Nat.min_r by done. apply zip3_length.
      * by apply zip_with_item.
      * by apply zip_with_item.
      * by apply zip_with_item.
    + intros Hlen.
      rewrite (format_loop_short results ids0 Hids hits 0 []) by (simpl; lia).
      done.
Qed.

End SearchRoute.

Section SearchRouteWitness.

Import Medical MedicalSearch ChatInputs.

(** The search of [ChatInputs]: the third hit, at distance 0.9, is
    returned with the others. *)
Lemma medical_search_returns_all_witness :
  exists response : SearchResponse,
    medical_search ChatInputs.search (utf8 "diet") None 5 = inr response /\
    search_total response = 3 /\
    map hit_id (search_results response)
      = [utf8 "vec_001"; utf8 "vec_002"; utf8 "vec_003"].
Proof.
  destruct (medical_search_returns_all ChatInputs.search (utf8 "diet") None 5)
    as (_ & _ & H).
  destruct (H results [utf8 "salt"; utf8 "potassium"; utf8 "sugar"]
              [utf8 "vec_001"; utf8 "vec_002"; utf8 "vec_003"]
              (default [] (head (metadatas results)))
              MetricInputs.distances_E eq_refl eq_refl eq_refl eq_refl eq_refl)
    as [Hok _]; [discriminate|].
  destruct Hok as (response & Heq & _ & _ & Htotal & Hids & _).
  { apply Nat.leb_le. vm_compute. reflexivity. }
  exists response. split; [exact Heq|]. split.
  - rewrite Htotal. vm_compute. reflexivity.
  - rewrite Hids. vm_compute. reflexivity.
Defined.

End SearchRouteWitness.

Section Emergency.

Import Medical MedicalSearch.

Lemma starts_with_spec (needle haystack : str) :
  starts_with needle haystack = true <-> exists b, haystack = needle ++ b.
Proof.
  revert haystack. induction needle as [|c needle IH]; intros haystack.
  - cbn. split; [by exists haystack | done].
  - destruct haystack as [|d haystack]; cbn [starts_with].
    + split; [done | by intros [b ?]].
    + rewrite andb_true_iff, N.eqb_eq, IH. split.
      * intros [-> [b ->]]. by exists b.
      * intros [b [= -> ->]]. split; [done | by exists b].
Qed.

(** [needle in haystack]: the needle is a substring of the haystack. *)
Lemma contains_spec (needle haystack : str) :
  contains needle haystack = true <->
  exists a b, haystack = a ++ needle ++ b.
Proof.
  induction haystack as [|d haystack IH].
  - cbn [contains]. rewrite orb_false_r, starts_with_spec. split.
    + intros [b E]. by exists [], b.
    + intros (a & b & E). symmetry in E.
      apply app_eq_nil in E as [-> E]. by exists b.
  - cbn [contains]. rewrite orb_true_iff, starts_with_spec, IH. split.
    + intros [[b E] | (a & b & ->)]; [by exists [], b | by exists (d :: a), b].
    + intros ([|c a] & b & E); [left; by exists b|].
      injection E as -> ->. right. by exists a, b.
Qed.

(** X21. [check_emergency] flags the symptoms exactly when one of the four
    keywords is a substring of them; text added before or after flagged
    symptoms never removes the flag; and the message is the urgent one
    exactly when the flag is set. *)
Theorem check_emergency_substring (symptoms : str) :
  ((check_emergency symptoms).1 = true <->
   exists keyword a b,
     keyword ∈ emergency_keywords /\ symptoms = a ++ keyword ++ b) /\
  (forall before after : str,
     (check_emergency symptoms).1 = true ->
     (check_emergency (before ++ symptoms ++ after)).1 = true) /\
  ((check_emergency symptoms).2 = utf8 "建议立即就医！" <->
   (check_emergency symptoms).1 = true) /\
  (check_emergency symptoms).2 ∈ [utf8 "建议立即就医！"; utf8 "非紧急情况"].
Proof.
  assert (forall s, (check_emergency s).1 = true <->
            exists keyword a b,
              keyword ∈ emergency_keywords /\ s = a ++ keyword ++ b) as Hspec.
  { intros s. cbn [check_emergency fst]. rewrite existsb_exists. split.
    - intros (keyword & Hin & (a & b & E)%contains_spec).
      exists keyword, a, b. by rewrite list_elem_of_In.
    - intros (keyword & a & b & Hin & E). exists keyword.
      rewrite <- list_elem_of_In. split; [done|].
      apply contains_spec. by exists a, b. }
  split_and!.
  - apply Hspec.
  - intros before after (keyword & a & b & Hin & ->)%Hspec.
    apply Hspec. exists keyword, (before ++ a), (b ++ after).
    split; [done|]. by rewrite <- !app_assoc.
  - cbn [check_emergency fst snd]. destruct (existsb _ _); [done|].
    split; [|done]. intros E. vm_compute in E. discriminate E.
  - cbn [check_emergency fst snd]. destruct (existsb _ _).
    + by left.
    + right. by left.
Qed.

Lemma check_emergency_substring_witness :
  (check_emergency (utf8 "since noon: " ++ utf8 "胸痛" ++ utf8 " and cough")).1
    = true.
Proof.
  apply (proj1 (proj2 (check_emergency_substring (utf8 "胸痛")))
           (utf8 "since noon: ") (utf8 " and cough")).
  reflexivity.
Defined.

End Emergency.

(** ** Headings and short paragraphs in the merge *)

Section MergeStructure.

Lemma merge_loop_prefix (min_length : nat) (rest : list str) :
  forall current h : str,
    h <> [] -> h `prefix_of` current ->
    exists out, out ∈ merge_loop min_length current rest /\ h `prefix_of` out.
Proof.
  induction rest as [|p rest IH]; intros current h Hne Hpre;
    cbn [merge_loop].
  - exists current. split; [|done]. unfold flush.
    destruct current as [|c current]; [|by left].
    apply prefix_nil_inv in Hpre. done.
  - destruct (_ && _).
    + apply IH; [done|]. by apply prefix_app_r.
    + exists current. split; [|done]. apply elem_of_app. left. unfold flush.
      destruct current as [|c current]; [|by left].
      apply prefix_nil_inv in Hpre. done.
Qed.

Lemma merge_loop_starts (min_length : nat) (rest : list str) :
  forall (current p : str),
    p ∈ rest ->
    _is_heading (strip p) || _is_list_item (strip p) = true ->
    exists out,
      out ∈ merge_loop min_length current rest /\ strip p `prefix_of` out.
Proof.
  induction rest as [|q rest IH]; intros current p Hin Hp;
    [by apply elem_of_nil in Hin|].
  cbn [merge_loop]. apply elem_of_cons in Hin as [-> | Hin].
  - assert (strip q <> []) as Hne.
    { intros E. rewrite E in Hp. vm_compute in Hp. discriminate Hp. }
    assert ((length current <? min_length)
            && negb (_is_heading (strip q))
            && negb (_is_list_item (strip q)) = false) as ->.
    { apply orb_true_iff in Hp as [-> | ->];
        [by rewrite andb_false_r | by rewrite !andb_false_r]. }
    destruct (merge_loop_prefix min_length rest (strip q) (strip q) Hne)
      as (out & Hout & Hpre); [done|].
    exists out. split; [|done]. apply elem_of_app. by right.
  - destruct (_ && _).
    + by apply IH.
    + destruct (IH (strip q) p Hin Hp) as (out & Hout & Hpre).
      exists out. split; [|done]. apply elem_of_app. by right.
Qed.

Lemma merge_loop_long (min_length : nat) (rest : list str) :
  Forall (fun p => _is_heading (strip p) || _is_list_item (strip p) = false)
    rest ->
  forall (current : str) (front : list str) (last : str),
    merge_loop min_length current rest = front ++ [last] ->
    Forall (fun out => min_length <= length out) front.
Proof.
  induction 1 as [|p rest Hp _ IH]; intros current front last;
    cbn [merge_loop].
  - unfold flush. destruct (nonempty current); intros E.
    + destruct front as [|x [|y front]]; [constructor | done | done].
    + by destruct front.
  - apply orb_false_iff in Hp as [-> ->]. cbn [negb]. rewrite !andb_true_r.
    destruct (Nat.ltb_spec (length current) min_length) as [Hlt|Hge].
    + apply IH.
    + unfold flush. destruct (nonempty current); cbn [app]; [|apply IH].
      intros E. destruct front as [|x front].
      * constructor.
      * injection E as <- E. constructor; [done|]. by eapply IH.
Qed.

(** X22. In [_merge_short_paragraphs], a paragraph that is a heading or a
    list item, other than the first, is never glued behind another
    paragraph: it starts one of the paragraphs returned. And when no
    paragraph after the first is a heading or a list item, every paragraph
    returned except the last is at least [min_length] characters long. *)
Theorem merge_short_paragraphs_structure (first : str) (others : list str)
    (min_length : nat) :
  let merged := _merge_short_paragraphs (first :: others) min_length in
  (forall p : str,
     p ∈ others ->
     _is_heading (strip p) || _is_list_item (strip p) = true ->
     exists out, out ∈ merged /\ strip p `prefix_of` out) /\
  (Forall (fun p => _is_heading (strip p) || _is_list_item (strip p) = false)
     others ->
   forall (front : list str) (last : str),
     merged = front ++ [last] ->
     Forall (fun out => min_length <= length out) front).
Proof.
  cbv zeta. cbn [_merge_short_paragraphs]. split.
  - intros p Hin Hp. by apply merge_loop_starts.
  - intros Hnone front last. by apply merge_loop_long.
Qed.

Lemma merge_short_paragraphs_structure_witness :
  (exists out,
     out ∈ _merge_short_paragraphs [utf8 "intro"; utf8 "1. salt"] 50 /\
     strip (utf8 "1. salt") `prefix_of` out) /\
  Forall (fun out => 3 <= length out) [utf8 "ab cd"].
Proof.
  destruct (merge_short_paragraphs_structure (utf8 "intro") [utf8 "1. salt"] 50)
    as [Hhead _].
  destruct (merge_short_paragraphs_structure (utf8 "ab")
              [utf8 "cd"; utf8 "ef"] 3) as [_ Hlong].
  split.
  - apply Hhead; [by left | reflexivity].
  - refine (Hlong _ [utf8 "ab cd"] (utf8 "ef") _);
      [repeat constructor | reflexivity].
Defined.

End MergeStructure.
